(** * DePIN storage CLI: ledger contract, client upload, download, index, keystore

    A shallow embedding of the storage transaction and encrypted-file
    lifecycle of the repository:

    - [Solidity]  : results of contract calls and checked uint256 arithmetic;
    - [Ledger]    : the contract [StorageContract];
    - [JS]        : the JavaScript primitives the CLI relies on
                    ([buf.toString], [trim], [split], [parseInt],
                    [toLowerCase], [Math.min], [Math.ceil]);
    - [Crypto]    : the entry points of CryptoJS the CLI calls, as an
                    interface;
    - [Keystore]  : [savePrivateKey], [loadPrivateKey], [clearPrivateKey]
                    (src/keystore.js);
    - [Effects]   : the requests sent to the content store, the metadata
                    index, the ledger and the disk;
    - [Client]    : the upload block of [startClient];
    - [Download]  : [downloadFile] with the trace of requests it sends;
    - [Roundtrip] : a sample upload;
    - [Index]     : [getActiveProviders], [createProvider],
                    [updateProviderStorage] (src/supabase.js);
    - [Provider]  : [checkAvailableStorage] and the registration block of
                    [startProvider];
    - [LedgerRuns], [Tables], [Discovery], [DownloadOrder], [DiskReport],
      [Installer] : sequences of ledger transactions, the two tables of
                    the index with the provider's heartbeat, provider
                    discovery in [startClient], the order of the requests
                    of a download, the layout of the disk report, and
                    [updatePath] of the installer.

    The definitions come first, the theorems follow. *)

From Stdlib Require Import ZArith NArith QArith Qround List String Ascii Bool Lia.
From stdpp Require Import base option list gmap strings sorting.

Close Scope Q_scope.
Local Open Scope string_scope.

(** ** Solidity ^0.8 execution results and checked arithmetic *)

Module Solidity.

(** A call either returns, reverts with a reason string ([require], or a
    reverting external call), or panics (0x11: arithmetic overflow or
    underflow, 0x12: division by zero).  A revert or a panic rolls the whole
    state back, so a failed call leaves the ledger as it was. *)
Inductive result (A : Type) : Type :=
| Ok (a : A)
| Revert (reason : string)
| Panic (code : N).
Arguments Ok {A} a.
Arguments Revert {A} reason.
Arguments Panic {A} code.

#[export] Instance result_ret : MRet result := fun A a => Ok a.
#[export] Instance result_bind : MBind result := fun A B f m =>
  match m with
  | Ok a => f a
  | Revert r => Revert r
  | Panic c => Panic c
  end.

Definition succeeded {A} (r : result A) : bool :=
  match r with Ok _ => true | _ => false end.

Local Open Scope N_scope.

Definition uint256_max : N := 2 ^ 256 - 1.

Definition require (cond : bool) (reason : string) : result unit :=
  if cond then Ok tt else Revert reason.

Definition add (a b : N) : result N :=
  if a + b <=? uint256_max then Ok (a + b) else Panic 0x11.

Definition sub (a b : N) : result N :=
  if b <=? a then Ok (a - b) else Panic 0x11.

Definition mul (a b : N) : result N :=
  if a * b <=? uint256_max then Ok (a * b) else Panic 0x11.

Definition div (a b : N) : result N :=
  if b =? 0 then Panic 0x12 else Ok (a / b).

(** [1 ether] *)
Definition ether : N := 10 ^ 18.

End Solidity.

(** ** The ledger: contract [StorageContract] *)

Module Ledger.
Import Solidity.
Local Open Scope list_scope.
Local Open Scope N_scope.

(** [address] is a 160-bit unsigned integer; [address(0)] is [0]. *)
Definition address := N.
Definition address0 : address := 0.

(** The token contract behind [IERC20 public aaiToken].  Its code is
    OpenZeppelin's, outside the repository: the contract only sees the two
    calls below, which return a flag or revert.  The first address is the
    caller ([address(this)] for both calls). *)
Class IERC20 := {
  token : Type;
  erc20_transfer : token → address → address → N → result (token * bool);
  erc20_transferFrom : token → address → address → address → N → result (token * bool)
}.

Record ClientStorage := mkClientStorage {
  allocatedSpace : N;
  usedSpace : N;
  paymentAmount : N;
  lastPaymentTime : N;
  storedFileCIDs : list string;
  fileSizes : gmap string N
}.

Record Provider := mkProvider {
  providerAddress : address;
  allocatedStorage : N;
  usedStorage : N;
  pricePerGB : N;
  isActive : bool;
  clients : list address;
  clientStorages : gmap address ClientStorage
}.

Inductive Event :=
| ProviderRegistered (provider : address) (storageAmount price : N)
| StoragePurchased (client provider : address) (amount : N)
| FileStored (client provider : address) (cid : string)
| MiningReward (provider : address) (amount : N).

(** Solidity mappings are total: a key never written reads as the zero value. *)
Definition empty_client : ClientStorage :=
  mkClientStorage 0 0 0 0 [] ∅.

Definition empty_provider : Provider :=
  mkProvider address0 0 0 0 false [] ∅.

Definition client_of (p : Provider) (c : address) : ClientStorage :=
  default empty_client (clientStorages p !! c).

Definition file_size_of (cs : ClientStorage) (cid : string) : N :=
  default 0 (fileSizes cs !! cid).

Section StorageContract.
Context {T : IERC20}.

Record State := mkState {
  aaiToken : token;
  providers : gmap address Provider;
  cidToProvider : gmap string address
}.

Definition provider_of (st : State) (a : address) : Provider :=
  default empty_provider (providers st !! a).

Definition provider_of_cid (st : State) (cid : string) : address :=
  default address0 (cidToProvider st !! cid).

Definition set_provider (st : State) (a : address) (p : Provider) : State :=
  mkState (aaiToken st) (<[a := p]> (providers st)) (cidToProvider st).

Definition set_client (p : Provider) (c : address) (cs : ClientStorage) : Provider :=
  mkProvider (providerAddress p) (allocatedStorage p) (usedStorage p)
             (pricePerGB p) (isActive p) (clients p) (<[c := cs]> (clientStorages p)).

(** [registerProvider(_storage, _pricePerGB)], called by [sender]. *)
Definition registerProvider (sender : address) (_storage _pricePerGB : N)
    (st : State) : result (State * list Event) :=
  _ ← require (0 <? _storage) "Storage must be greater than 0";
  _ ← require (0 <? _pricePerGB) "Price must be greater than 0";
  let p := provider_of st sender in
  let p' := mkProvider sender _storage (usedStorage p) _pricePerGB true
                       (clients p) (clientStorages p) in
  Ok (set_provider st sender p', [ProviderRegistered sender _storage _pricePerGB]).

(** [purchaseStorage(_provider, _storageAmount)], called by [sender] at block
    time [timestamp]; [this] is the contract's own address. *)
Definition purchaseStorage (this sender : address) (timestamp : N)
    (_provider : address) (_storageAmount : N) (st : State)
    : result (State * list Event) :=
  let provider := provider_of st _provider in
  _ ← require (isActive provider) "Provider is not active";
  free ← sub (allocatedStorage provider) (usedStorage provider);
  _ ← require (_storageAmount <=? free) "Insufficient storage available";
  payment ← mul _storageAmount (pricePerGB provider);
  paid ← erc20_transferFrom (aaiToken st) this sender this payment;
  _ ← require paid.2 "Payment failed";
  let clientStorage := client_of provider sender in
  let clients' :=
    if allocatedSpace clientStorage =? 0
    then clients provider ++ [sender] else clients provider in
  allocated' ← add (allocatedSpace clientStorage) _storageAmount;
  payment' ← add (paymentAmount clientStorage) payment;
  used' ← add (usedStorage provider) _storageAmount;
  let clientStorage' :=
    mkClientStorage allocated' (usedSpace clientStorage) payment' timestamp
                    (storedFileCIDs clientStorage) (fileSizes clientStorage) in
  let provider' :=
    mkProvider (providerAddress provider) (allocatedStorage provider) used'
               (pricePerGB provider) (isActive provider) clients'
               (<[sender := clientStorage']> (clientStorages provider)) in
  Ok (mkState paid.1 (<[_provider := provider']> (providers st)) (cidToProvider st),
      [StoragePurchased sender _provider payment]).

(** The size conversion at the head of [storeFile]:
    [(_fileSize * 1e9) / (1000 * 1e9)], then [0] is raised to [1] when
    [_fileSize > 0]. *)
Definition storeFile_fileSizeGB (_fileSize : N) : result N :=
  scaled ← mul _fileSize (10 ^ 9);
  fileSizeGB ← div scaled (1000 * 10 ^ 9);
  Ok (if (fileSizeGB =? 0) && (0 <? _fileSize) then 1 else fileSizeGB).

(** [storeFile(_provider, _cid, _fileSize)], called by [sender]. *)
Definition storeFile (sender : address) (_provider : address) (_cid : string)
    (_fileSize : N) (st : State) : result (State * list Event) :=
  let provider := provider_of st _provider in
  let clientStorage := client_of provider sender in
  fileSizeGB ← storeFile_fileSizeGB _fileSize;
  needed ← add (usedSpace clientStorage) fileSizeGB;
  _ ← require (needed <=? allocatedSpace clientStorage) "Insufficient storage purchased";
  used' ← add (usedSpace clientStorage) fileSizeGB;
  let clientStorage' :=
    mkClientStorage (allocatedSpace clientStorage) used'
                    (paymentAmount clientStorage) (lastPaymentTime clientStorage)
                    (storedFileCIDs clientStorage ++ [_cid])
                    (<[_cid := _fileSize]> (fileSizes clientStorage)) in
  Ok (mkState (aaiToken st)
              (<[_provider := set_client provider sender clientStorage']> (providers st))
              (<[_cid := _provider]> (cidToProvider st)),
      [FileStored sender _provider _cid]).

(** [distributeMiningRewards()], called by [sender]. *)
Definition distributeMiningRewards (this sender : address) (st : State)
    : result (State * list Event) :=
  let provider := provider_of st sender in
  _ ← require (isActive provider) "Provider is not active";
  used100 ← mul (usedStorage provider) 100;
  utilizationRate ← div used100 (allocatedStorage provider);
  scaled ← mul utilizationRate ether;
  rewardAmount ← div scaled 100;
  sent ← erc20_transfer (aaiToken st) this sender rewardAmount;
  _ ← require sent.2 "Reward transfer failed";
  Ok (mkState sent.1 (providers st) (cidToProvider st),
      [MiningReward sender rewardAmount]).

(** The two nested loops of [getFileDetails].  The inner loop over
    [storedFileCIDs] sets the pair once a CID with the same keccak256 (read
    here as: the same string) is met and breaks; the outer loop breaks as
    soon as [fileOwner] is not [address(0)]. *)
Fixpoint find_owner (p : Provider) (cid : string) (cs : list address)
    (acc : address * N) : address * N :=
  match cs with
  | [] => acc
  | c :: rest =>
      let clientStorage := client_of p c in
      let acc' :=
        if existsb (String.eqb cid) (storedFileCIDs clientStorage)
        then (c, file_size_of clientStorage cid) else acc in
      if acc'.1 =? address0 then find_owner p cid rest acc' else acc'
  end.

(** [getFileDetails(_cid)]: returns (provider, owner, fileSize). *)
Definition getFileDetails (_cid : string) (st : State) : result (address * address * N) :=
  let providerAddr := provider_of_cid st _cid in
  _ ← require (negb (providerAddr =? address0)) "File not found";
  let fileProvider := provider_of st providerAddr in
  let found := find_owner fileProvider _cid (clients fileProvider) (address0, 0) in
  _ ← require (negb (found.1 =? address0)) "File not found or access denied";
  Ok (providerAddr, found.1, found.2).

(** [getClientStorageDetails(_provider, _client)] *)
Definition getClientStorageDetails (_provider _client : address) (st : State)
    : N * N * N * N :=
  let cs := client_of (provider_of st _provider) _client in
  (allocatedSpace cs, usedSpace cs, paymentAmount cs, lastPaymentTime cs).

(** [getProviderDetails(_provider)] *)
Definition getProviderDetails (_provider : address) (st : State) : N * N * N * bool :=
  let p := provider_of st _provider in
  (allocatedStorage p, usedStorage p, pricePerGB p, isActive p).

(** The utilisation percentage [distributeMiningRewards] computes. *)
Definition utilizationRate (p : Provider) : N :=
  usedStorage p * 100 / allocatedStorage p.

(** The invariant of the data model: on every record the ledger holds,
    used capacity does not exceed allocated capacity. *)
Definition client_within (cs : ClientStorage) : Prop :=
  usedSpace cs <= allocatedSpace cs.

Definition provider_within (p : Provider) : Prop :=
  usedStorage p <= allocatedStorage p.

Definition used_le_allocated (st : State) : Prop :=
  ∀ a p, providers st !! a = Some p →
    provider_within p ∧
    ∀ c cs, clientStorages p !! c = Some cs → client_within cs.

End StorageContract.

(** A token that accepts every transfer: the instance the concrete runs
    below are evaluated with. *)
Definition open_token : IERC20 :=
  {| token := unit;
     erc20_transfer := fun t _ _ _ => Ok (t, true);
     erc20_transferFrom := fun t _ _ _ _ => Ok (t, true) |}.

(** A ledger with one registered provider (address 1: 10 units at price 5)
    and no client yet. *)
Definition one_provider : @State open_token :=
  mkState (T := open_token) tt {[ 1 := mkProvider 1 10 0 5 true [] ∅ ]} ∅.

(** The same ledger after client 7 bought 2 units. *)
Definition two_units_bought : @State open_token :=
  mkState (T := open_token) tt
    {[ 1 := mkProvider 1 10 2 5 true [7]
              {[ 7 := mkClientStorage 2 0 10 1700000000 [] ∅ ]} ]} ∅.

(** The same ledger after client 7 bought 2 units and stored "QmFile"
    (1500 milli-units). *)
Definition one_file : @State open_token :=
  mkState (T := open_token) tt
    {[ 1 := mkProvider 1 10 2 5 true [7]
              {[ 7 := mkClientStorage 2 1 10 1700000000 ["QmFile"] {[ "QmFile" := 1500 ]} ]} ]}
    {[ "QmFile" := 1 ]}.



End Ledger.

(** ** JavaScript primitives used by the CLI *)

Module JS.
Local Open Scope list_scope.
Local Open Scope N_scope.

(** A [Buffer] (and a CryptoJS [WordArray] with its [sigBytes]) is a
    sequence of bytes, each below 256. *)
Definition bytes := list N.

(** JavaScript strings are kept as their UTF-8 text in a Rocq [string]; the
    strings the CLI compares or parses (addresses, hexadecimal and base64
    text, command output) are ASCII. *)
Definition bytes_of_string (s : string) : bytes :=
  map N_of_ascii (list_ascii_of_string s).

Definition string_of_bytes (b : bytes) : string :=
  string_of_list_ascii (map ascii_of_N b).

(** *** [buf.toString()]: UTF-8 decoding with U+FFFD replacement *)

Record utf8_state := mkUtf8 {
  utf8_cp : N;
  utf8_seen : N;
  utf8_needed : N;
  utf8_lower : N;
  utf8_upper : N
}.

Definition utf8_init : utf8_state := mkUtf8 0 0 0 0x80 0xBF.

(** A byte read while no multi-byte sequence is pending. *)
Definition utf8_lead (b : N) : utf8_state * list N :=
  if b <=? 0x7F then (utf8_init, [b])
  else if (0xC2 <=? b) && (b <=? 0xDF) then
    (mkUtf8 (N.land b 0x1F) 0 1 0x80 0xBF, [])
  else if (0xE0 <=? b) && (b <=? 0xEF) then
    (mkUtf8 (N.land b 0xF) 0 2
            (if b =? 0xE0 then 0xA0 else 0x80)
            (if b =? 0xED then 0x9F else 0xBF), [])
  else if (0xF0 <=? b) && (b <=? 0xF4) then
    (mkUtf8 (N.land b 0x7) 0 3
            (if b =? 0xF0 then 0x90 else 0x80)
            (if b =? 0xF4 then 0x8F else 0xBF), [])
  else (utf8_init, [0xFFFD]).

(** One byte of input: the code points emitted and the next state.  A byte
    that cannot continue the pending sequence yields U+FFFD and is read
    again as a lead byte. *)
Definition utf8_step (s : utf8_state) (b : N) : utf8_state * list N :=
  if utf8_needed s =? 0 then utf8_lead b
  else if (b <? utf8_lower s) || (utf8_upper s <? b) then
    (fst (utf8_lead b), 0xFFFD :: snd (utf8_lead b))
  else
    let cp := N.lor (N.shiftl (utf8_cp s) 6) (N.land b 0x3F) in
    if utf8_seen s + 1 =? utf8_needed s then (utf8_init, [cp])
    else (mkUtf8 cp (utf8_seen s + 1) (utf8_needed s) 0x80 0xBF, []).

Fixpoint utf8_decode_from (s : utf8_state) (b : bytes) : list N :=
  match b with
  | [] => if utf8_needed s =? 0 then [] else [0xFFFD]
  | x :: rest =>
      snd (utf8_step s x) ++ utf8_decode_from (fst (utf8_step s x)) rest
  end.

Definition utf8_decode (b : bytes) : list N := utf8_decode_from utf8_init b.

(** UTF-8 encoding of one code point. *)
Definition utf8_encode_cp (cp : N) : bytes :=
  if cp <=? 0x7F then [cp]
  else if cp <=? 0x7FF then
    [N.lor 0xC0 (N.shiftr cp 6); N.lor 0x80 (N.land cp 0x3F)]
  else if cp <=? 0xFFFF then
    [N.lor 0xE0 (N.shiftr cp 12);
     N.lor 0x80 (N.land (N.shiftr cp 6) 0x3F);
     N.lor 0x80 (N.land cp 0x3F)]
  else
    [N.lor 0xF0 (N.shiftr cp 18);
     N.lor 0x80 (N.land (N.shiftr cp 12) 0x3F);
     N.lor 0x80 (N.land (N.shiftr cp 6) 0x3F);
     N.lor 0x80 (N.land cp 0x3F)].

Definition utf8_encode (cps : list N) : bytes := flat_map utf8_encode_cp cps.

(** [buf.toString()] (encoding 'utf8'): the text the bytes decode to. *)
Definition Buffer_toString (b : bytes) : string :=
  string_of_bytes (utf8_encode (utf8_decode b)).

(** [Buffer.from(str)] and the bytes a string is sent as. *)
Definition Buffer_from (s : string) : bytes := bytes_of_string s.

(** *** [wordArray.toString()]: lower-case hexadecimal *)

Definition hex_digit (n : N) : ascii :=
  ascii_of_N (if n <? 10 then 48 + n else 87 + n).

Fixpoint Hex_stringify (b : bytes) : string :=
  match b with
  | [] => EmptyString
  | x :: rest => String (hex_digit (x / 16)) (String (hex_digit (x mod 16)) (Hex_stringify rest))
  end.

(** *** Strings *)

(** [s.toLowerCase()] on the ASCII letters (the strings it is applied to
    are "0x" followed by hexadecimal digits). *)
Definition lower_ascii (c : ascii) : ascii :=
  let n := N_of_ascii c in
  if (65 <=? n) && (n <=? 90) then ascii_of_N (n + 32) else c.

Fixpoint toLowerCase (s : string) : string :=
  match s with
  | EmptyString => EmptyString
  | String c rest => String (lower_ascii c) (toLowerCase rest)
  end.

(** Truthiness of a string: the empty string is falsy. *)
Definition truthy (s : string) : bool :=
  match s with EmptyString => false | _ => true end.

(** White space as [trim] and the regular expression [\s] see it, within
    ASCII: tab, line feed, vertical tab, form feed, carriage return, space.
    The white space beyond ASCII (U+00A0, U+FEFF, ...) is not covered: what
    is said of [trim] and [split] below is said of texts that are
    [ascii_only]. *)
Definition is_space (c : ascii) : bool :=
  let n := N_of_ascii c in ((9 <=? n) && (n <=? 13)) || (n =? 32).

Definition ascii_only (s : string) : bool :=
  forallb (fun c => N_of_ascii c <? 128) (list_ascii_of_string s).

Fixpoint trimStart (s : list ascii) : list ascii :=
  match s with
  | c :: rest => if is_space c then trimStart rest else s
  | [] => []
  end.

Definition trim (s : string) : string :=
  string_of_list_ascii
    (rev (trimStart (rev (trimStart (list_ascii_of_string s))))).

(** [s.split(sep)] for a one-character separator: the pieces between the
    separators, empty pieces included. [cur] is the current piece, reversed. *)
Fixpoint split_at (sep : ascii) (cur : list ascii) (s : list ascii) : list string :=
  match s with
  | [] => [string_of_list_ascii (rev cur)]
  | c :: rest =>
      if Ascii.eqb c sep
      then string_of_list_ascii (rev cur) :: split_at sep [] rest
      else split_at sep (c :: cur) rest
  end.

Definition split_lines (s : string) : list string :=
  split_at "010"%char [] (list_ascii_of_string s).

(** [s.split(/\s+/)]: the pieces between maximal runs of white space.
    [in_run] tells that the previous character was white space. *)
Fixpoint split_spaces_from (in_run : bool) (cur : list ascii) (s : list ascii)
    : list string :=
  match s with
  | [] => [string_of_list_ascii (rev cur)]
  | c :: rest =>
      if is_space c then
        if in_run then split_spaces_from true cur rest
        else string_of_list_ascii (rev cur) :: split_spaces_from true [] rest
      else split_spaces_from false (c :: cur) rest
  end.

Definition split_spaces (s : string) : list string :=
  split_spaces_from false [] (list_ascii_of_string s).

(** *** Numbers *)

(** The numbers read from command output and prompts are integers or NaN
    ([None]).  A JavaScript number is a double: an integer is held as the
    double nearest to it, ties going to the even significand, which is the
    integer itself up to 2^53.  Infinity (a magnitude of 2^1024 and more)
    has no representation here. *)
Definition jsint := option Z.

(** The double nearest to an integer. *)
Definition to_double (z : Z) : Z :=
  let m := Z.abs z in
  if (m <=? 2 ^ 53)%Z then z
  else
    let e := (Z.log2 m - 52)%Z in
    let q := (m / 2 ^ e)%Z in
    let r := (m mod 2 ^ e)%Z in
    let half := (2 ^ (e - 1))%Z in
    let q' :=
      if (r <? half)%Z then q
      else if (half <? r)%Z then (q + 1)%Z
      else if Z.even q then q else (q + 1)%Z in
    (Z.sgn z * (q' * 2 ^ e))%Z.

Definition digit_value (radix : Z) (c : ascii) : option Z :=
  let n := Z.of_N (N_of_ascii c) in
  let v :=
    if (48 <=? n)%Z && (n <=? 57)%Z then Some (n - 48)%Z
    else if (97 <=? n)%Z && (n <=? 122)%Z then Some (n - 87)%Z
    else if (65 <=? n)%Z && (n <=? 90)%Z then Some (n - 55)%Z
    else None in
  match v with
  | Some d => if (d <? radix)%Z then Some d else None
  | None => None
  end.

(** The longest prefix of digits, as a number; [None] when there is none. *)
Fixpoint parse_digits (radix : Z) (acc : option Z) (s : list ascii) : option Z :=
  match s with
  | [] => acc
  | c :: rest =>
      match digit_value radix c with
      | Some d => parse_digits radix (Some (default 0%Z acc * radix + d)%Z) rest
      | None => acc
      end
  end.

(** [parseInt(s)]: leading white space, an optional sign, an optional "0x"
    prefix, then the longest prefix of digits, as a double. *)
Definition parseInt (s : string) : jsint :=
  let s1 := trimStart (list_ascii_of_string s) in
  let '(sign, s2) :=
    match s1 with
    | "-"%char :: r => ((-1)%Z, r)
    | "+"%char :: r => (1%Z, r)
    | _ => (1%Z, s1)
    end in
  let '(radix, s3) :=
    match s2 with
    | "0"%char :: "x"%char :: r => (16%Z, r)
    | "0"%char :: "X"%char :: r => (16%Z, r)
    | _ => (10%Z, s2)
    end in
  match parse_digits radix None s3 with
  | Some v => Some (to_double (sign * v))
  | None => None
  end.

(** [Math.min(a, b)]: NaN as soon as one argument is NaN. *)
Definition Math_min (a b : jsint) : jsint :=
  match a, b with
  | Some x, Some y => Some (Z.min x y)
  | _, _ => None
  end.

(** [a + b] on numbers: the double nearest to the sum. *)
Definition js_add (a b : jsint) : jsint :=
  match a, b with
  | Some x, Some y => Some (to_double (x + y))
  | _, _ => None
  end.

(** [Math.floor(a / d)] for a power of two [d] (the CLI divides by 2^30):
    the quotient of a double by a power of two is exact. *)
Definition Math_floor_div (a : jsint) (d : Z) : jsint :=
  match a with
  | Some x => Some (x / d)%Z
  | None => None
  end.

(** [Math.ceil(n / d)] for a byte count [n] and a positive integer [d]: the
    ceiling of the exact quotient. *)
Definition Math_ceil_div (n d : N) : N :=
  Z.to_N (Qceiling (inject_Z (Z.of_N n) / inject_Z (Z.of_N d))%Q).

End JS.

(** ** The CryptoJS interface *)

Module Crypto.
Import JS.

(** CryptoJS accepts a [WordArray] or a string where it expects a message, a
    key or a salt, and behaves differently on each: a string key is a
    passphrase (the cipher derives key and IV from it and writes the
    OpenSSL salted format), a string salt or message is read as UTF-8. *)
Inductive Arg :=
| WordArray (b : bytes)
| Str (s : string).

(** What [AES.decrypt] is given to decrypt: formatted text, or an object
    carrying the raw [ciphertext]. *)
Inductive CipherInput :=
| Formatted (s : string)
| CiphertextOnly (ciphertext : bytes).

Inductive Mode := CBC.
Inductive Padding := Pkcs7.

Record Cfg := mkCfg {
  cfg_mode : option Mode;
  cfg_padding : option Padding;
  cfg_iv : option bytes
}.

Definition no_cfg : Cfg := mkCfg None None None.

(** The library is outside the repository; the CLI calls these entry
    points.  [None] stands for a thrown exception.  [AES_encrypt] takes the
    random bytes it draws as an argument. *)
Class CryptoJS := {
  CipherParams : Type;
  PBKDF2 : string → Arg → N → N → bytes;
  AES_encrypt : Arg → Arg → Cfg → bytes → option CipherParams;
  CipherParams_toString : CipherParams → string;
  AES_decrypt : CipherInput → Arg → Cfg → option bytes;
  Utf8_stringify : bytes → option string
}.

(** The documented contract of the passphrase mode: what
    [AES.encrypt(message, passphrase).toString()] produced decrypts, with
    the same passphrase, to the message. *)
Definition passphrase_roundtrip (L : CryptoJS) : Prop :=
  ∀ message passphrase entropy cp,
    AES_encrypt (Str message) (Str passphrase) no_cfg entropy = Some cp →
    ∃ decrypted,
      AES_decrypt (Formatted (CipherParams_toString cp)) (Str passphrase) no_cfg
      = Some decrypted ∧
      Utf8_stringify decrypted = Some message.

(** A stand-in that leaves data in the clear, to evaluate concrete runs. *)
Definition cleartext : CryptoJS :=
  {| CipherParams := string;
     PBKDF2 := fun password salt keySize iterations => bytes_of_string password;
     AES_encrypt := fun message key cfg entropy =>
       Some (match message with Str s => s | WordArray b => string_of_bytes b end);
     CipherParams_toString := fun cp => cp;
     AES_decrypt := fun input key cfg =>
       Some (match input with Formatted s => bytes_of_string s | CiphertextOnly b => b end);
     Utf8_stringify := fun b => Some (string_of_bytes b) |}.

End Crypto.

(** ** The credential store: src/keystore.js *)

Module Keystore.
Import JS Crypto.

Definition ENCRYPTION_KEY : string := "depin-storage-secure-key".

(** How [fs.writeFileSync] on [.keystore] ends.  The file is opened with
    flag 'w', which creates or truncates it, then written: a failure at the
    open leaves the file as it was, a failure after the open leaves the
    part already written ([written] characters, possibly none). *)
Inductive WriteOutcome :=
| WriteCompletes
| OpenFails
| WriteFails (written : nat).

(** The file [.keystore] of the working directory: its content when it
    exists, whether reading it succeeds, how writing it ends, and whether
    removing it succeeds. *)
Record Files := mkFiles {
  keystore_file : option string;
  readable : bool;
  write_outcome : WriteOutcome;
  removable : bool
}.

Definition with_content (fs : Files) (content : option string) : Files :=
  mkFiles content (readable fs) (write_outcome fs) (removable fs).

Section Keystore.
Context {L : CryptoJS}.

(** [savePrivateKey(privateKey)]: the new file state and the returned flag
    ([false] when encrypting or writing threw). *)
Definition savePrivateKey (privateKey : string) (entropy : bytes) (fs : Files)
    : Files * bool :=
  match AES_encrypt (Str privateKey) (Str ENCRYPTION_KEY) no_cfg entropy with
  | Some encrypted =>
      match write_outcome fs with
      | WriteCompletes => (with_content fs (Some (CipherParams_toString encrypted)), true)
      | OpenFails => (fs, false)
      | WriteFails written =>
          (with_content fs (Some (substring 0 written (CipherParams_toString encrypted))),
           false)
      end
  | None => (fs, false)
  end.

(** [loadPrivateKey()]: [None] is [null]. *)
Definition loadPrivateKey (fs : Files) : option string :=
  match keystore_file fs with
  | None => None
  | Some encrypted =>
      if readable fs then
        match AES_decrypt (Formatted encrypted) (Str ENCRYPTION_KEY) no_cfg with
        | Some decrypted => Utf8_stringify decrypted
        | None => None
        end
      else None
  end.

(** [clearPrivateKey()] *)
Definition clearPrivateKey (fs : Files) : Files * bool :=
  match keystore_file fs with
  | Some _ =>
      if removable fs then (with_content fs None, true) else (fs, false)
  | None => (fs, true)
  end.

End Keystore.
End Keystore.

(** ** Requests sent to the three collaborating systems *)

Module Effects.
Import JS.

(** A row of the table [stored_files]. *)
Record StoredFile := mkStoredFile {
  cid : string;
  file_provider_id : string;
  client_address : string;
  file_size : Q;
  file_name : string;
  encryption_salt : string
}.

(** What a run sends out, in order: to the content store (IPFS node), to
    the metadata index (Supabase), to the ledger (through web3), and the
    write of the output file to the local disk.  The credential store
    [.keystore] is not among the requests: it is state, [Keystore.Files],
    and what a download leaves in it is [Download.keystore_after]. *)
Inductive Request :=
| IpfsIsOnline
| IpfsVersion
| IpfsId
| IpfsAdd (content : string)
| IpfsCat (content_address : string)
| IndexSelectFile (content_address : string) (columns : string)
| IndexInsertFile (row : StoredFile)
| RpcGetAccounts
| RpcNetId
| LedgerGetFileDetails (content_address : string) (sender : option string)
| LedgerStoreFile (provider : string) (content_address : string) (fileSize : N)
                  (sender : string)
| DiskWriteFile (path : string) (content : bytes).

Definition is_content_store_request (r : Request) : bool :=
  match r with
  | IpfsIsOnline | IpfsVersion | IpfsId | IpfsAdd _ | IpfsCat _ => true
  | _ => false
  end.

(** Requests that hand out file content or persist it. *)
Definition touches_content (r : Request) : bool :=
  match r with
  | IpfsCat _ | DiskWriteFile _ _ => true
  | _ => false
  end.

(** The answer of a Supabase query: [{ data, error }]. *)
Inductive Reply (A : Type) :=
| Data (a : A)
| NoData
| Error.
Arguments Data {A} a.
Arguments NoData {A}.
Arguments Error {A}.

End Effects.

(** ** The upload block of [startClient] *)

Module Client.
Import JS Crypto Effects.
Local Open Scope list_scope.

(** [fileSizeBytes / (1024 * 1024 * 1024)] *)
Definition fileSizeGB (fileSizeBytes : N) : Q :=
  (inject_Z (Z.of_N fileSizeBytes) / inject_Z (1024 * 1024 * 1024))%Q.

(** [Math.max(Math.ceil(fileSizeBytes / 1000), 1)], the value sent to
    [storeFile] as [_fileSize]. *)
Definition fileSizeWei (fileSizeBytes : N) : N :=
  N.max (Math_ceil_div fileSizeBytes 1000) 1.

(** The prompt's check of the chosen file against the requested storage:
    it is refused when [fileSizeGB > storage]. *)
Definition filePath_accepted (fileSizeBytes : N) (storage : Q) : bool :=
  if Qlt_le_dec storage (fileSizeGB fileSizeBytes) then false else true.

(** What the upload block works on: the answers of the prompts, the wallet,
    the random bytes drawn, and the replies of the outside world. *)
Record Upload := mkUpload {
  up_file : option bytes;
  up_fileName : string;
  up_walletAddress : string;
  up_privateKey : string;
  up_salt : bytes;
  up_iv : bytes;
  up_entropy : bytes;
  up_providerId : string;
  up_providerAddress : string;
  up_providerStorage : Q;
  up_add : string → option string;
  up_track : StoredFile → bool;
  up_storeFile : string → string → N → bool
}.

Definition with_file (u : Upload) (file : bytes) : Upload :=
  mkUpload (Some file) (up_fileName u) (up_walletAddress u) (up_privateKey u)
           (up_salt u) (up_iv u) (up_entropy u) (up_providerId u)
           (up_providerAddress u) (up_providerStorage u) (up_add u)
           (up_track u) (up_storeFile u).

Inductive UploadOutcome :=
| Uploaded (content_address : string)
| ExceedsProviderStorage
| UploadFailed.

Section Upload.
Context {L : CryptoJS}.

(** [CryptoJS.PBKDF2(walletAddress + privateKey, salt, { keySize: 256/32,
    iterations: 10000 })] with the salt as the [WordArray] just drawn. *)
Definition upload_key (walletAddress privateKey : string) (salt : bytes) : bytes :=
  PBKDF2 (walletAddress ++ privateKey)%string (WordArray salt) (256 / 32) 10000.

(** [CryptoJS.AES.encrypt(file.toString(), encryptionKey.toString(), { mode,
    padding, iv }).toString()] *)
Definition encryptFile (file : bytes) (walletAddress privateKey : string)
    (salt iv entropy : bytes) : option string :=
  CipherParams_toString <$>
    AES_encrypt (Str (Buffer_toString file))
                (Str (Hex_stringify (upload_key walletAddress privateKey salt)))
                (mkCfg (Some CBC) (Some Pkcs7) (Some iv)) entropy.

(** The block "Handle file upload" of [startClient]: the requests sent, and
    how it ends. *)
Definition startClient_upload (u : Upload) : list Request * UploadOutcome :=
  match up_file u with
  | None => ([], UploadFailed)
  | Some file =>
      match encryptFile file (up_walletAddress u) (up_privateKey u)
                        (up_salt u) (up_iv u) (up_entropy u) with
      | None => ([], UploadFailed)
      | Some encrypted =>
          let fileSizeBytes := N.of_nat (length file) in
          if Qlt_le_dec (up_providerStorage u) (fileSizeGB fileSizeBytes)
          then ([], ExceedsProviderStorage)
          else
            match up_add u encrypted with
            | None => ([IpfsAdd encrypted], UploadFailed)
            | Some path =>
                let row :=
                  mkStoredFile path (up_providerId u) (up_walletAddress u)
                               (fileSizeGB fileSizeBytes) (up_fileName u)
                               (Hex_stringify (up_salt u)) in
                let store :=
                  LedgerStoreFile (up_providerAddress u) path
                                  (fileSizeWei fileSizeBytes) (up_walletAddress u) in
                if up_track u row then
                  if up_storeFile u (up_providerAddress u) path (fileSizeWei fileSizeBytes)
                  then ([IpfsAdd encrypted; IndexInsertFile row; store], Uploaded path)
                  else ([IpfsAdd encrypted; IndexInsertFile row; store], UploadFailed)
                else ([IpfsAdd encrypted; IndexInsertFile row], UploadFailed)
            end
      end
  end.

End Upload.
End Client.

(** ** [downloadFile] *)

Module Download.
Import JS Crypto Effects.
Local Open Scope list_scope.

(** How a download ends when it does not save the file.  Each constructor
    is one [spinner.fail] of the source. *)
Inductive Failure :=
| DatabaseCheckFailed      (* 'Failed to verify file in database' *)
| IpfsConnectionFailed     (* 'Failed to connect to IPFS node' *)
| InvalidFileDetails       (* 'File not found or invalid file details. ...' *)
| NotFound                 (* 'File not found or access denied. ...': the owner is the zero address *)
| ProviderMismatch         (* 'Invalid file details. Provider information not found.' *)
| PermissionDenied         (* 'You do not have permission to download this file. ...' *)
| MetadataMissing          (* 'Could not retrieve file metadata' *)
| EncryptionDetailsMissing (* 'Could not retrieve file encryption details' *)
| Thrown.                  (* an exception: 'Download failed: ...' *)

(** A run: the requests sent so far, and a value or the failure that ended it. *)
Record Run (A : Type) := mkRun {
  trace : list Request;
  outcome : Failure + A
}.
Arguments mkRun {A} trace outcome.
Arguments trace {A} r.
Arguments outcome {A} r.

#[export] Instance Run_ret : MRet Run := fun A a => mkRun [] (inr a).
#[export] Instance Run_bind : MBind Run := fun A B f m =>
  match outcome m with
  | inl e => mkRun (trace m) (inl e)
  | inr a => let next := f a in mkRun (trace m ++ trace next) (outcome next)
  end.

Definition request (r : Request) : Run unit := mkRun [r] (inr tt).
Definition fail {A} (e : Failure) : Run A := mkRun [] (inl e).
Definition unless (stop : bool) (e : Failure) : Run unit :=
  if stop then fail e else mret tt.

(** The value of an awaited call: [None] when it throws. *)
Definition expect {A} (reply : option A) : Run A :=
  match reply with
  | Some a => mret a
  | None => fail Thrown
  end.

(** The elements of the array a contract call resolves to. *)
Inductive Value :=
| Undefined
| Text (s : string)
| Other.

(** What [getFileDetails(...).call()] resolves to, as [Array.isArray] and
    the destructuring of [downloadFile] see it. *)
Inductive Details :=
| NotAnArray
| Array (elements : list Value).

(** What the pinned web3 (1.9.0) resolves the call to when the ledger
    returns (provider, owner, fileSize): the decoded outputs of a method
    with more than one output come as an object with the keys 0, 1, 2,
    provider, owner and fileSize, which is not an array. *)
Definition web3_decoded (providerAddress ownerAddress : string) (fileSize : N)
    : Details :=
  NotAnArray.

Definition zero_address : string := "0x0000000000000000000000000000000000000000".

Definition value_truthy (v : Value) : bool :=
  match v with
  | Undefined => false
  | Text s => truthy s
  | Other => true
  end.

(** [v === '0x0000000000000000000000000000000000000000'] *)
Definition is_zero_address (v : Value) : bool :=
  match v with
  | Text s => String.eqb s zero_address
  | _ => false
  end.

(** [!v || v === '0x00...0'] *)
Definition missing_address (v : Value) : bool :=
  negb (value_truthy v) || is_zero_address v.

(** [v.toLowerCase()]: throws unless [v] is a string. *)
Definition value_toLowerCase (v : Value) : option string :=
  match v with
  | Text s => Some (toLowerCase s)
  | _ => None
  end.

Record Env := mkEnv {
  cid_entered : string;
  outputPath : string;
  keystore : Keystore.Files;
  prompted_key : option string;
  save_entropy : bytes;
  accounts : option (option string);
  netId : option N;
  dbCheck : Reply StoredFile;
  ipfs_isOnline : option bool;
  ipfs_version : option string;
  ipfs_id : option string;
  fileDetails : option Details;
  fileMetadata : Reply Q;
  ipfs_cat : option bytes;
  fileData : Reply (string * Q);
  write_ok : bool
}.

(** The run gets as far as the ledger query: a key is at hand, the wallet
    answers with [caller], the index and the content store answer. *)
Definition reaches_ledger_query {L : CryptoJS} (e : Env) (caller : string) : Prop :=
  (∃ k, Keystore.loadPrivateKey (keystore e) = Some k ∧ truthy k = true
        ∨ (prompted_key e = Some k ∧ truthy k = true ∧
           ∀ k', Keystore.loadPrivateKey (keystore e) = Some k' → truthy k' = false)) ∧
  accounts e = Some (Some caller) ∧
  is_Some (netId e) ∧
  dbCheck e ≠ Error ∧
  is_Some (ipfs_isOnline e) ∧ is_Some (ipfs_version e) ∧ is_Some (ipfs_id e).

(** The answer to the ledger query, as the CLI receives it, is an array of
    three elements that names the wallet's address as owner, up to letter
    case. *)
Definition names_caller_as_owner (e : Env) : Prop :=
  ∃ caller providerAddress owner fileSize,
    accounts e = Some (Some caller) ∧
    fileDetails e = Some (Array [providerAddress; Text owner; fileSize]) ∧
    toLowerCase owner = toLowerCase caller.

(** The run gets as far as the ownership checks: a key is at hand, the
    wallet answers with [caller], the index and the content store answer,
    and the call resolves to an array of (provider, owner, size). *)
Definition reaches_ownership_checks {L : CryptoJS} (e : Env) (caller : string)
    (providerAddress ownerAddress fileSize : Value) : Prop :=
  (∃ k, Keystore.loadPrivateKey (keystore e) = Some k ∧ truthy k = true
        ∨ (prompted_key e = Some k ∧ truthy k = true ∧
           ∀ k', Keystore.loadPrivateKey (keystore e) = Some k' → truthy k' = false)) ∧
  accounts e = Some (Some caller) ∧
  is_Some (netId e) ∧
  dbCheck e ≠ Error ∧
  is_Some (ipfs_isOnline e) ∧ is_Some (ipfs_version e) ∧ is_Some (ipfs_id e) ∧
  fileDetails e = Some (Array [providerAddress; ownerAddress; fileSize]).

(** The three ownership checks pass: the ledger names an owner and a
    provider other than the zero address, and the owner is the caller up to
    letter case. *)
Definition passes_ownership_checks {L : CryptoJS} (e : Env) : Prop :=
  ∃ caller providerAddress owner fileSize,
    reaches_ownership_checks e caller providerAddress (Text owner) fileSize ∧
    missing_address (Text owner) = false ∧
    missing_address providerAddress = false ∧
    toLowerCase owner = toLowerCase caller.

(** The requests of a run that ends at one of the ownership checks. *)
Definition checked_trace (e : Env) (caller : string) : list Request :=
  [RpcGetAccounts; RpcNetId; IndexSelectFile (cid_entered e) "*";
   IpfsIsOnline; IpfsVersion; IpfsId;
   LedgerGetFileDetails (cid_entered e) (Some caller)].

(** The requests that follow once the checks have passed, up to the
    decryption. *)
Definition fetch_trace (e : Env) : list Request :=
  [IndexSelectFile (cid_entered e) "file_size"; IpfsIsOnline;
   IpfsCat (cid_entered e);
   IndexSelectFile (cid_entered e) "encryption_salt, file_size"].

Section Download.
Context {L : CryptoJS}.

(** [debugIPFSConnection()]: the node is asked whether it is online, for
    its version and for its identity; [false] stands for the [null]
    returned when one of them throws. *)
Definition debugIPFSConnection (e : Env) : Run bool :=
  match ipfs_isOnline e with
  | None => mkRun [IpfsIsOnline] (inr false)
  | Some _ =>
      match ipfs_version e with
      | None => mkRun [IpfsIsOnline; IpfsVersion] (inr false)
      | Some _ =>
          match ipfs_id e with
          | None => mkRun [IpfsIsOnline; IpfsVersion; IpfsId] (inr false)
          | Some _ => mkRun [IpfsIsOnline; IpfsVersion; IpfsId] (inr true)
          end
      end
  end.

(** The stored key, or else the one typed at the prompt: the key the run
    goes on with.  What the run leaves in the credential store is
    [keystore_after]. *)
Definition resolve_privateKey (e : Env) : Run string :=
  match Keystore.loadPrivateKey (keystore e) with
  | Some k => if truthy k then mret k else
      match prompted_key e with
      | Some k' => if truthy k' then mret k' else fail Thrown
      | None => fail Thrown
      end
  | None =>
      match prompted_key e with
      | Some k' => if truthy k' then mret k' else fail Thrown
      | None => fail Thrown
      end
  end.

(** The credential store after the run: a key typed at the prompt is saved
    ([savePrivateKey(privateKey)], whose returned flag is not looked at) as
    soon as it is given, before the wallet is asked; a stored key that is
    used leaves the file as it is.  [.keystore] is the only file the run
    writes besides the output file. *)
Definition keystore_after (e : Env) : Keystore.Files :=
  let typed :=
    match prompted_key e with
    | Some k' =>
        if truthy k'
        then (Keystore.savePrivateKey k' (save_entropy e) (keystore e)).1
        else keystore e
    | None => keystore e
    end in
  match Keystore.loadPrivateKey (keystore e) with
  | Some k => if truthy k then keystore e else typed
  | None => typed
  end.

(** [CryptoJS.PBKDF2(walletAddress + privateKey, fileData.encryption_salt,
    { keySize: 256/32, iterations: 10000 })] with the salt as the string
    read from the index. *)
Definition download_key (walletAddress privateKey salt : string) : bytes :=
  PBKDF2 (walletAddress ++ privateKey)%string (Str salt) (256 / 32) 10000.

(** [CryptoJS.AES.decrypt({ ciphertext }, encryptionKey, { mode, padding })]
    followed by the conversion of the result to a [Buffer]. *)
Definition decryptFile (encryptedContent : bytes) (key : bytes) : option bytes :=
  AES_decrypt (CiphertextOnly encryptedContent) (WordArray key)
              (mkCfg (Some CBC) (Some Pkcs7) None).

(** [downloadFile()]: the path and the content saved, or the failure. *)
Definition downloadFile (e : Env) : Run (string * bytes) :=
  privateKey ← resolve_privateKey e;
  _ ← request RpcGetAccounts;
  walletAddress ← expect (accounts e);
  _ ← request RpcNetId;
  _ ← expect (netId e);
  _ ← request (IndexSelectFile (cid_entered e) "*");
  _ ← unless (match dbCheck e with Error => true | _ => false end) DatabaseCheckFailed;
  ipfs ← debugIPFSConnection e;
  _ ← unless (negb ipfs) IpfsConnectionFailed;
  _ ← request (LedgerGetFileDetails (cid_entered e) walletAddress);
  details ← expect (fileDetails e);
  addresses ←
    match details with
    | Array [providerAddress; ownerAddress; fileSize] => mret (providerAddress, ownerAddress)
    | _ => fail InvalidFileDetails
    end;
  _ ← unless (missing_address addresses.2) NotFound;
  _ ← unless (missing_address addresses.1) ProviderMismatch;
  owner ← expect (value_toLowerCase addresses.2);
  caller ← expect (toLowerCase <$> walletAddress);
  _ ← unless (negb (String.eqb owner caller)) PermissionDenied;
  _ ← request (IndexSelectFile (cid_entered e) "file_size");
  _ ← unless (match fileMetadata e with Data _ => false | _ => true end) MetadataMissing;
  _ ← request IpfsIsOnline;
  _ ← request (IpfsCat (cid_entered e));
  encryptedContent ← expect (ipfs_cat e);
  _ ← request (IndexSelectFile (cid_entered e) "encryption_salt, file_size");
  salt ←
    match fileData e with
    | Data (salt, _) => if truthy salt then mret salt else fail EncryptionDetailsMissing
    | _ => fail EncryptionDetailsMissing
    end;
  fileContent ←
    expect (decryptFile encryptedContent
              (download_key (default EmptyString walletAddress) privateKey salt));
  _ ← request (DiskWriteFile (outputPath e) fileContent);
  _ ← unless (negb (write_ok e)) Thrown;
  mret (outputPath e, fileContent).

End Download.

(** Concrete downloads of "QmFile": nothing in the key store, a key typed at
    the prompt, every system answering; the wallet is [caller] and the
    ledger answers [details]. *)
Definition sample_owner : string := "0x52908400098527886E0F7030069857D2E4169EE7".
Definition sample_provider : string := "0x8617E340B3D01FA5F11F306F4090FD50E238070D".
Definition sample_stranger : string := "0xde709f2102306220921060314715629080e2fb77".

Definition sample_env (caller : string) (details : Details) : Env :=
  mkEnv "QmFile" "/tmp/out.bin"
        (Keystore.mkFiles None true Keystore.WriteCompletes true)
        (Some "4c0883a69102937d6231471b5dbb6204fe5129617082792ae468d01a3f362318")
        [1; 2; 3; 4; 5; 6; 7; 8]%N
        (Some (Some caller)) (Some 97%N)
        (Data (mkStoredFile "QmFile" "a1b2c3d4" sample_owner (1 # 2) "report.pdf"
                            "000102030405060708090a0b0c0d0e0f"))
        (Some true) (Some "0.22.0") (Some "12D3KooW")
        (Some details) (Data (1 # 2)%Q) (Some [104; 105]%N)
        (Data ("000102030405060708090a0b0c0d0e0f", (1 # 2)%Q)) true.

(** The download of "QmFile", which the ledger holds for [sample_owner] at
    [sample_provider] with size 1500, by the wallet [caller]: the ledger's
    answer as web3 hands it over. *)
Definition answered_env (caller : string) : Env :=
  sample_env caller (web3_decoded sample_provider sample_owner 1500).

End Download.

(** ** The metadata index: src/supabase.js *)

Module Index.
Import JS Effects.
Local Open Scope list_scope.
Local Open Scope Z_scope.

(** A row of the table [providers].  [is_active] and [last_updated] have a
    default but no NOT NULL constraint; times are in milliseconds. *)
Record ProviderRow := mkProviderRow {
  provider_id : string;
  wallet_address : string;
  allocated_storage : Q;
  price_per_gb : Q;
  is_active : option bool;
  total_storage : Q;
  available_storage : Q;
  last_updated : option Z
}.

Definition positive (q : Q) : bool :=
  if Qlt_le_dec 0 q then true else false.

(** [.eq('is_active', true)] *)
Definition eq_is_active (r : ProviderRow) : bool :=
  match is_active r with
  | Some true => true
  | _ => false
  end.

(** [.gte('last_updated', since)] *)
Definition gte_last_updated (since : Z) (r : ProviderRow) : bool :=
  match last_updated r with
  | Some t => since <=? t
  | None => false
  end.

(** [.order('last_updated', { ascending: false })] *)
Definition newer_first (r1 r2 : ProviderRow) : Prop :=
  default 0 (last_updated r2) <= default 0 (last_updated r1).

#[export] Instance newer_first_dec r1 r2 : Decision (newer_first r1 r2).
Proof. unfold newer_first. apply _. Defined.

(** The query the server evaluates: the rows with [is_active = true] and
    [last_updated >= fiveMinutesAgo], newest first. *)
Definition select_active (now : Z) (table : list ProviderRow) : list ProviderRow :=
  merge_sort newer_first
    (filter (fun r => (eq_is_active r && gte_last_updated (now - 5 * 60 * 1000) r) = true)
            table).

(** The callback of [data?.filter(...)], evaluated by the CLI on what the
    server returned. *)
Definition valid_provider (r : ProviderRow) : bool :=
  positive (allocated_storage r) && positive (available_storage r) &&
  positive (price_per_gb r) && truthy (wallet_address r).

(** [getActiveProviders()] at time [now]; [None] is the thrown [error] of a
    failed query. *)
Definition getActiveProviders (now : Z) (table : option (list ProviderRow))
    : option (list ProviderRow) :=
  match table with
  | None => None
  | Some rows => Some (filter (fun r => valid_provider r = true) (select_active now rows))
  end.

(** The five conditions the specification lists. *)
Definition listed_conditions (now : Z) (r : ProviderRow) : bool :=
  eq_is_active r && gte_last_updated (now - 5 * 60 * 1000) r &&
  positive (allocated_storage r) && positive (available_storage r) &&
  positive (price_per_gb r).

(** What a row that is returned satisfies: the five listed conditions, and
    a wallet address that is not empty. *)
Definition returned (now : Z) (r : ProviderRow) : Prop :=
  (listed_conditions now r && truthy (wallet_address r)) = true.

#[export] Instance returned_dec now r : Decision (returned now r).
Proof. unfold returned. apply _. Defined.

(** [createProvider(providerData)]: the insert fails on a primary-key or
    unique-key conflict; the error carries the name of the violated
    constraint, which is what the caller looks for in its message. *)
Definition createProvider (now : Z) (id address : string) (storage price : Q)
    (totalStorage availableStorage : Q) (table : list ProviderRow)
    : list ProviderRow + string :=
  if existsb (fun r => String.eqb (provider_id r) id) table
  then inr "providers_pkey"
  else if existsb (fun r => String.eqb (wallet_address r) address) table
  then inr "providers_wallet_address_key"
  else inl (table ++ [mkProviderRow id address storage price (Some true)
                                    totalStorage availableStorage (Some now)]).

(** [updateProviderStorage(providerId, storageData)]: a field left
    [undefined] is not sent, so its column keeps its value; [is_active]
    is [true] unless given. *)
Definition updateProviderStorage (now : Z) (id : string)
    (allocated available price : option Q) (active : option bool)
    (table : list ProviderRow) : list ProviderRow :=
  map (fun r =>
         if String.eqb (provider_id r) id then
           mkProviderRow (provider_id r) (wallet_address r)
                         (default (allocated_storage r) allocated)
                         (default (price_per_gb r) price)
                         (Some (default true active))
                         (total_storage r)
                         (default (available_storage r) available)
                         (Some now)
         else r) table.

(** Rows at time 1700000000000, all active and just refreshed: one with an
    empty wallet address, one with no storage left, one complete. *)
Definition sample_now : Z := 1700000000000.

Definition row_without_wallet : ProviderRow :=
  mkProviderRow "a1b2c3d4" "" (10 # 1) (10 # 1) (Some true) (50 # 1) (10 # 1)
                (Some 1699999990000).

Definition row_without_space : ProviderRow :=
  mkProviderRow "e5f6a7b8" "0x8617E340B3D01FA5F11F306F4090FD50E238070D"
                (10 # 1) (10 # 1) (Some true) (50 # 1) (0 # 1) (Some 1699999995000).

Definition row_complete : ProviderRow :=
  mkProviderRow "c9d0e1f2" "0x52908400098527886E0F7030069857D2E4169EE7"
                (20 # 1) (10 # 1) (Some true) (80 # 1) (15 # 1) (Some 1699999999000).

End Index.

(** ** The provider: [checkAvailableStorage] and registration *)

Module Provider.
Import JS Effects Solidity.
Local Open Scope list_scope.
Local Open Scope Z_scope.

(** One line of the output of [wmic logicaldisk get freespace,caption]:
    what it adds to the total. [None] when the line is skipped. *)
Definition line_freeGB (line : string) : option jsint :=
  match split_spaces (trim line) with
  | drive :: freeSpace :: _ =>
      if truthy drive && truthy freeSpace
      then Some (Math_floor_div (parseInt freeSpace) (1024 * 1024 * 1024))
      else None
  | _ => None
  end.

Fixpoint sum_freeGB (total : jsint) (lines : list string) : jsint :=
  match lines with
  | [] => total
  | line :: rest =>
      match line_freeGB line with
      | Some gb => sum_freeGB (js_add total gb) rest
      | None => sum_freeGB total rest
      end
  end.

(** [checkAvailableStorage()]: [stdout] is the output of the command, [None]
    when running it failed.  The first line is the header. *)
Definition checkAvailableStorage (stdout : option string) : jsint :=
  match stdout with
  | None => Some 0
  | Some out => sum_freeGB (Some 0) (tail (split_lines (trim out)))
  end.

(** [web3.utils.toWei(n.toString(), 'ether')] as a [uint256] argument:
    throws on NaN and on a negative number. *)
Definition toWei (n : jsint) : option N :=
  match n with
  | Some z => if 0 <=? z then Some (Z.to_N z * ether)%N else None
  | None => None
  end.

(** The fixed price: [answers.price = 10]. *)
Definition fixed_price : Z := 10.

Inductive Registration :=
| Registered
| RegistrationFailed.

Section Registration.
Context {T : Ledger.IERC20}.

(** What the registration block of [startProvider] leaves behind. *)
Record World := mkWorld {
  ledger : Ledger.State;
  index : list Index.ProviderRow
}.

(** The registration block of [startProvider] ("Get actual system storage
    and verify" up to the registration in the index): [requested] is
    [parseInt(answers.storage)],
    [stdout] the reply to the disk query, [wallet] the ledger address of
    the operator, [walletAddress] and [providerId] its text forms. *)
Definition startProvider_register (now : Z) (requested : jsint) (stdout : option string)
    (wallet : Ledger.address) (walletAddress providerId : string) (w : World)
    : World * Registration :=
  let availableStorage := checkAvailableStorage stdout in
  let verifiedStorage := Math_min requested availableStorage in
  match toWei verifiedStorage, toWei (Some fixed_price) with
  | Some storageWei, Some priceWei =>
      match Ledger.registerProvider wallet storageWei priceWei (ledger w) with
      | Ok (ledger', _) =>
          let storage := inject_Z (default 0 verifiedStorage) in
          let available := inject_Z (default 0 availableStorage) in
          match Index.createProvider now providerId walletAddress storage
                  (inject_Z fixed_price) available available (index w) with
          | inl index' => (mkWorld ledger' index', Registered)
          | inr violated =>
              if String.eqb violated "providers_pkey"
              then (mkWorld ledger'
                      (Index.updateProviderStorage now providerId (Some storage)
                         (Some available) None None (index w)), Registered)
              else (mkWorld ledger' (index w), RegistrationFailed)
          end
      | _ => (w, RegistrationFailed)
      end
  | _, _ => (w, RegistrationFailed)
  end.

End Registration.

(** The output of the disk query on a machine with two drives, 120 GB and
    40 GB free (and a drive with no medium). *)
Definition sample_stdout : string :=
  "Caption  FreeSpace
C:       128849018880
D:
E:       42949672960
".

(** A world in which the operator (ledger address 1) is registered with
    10 units: 10 * 10^18 on the ledger, 10 in the index. *)
Definition registered_world : @World Ledger.open_token :=
  mkWorld (T := Ledger.open_token)
    (Ledger.mkState (T := Ledger.open_token) tt
       {[ 1%N := Ledger.mkProvider 1%N (10 * 10 ^ 18)%N 0%N (10 * 10 ^ 18)%N true [] ∅ ]} ∅)
    [Index.mkProviderRow "c9d0e1f2" "0x52908400098527886E0F7030069857D2E4169EE7"
       (10 # 1) (10 # 1) (Some true) (160 # 1) (160 # 1) (Some 1699999999000)].

(** A world in which nobody is registered. *)
Definition empty_world : @World Ledger.open_token :=
  mkWorld (T := Ledger.open_token)
    (Ledger.mkState (T := Ledger.open_token) tt ∅ ∅) [].

End Provider.

(** ** A sample upload *)

Module Roundtrip.
Import JS Crypto Effects Client Download.
Local Open Scope list_scope.

(** An upload by [sample_owner] to [sample_provider] in which every system
    accepts what it is sent; the content address is a function of the
    content. *)
Definition sample_upload : Upload :=
  mkUpload None "report.pdf" sample_owner
           "4c0883a69102937d6231471b5dbb6204fe5129617082792ae468d01a3f362318"
           [0; 1; 2; 3; 4; 5; 6; 7; 8; 9; 10; 11; 12; 13; 14; 15]%N
           [16; 17; 18; 19; 20; 21; 22; 23; 24; 25; 26; 27; 28; 29; 30; 31]%N
           [32; 33; 34; 35; 36; 37; 38; 39]%N
           "a1b2c3d4" sample_provider (10 # 1)
           (fun content => Some ("Qm" ++ content)%string)
           (fun _ => true) (fun _ _ _ => true).

End Roundtrip.

(** ** Sequences of ledger transactions *)

Module LedgerRuns.
Import Solidity Ledger.
Local Open Scope list_scope.
Local Open Scope N_scope.

(** The four external state-changing functions of the contract, with the
    caller ([msg.sender]) and, for a purchase, the block time. *)
Inductive Call :=
| RegisterProvider (sender : address) (_storage _pricePerGB : N)
| PurchaseStorage (sender : address) (timestamp : N) (_provider : address)
                  (_storageAmount : N)
| StoreFile (sender _provider : address) (_cid : string) (_fileSize : N)
| DistributeMiningRewards (sender : address).

Definition caller (c : Call) : address :=
  match c with
  | RegisterProvider sender _ _ => sender
  | PurchaseStorage sender _ _ _ => sender
  | StoreFile sender _ _ _ => sender
  | DistributeMiningRewards sender => sender
  end.

(** The space the clients of a provider have been allocated, in total. *)
Definition total_allocated (p : Provider) : N :=
  map_fold (fun _ cs total => allocatedSpace cs + total) 0 (clientStorages p).

Section Runs.
Context {T : IERC20}.

Definition call (this : address) (c : Call) (st : State)
    : result (State * list Event) :=
  match c with
  | RegisterProvider sender _storage _pricePerGB =>
      registerProvider sender _storage _pricePerGB st
  | PurchaseStorage sender timestamp _provider _storageAmount =>
      purchaseStorage this sender timestamp _provider _storageAmount st
  | StoreFile sender _provider _cid _fileSize =>
      storeFile sender _provider _cid _fileSize st
  | DistributeMiningRewards sender =>
      distributeMiningRewards this sender st
  end.

(** A transaction: a call that reverts or panics leaves the state as it was. *)
Definition transact (this : address) (st : State) (c : Call) : State :=
  match call this c st with
  | Ok (st', _) => st'
  | _ => st
  end.

Definition run (this : address) (cs : list Call) (st : State) : State :=
  fold_left (transact this) cs st.

(** The state the constructor leaves: the token is set, the mappings are
    empty. *)
Definition deployed (aaiToken : token) : State := mkState aaiToken ∅ ∅.

(** The states the contract can be in. *)
Definition reachable (st : State) : Prop :=
  ∃ this aaiToken cs, st = run this cs (deployed aaiToken).

End Runs.

(** What the record of a provider satisfies in every reachable state: the
    capacity sold is the total allocated to its clients; an active
    provider has a positive capacity and price; every client has used no
    more than it was allocated, is listed among the clients once it holds
    an allocation, and has a size recorded for every file it stored. *)
Definition provider_consistent (p : Provider) : Prop :=
  usedStorage p = total_allocated p ∧
  (isActive p = true → 0 < allocatedStorage p ∧ 0 < pricePerGB p) ∧
  ∀ c cs, clientStorages p !! c = Some cs →
    usedSpace cs <= allocatedSpace cs ∧
    (0 < allocatedSpace cs → c ∈ clients p) ∧
    (∀ cid, cid ∈ storedFileCIDs cs → is_Some (fileSizes cs !! cid)).

Definition consistent {T : IERC20} (st : State) : Prop :=
  ∀ a p, providers st !! a = Some p → provider_consistent p.

(** What a later state [st'] keeps of an earlier state [st]: activity,
    sold capacity, client lists, allocations, usage, payments and file
    lists.  (The provider a CID points to is not kept: [storeFile] writes
    it anew at every call, the zero address included.) *)
Definition keeps {T : IERC20} (st st' : State) : Prop :=
  ∀ a, (isActive (provider_of st a) = true → isActive (provider_of st' a) = true) ∧
        usedStorage (provider_of st a) <= usedStorage (provider_of st' a) ∧
        clients (provider_of st a) `prefix_of` clients (provider_of st' a) ∧
        ∀ c, allocatedSpace (client_of (provider_of st a) c)
             <= allocatedSpace (client_of (provider_of st' a) c) ∧
             usedSpace (client_of (provider_of st a) c)
             <= usedSpace (client_of (provider_of st' a) c) ∧
             paymentAmount (client_of (provider_of st a) c)
             <= paymentAmount (client_of (provider_of st' a) c) ∧
             storedFileCIDs (client_of (provider_of st a) c)
             `prefix_of` storedFileCIDs (client_of (provider_of st' a) c).

End LedgerRuns.


(** ** The index: both tables and the provider's sign-off *)

Module Tables.
Import JS Effects Index.
Local Open Scope list_scope.
Local Open Scope Z_scope.

(** The two tables of the schema. *)
Record Db := mkDb {
  providers : list ProviderRow;
  stored_files : list StoredFile
}.

(** [trackFileStorage(fileData)]: the insert is refused ([None]: the error
    is thrown) when the CID is already in the table ([cid] is UNIQUE) or
    when [provider_id] names no row of [providers] (the foreign key). *)
Definition trackFileStorage (row : StoredFile) (db : Db) : option Db :=
  if existsb (fun f => String.eqb (cid f) (cid row)) (stored_files db) then None
  else if existsb (fun p => String.eqb (provider_id p) (file_provider_id row)) (providers db)
  then Some (mkDb (providers db) (stored_files db ++ [row]))
  else None.

(** [getProviderFiles(providerId)] *)
Definition getProviderFiles (providerId : string) (db : Db) : list StoredFile :=
  filter (fun f => file_provider_id f = providerId) (stored_files db).

(** [supabase.from('stored_files').select(...).eq('cid', cid).single()],
    as [downloadFile] sends it: an error unless exactly one row matches. *)
Definition select_file (content_address : string) (db : Db) : Reply StoredFile :=
  match filter (fun f => cid f = content_address) (stored_files db) with
  | [f] => Data f
  | _ => Error
  end.

(** The update [monitorStorage] of [startProvider] ends with, once it has
    computed [availableAllocated] (the number [verifiedStorage -
    usedStorage]): allocated and available storage are sent, the price and
    the activity flag are not.  It runs once after the registration and
    then every five minutes. *)
Definition monitorStorage_update (now : Z) (providerId : string)
    (verifiedStorage : Z) (availableAllocated : Q) (db : Db) : Db :=
  mkDb (updateProviderStorage now providerId (Some (inject_Z verifiedStorage))
          (Some availableAllocated) None None (providers db))
       (stored_files db).


(** [cleanupProviderStatus(providerId)], run on SIGINT: the update it sends
    to the index. *)
Definition cleanupProviderStatus (now : Z) (providerId : string) (db : Db) : Db :=
  mkDb (updateProviderStorage now providerId None None None (Some false) (providers db))
       (stored_files db).

(** The period of the monitoring intervals of [startProvider], and the
    window of [getActiveProviders]. *)
Definition interval : Z := 300000.

(** An index with the complete sample row, and one file of 2^29 bytes
    tracked for it. *)
Definition sample_db : Db := mkDb [row_complete] [].

Definition sample_file : StoredFile :=
  mkStoredFile "QmFile" "c9d0e1f2" "0x8617E340B3D01FA5F11F306F4090FD50E238070D"
               (1 # 2) "report.pdf" "00112233445566778899aabbccddeeff".

End Tables.

(** ** Provider discovery in [startClient] *)

Module Discovery.
Import JS Effects Index.
Local Open Scope list_scope.
Local Open Scope Z_scope.

(** The second component of an element of what [getOnlineProviders]
    resolves to, with the identifier that is its first component. *)
Record OnlineProvider := mkOnlineProvider {
  id : string;
  address : string;
  storage : Q;
  price : Q;
  lastSeen : Z
}.

(** [getOnlineProviders()]: a failed query is caught and gives [[]].
    [new Date(null).getTime()] is 0. *)
Definition getOnlineProviders (now : Z) (table : option (list ProviderRow))
    : list OnlineProvider :=
  match getActiveProviders now table with
  | Some activeProviders =>
      map (fun provider =>
             mkOnlineProvider (provider_id provider) (wallet_address provider)
                              (allocated_storage provider) (price_per_gb provider)
                              (default 0 (last_updated provider)))
          activeProviders
  | None => []
  end.

(** Truthiness of a number: 0 is falsy. *)
Definition number_truthy (q : Q) : bool := negb (Qeq_bool q 0).

(** The callback of [providers.filter(...)] in [getProvidersWithRetry],
    evaluated at time [now]. *)
Definition isActive (now : Z) (provider : OnlineProvider) : bool :=
  truthy (id provider) && truthy (address provider) &&
  positive (storage provider) && number_truthy (price provider) &&
  (now - 300000 <? lastSeen provider).

(** What one attempt meets: the time of the query, the time at which the
    answer is validated, and the table ([None]: the query fails). *)
Record Attempt := mkAttempt {
  asked : Z;
  checked : Z;
  table : option (list ProviderRow)
}.

(** The loop of [getProvidersWithRetry]: attempt [i] of the [remaining]
    ones; [None] is the error thrown after the last attempt. *)
Fixpoint retry (world : nat → Attempt) (i remaining : nat)
    : option (list OnlineProvider) :=
  match remaining with
  | O => None
  | S remaining' =>
      let providers := getOnlineProviders (asked (world i)) (table (world i)) in
      match filter (fun p => isActive (checked (world i)) p = true) providers with
      | [] => retry world (S i) remaining'
      | validProviders => Some validProviders
      end
  end.

(** [getProvidersWithRetry()] with its default [maxRetries = 3]. *)
Definition getProvidersWithRetry (world : nat → Attempt) : option (list OnlineProvider) :=
  retry world 0 3.

(** The validation of the storage prompt: [input] is the number typed
    ([None]: NaN), [provider_storage] the [storage] of the chosen provider. *)
Definition storage_accepted (input : option Q) (provider_storage : Q) : bool :=
  match input with
  | None => false
  | Some q =>
      if Qlt_le_dec 0 q
      then (if Qlt_le_dec provider_storage q then false else true)
      else false
  end.

(** A world in which the index is down at the first attempt and holds the
    complete sample row, just refreshed, from the second on. *)
Definition sample_world (i : nat) : Attempt :=
  match i with
  | O => mkAttempt sample_now sample_now None
  | _ => mkAttempt (sample_now + 5000) (sample_now + 5200) (Some [row_complete])
  end.

End Discovery.

(** ** The requests of a download, in order *)

Module DownloadOrder.
Import JS Effects Download.
Local Open Scope list_scope.



(** The world a download runs in when the index holds the tables [db]:
    the three lookups by CID are answered from [stored_files]. *)
Definition answered_from (db : Tables.Db) (e : Env) : Prop :=
  dbCheck e = Tables.select_file (cid_entered e) db ∧
  fileMetadata e
  = match Tables.select_file (cid_entered e) db with
    | Data f => Data (file_size f)
    | NoData => NoData
    | Error => Error
    end ∧
  fileData e
  = match Tables.select_file (cid_entered e) db with
    | Data f => Data (encryption_salt f, file_size f)
    | NoData => NoData
    | Error => Error
    end.

(** A download of a CID the index does not hold: the wallet, the content
    store and the ledger would all answer. *)
Definition untracked_env : Env :=
  mkEnv "QmMissing" "/tmp/out.bin"
        (Keystore.mkFiles None true Keystore.WriteCompletes true)
        (Some "4c0883a69102937d6231471b5dbb6204fe5129617082792ae468d01a3f362318")
        [1; 2; 3; 4; 5; 6; 7; 8]%N
        (Some (Some sample_owner)) (Some 97%N)
        Error (Some true) (Some "0.22.0") (Some "12D3KooW")
        (Some (web3_decoded sample_provider sample_owner 1500)) Error
        (Some [104; 105]%N) Error true.

End DownloadOrder.

(** ** The lines of the disk report read by [checkAvailableStorage] *)

Module DiskReport.
Import JS.
Local Open Scope list_scope.
Local Open Scope Z_scope.

(** A line of the report after the header, by its layout: a drive with a
    caption and a free-space field of decimal digits, separated and
    surrounded by white space; or a line without a second field (a drive
    with no medium, or a blank line).  The report is ASCII text. *)
Inductive Line :=
| Drive (lead caption gap : list ascii) (freeSpace : list N) (trail : list ascii)
| NoMedium (lead caption trail : list ascii).

Definition digit_char (d : N) : ascii := ascii_of_N (48 + d).

(** The number a sequence of decimal digits denotes. *)
Definition decimal_value (digits : list N) : Z :=
  fold_left (fun acc d => acc * 10 + Z.of_N d) digits 0.

Definition text (l : Line) : string :=
  match l with
  | Drive lead caption gap freeSpace trail =>
      string_of_list_ascii (lead ++ caption ++ gap ++ map digit_char freeSpace ++ trail)
  | NoMedium lead caption trail =>
      string_of_list_ascii (lead ++ caption ++ trail)
  end.

Definition blank (s : list ascii) : Prop := Forall (fun c => is_space c = true) s.
Definition word (s : list ascii) : Prop := Forall (fun c => is_space c = false) s.

Definition well_formed (l : Line) : Prop :=
  match l with
  | Drive lead caption gap freeSpace trail =>
      blank lead ∧ word caption ∧ caption ≠ [] ∧ blank gap ∧ gap ≠ [] ∧
      Forall (fun d => (d < 10)%N) freeSpace ∧ freeSpace ≠ [] ∧ blank trail ∧
      decimal_value freeSpace <= 2 ^ 53
  | NoMedium lead caption trail => blank lead ∧ word caption ∧ blank trail
  end.

(** The whole gibibytes free on the drive of a line. *)
Definition freeGB (l : Line) : Z :=
  match l with
  | Drive _ _ _ freeSpace _ => decimal_value freeSpace / (1024 * 1024 * 1024)
  | NoMedium _ _ _ => 0
  end.

(** The lines of [Provider.sample_stdout] after the header. *)
Definition sample_lines : list Line :=
  [Drive [] ["C"; ":"]%char [" "; " "; " "; " "; " "; " "; " "]%char
         [1; 2; 8; 8; 4; 9; 0; 1; 8; 8; 8; 0]%N [];
   NoMedium [] ["D"; ":"]%char [];
   Drive [] ["E"; ":"]%char [" "; " "; " "; " "; " "; " "; " "]%char
         [4; 2; 9; 4; 9; 6; 7; 2; 9; 6; 0]%N []].

End DiskReport.

(** ** The installer: [IPFSInstaller.updatePath] *)

Module Installer.
Local Open Scope string_scope.

(** [s.includes(sub)] *)
Fixpoint includes (s sub : string) : bool :=
  String.prefix sub s ||
  match s with
  | EmptyString => false
  | String _ rest => includes rest sub
  end.

Definition double_quote : string := String (ascii_of_nat 34) EmptyString.
Definition line_feed : string := String (ascii_of_nat 10) EmptyString.

(** The line appended to the shell configuration: a line feed,
    [export PATH=], the quoted value [$PATH:binDir], a line feed. *)
Definition pathLine (binDir : string) : string :=
  line_feed ++ "export PATH=" ++ double_quote ++ "$PATH:" ++ binDir ++ double_quote
  ++ line_feed.

(** The command that extends the user's PATH on Windows. *)
Definition setx (binDir : string) : string :=
  "setx PATH " ++ double_quote ++ "%PATH%;" ++ binDir ++ double_quote.

(** [updatePath()]: [binDir] is [path.dirname(this.ipfsPath)], [echo] the
    output of [echo %PATH%], [shellConfig] the content of the shell
    configuration file of the home directory ([.zshrc] on darwin,
    [.bashrc] elsewhere) when it exists.  The result is the commands run
    and the content of that file afterwards. *)
Definition updatePath (platform binDir echo : string) (shellConfig : option string)
    : list string * option string :=
  if String.eqb platform "win32" then
    (if includes echo binDir
     then ["echo %PATH%"]%list
     else ["echo %PATH%"; setx binDir]%list,
     shellConfig)
  else
    ([]%list,
     match shellConfig with
     | Some content =>
         if includes content binDir then Some content
         else Some (content ++ pathLine binDir)
     | None => Some (pathLine binDir)
     end).

End Installer.
(** * Theorems *)

(** ** The ledger *)

Module LedgerFacts.
Import Solidity Ledger.
Local Open Scope list_scope.
Local Open Scope N_scope.

Lemma require_ok cond reason u : require cond reason = Ok u → cond = true.
Proof. unfold require. destruct cond; [done | discriminate]. Qed.

Lemma add_ok a b c : add a b = Ok c → c = a + b.
Proof. unfold add. case_match; congruence. Qed.

Lemma sub_ok a b c : sub a b = Ok c → b <= a ∧ c = a - b.
Proof.
  unfold sub. destruct (b <=? a) eqn:E; [|discriminate].
  apply N.leb_le in E. intros [= <-]. done.
Qed.

Lemma mul_ok a b c : mul a b = Ok c → c = a * b ∧ a * b <= uint256_max.
Proof.
  unfold mul. destruct (a * b <=? uint256_max) eqn:E; [|discriminate].
  apply N.leb_le in E. intros [= <-]. done.
Qed.

Lemma div_ok a b c : div a b = Ok c → b ≠ 0 ∧ c = a / b.
Proof.
  unfold div. destruct (b =? 0) eqn:E; [discriminate|].
  apply N.eqb_neq in E. intros [= <-]. done.
Qed.

Lemma bind_ok {A B} (m : result A) (f : A → result B) b :
  mbind f m = Ok b → ∃ a, m = Ok a ∧ f a = Ok b.
Proof. destruct m; simpl; [eauto | discriminate | discriminate]. Qed.

(** Peel one monadic step off a successful run. *)
Ltac step H :=
  let x := fresh "x" in
  let Hx := fresh "H" x in
  apply bind_ok in H as (x & Hx & H).

Section Invariant.
Context {T : IERC20}.

Lemma within_provider_of (st : State) a :
  used_le_allocated st →
  provider_within (provider_of st a) ∧
  ∀ c cs, clientStorages (provider_of st a) !! c = Some cs → client_within cs.
Proof.
  intros Hinv. unfold provider_of.
  destruct (providers st !! a) as [p|] eqn:E; simpl.
  - exact (Hinv a p E).
  - split; [unfold provider_within; simpl; lia|].
    intros c cs. simpl. rewrite lookup_empty. discriminate.
Qed.

Lemma within_client_of (p : Provider) c :
  (∀ c' cs, clientStorages p !! c' = Some cs → client_within cs) →
  client_within (client_of p c).
Proof.
  intros H. unfold client_of.
  destruct (clientStorages p !! c) as [cs|] eqn:E; simpl; [eauto|].
  unfold client_within; simpl; lia.
Qed.

Lemma purchaseStorage_preserves this sender ts prov amt (st st' : State) evs :
  used_le_allocated st →
  purchaseStorage this sender ts prov amt st = Ok (st', evs) →
  used_le_allocated st'.
Proof.
  intros Hinv H. unfold purchaseStorage in H.
  destruct (within_provider_of st prov Hinv) as [Hp Hc].
  pose proof (within_client_of _ sender Hc) as Hcs.
  set (provider := provider_of st prov) in *.
  set (clientStorage := client_of provider sender) in *.
  step H. step H. step H. step H. step H. step H. step H. step H. step H.
  apply sub_ok in Hx0 as [Hle ->].
  apply require_ok, N.leb_le in Hx1.
  apply add_ok in Hx5 as ->. apply add_ok in Hx7 as ->.
  injection H as <- <-.
  intros a p. simpl. rewrite lookup_insert. case_decide as Ha.
  - intros [= <-]. split.
    + unfold provider_within in *; simpl. lia.
    + intros c cs. simpl. rewrite lookup_insert. case_decide.
      * intros [= <-]. unfold client_within in *; simpl. lia.
      * apply Hc.
  - apply Hinv.
Qed.

Lemma storeFile_preserves sender prov cid size (st st' : State) evs :
  used_le_allocated st →
  storeFile sender prov cid size st = Ok (st', evs) →
  used_le_allocated st'.
Proof.
  intros Hinv H. unfold storeFile in H.
  destruct (within_provider_of st prov Hinv) as [Hp Hc].
  set (provider := provider_of st prov) in *.
  set (clientStorage := client_of provider sender) in *.
  step H. step H. step H. step H.
  apply add_ok in Hx0 as ->. apply add_ok in Hx2 as ->.
  apply require_ok, N.leb_le in Hx1.
  injection H as <- <-.
  intros a p. simpl. rewrite lookup_insert. case_decide as Ha.
  - intros [= <-]. split; [exact Hp|].
    intros c cs. simpl. rewrite lookup_insert. case_decide.
    + intros [= <-]. unfold client_within; simpl. lia.
    + apply Hc.
  - apply Hinv.
Qed.

End Invariant.

Lemma one_provider_within : used_le_allocated one_provider.
Proof.
  intros a p. unfold one_provider; simpl.
  rewrite lookup_singleton. case_decide; [|discriminate].
  intros [= <-]. split; [unfold provider_within; simpl; lia|].
  intros c cs. simpl. rewrite lookup_empty. discriminate.
Qed.

(** C4: from a ledger state in which every record has used <= allocated,
    every successful [purchaseStorage] and every successful [storeFile]
    leads to a state in which every record still has used <= allocated; in
    particular the provider named in the call has
    [usedStorage <= allocatedStorage] and the calling client's record under
    it has [usedSpace <= allocatedSpace]. *)
Theorem C4_used_le_allocated_preserved {T : IERC20} (st : State) :
  used_le_allocated st →
  (∀ this sender ts prov amt st' evs,
      purchaseStorage this sender ts prov amt st = Ok (st', evs) →
      used_le_allocated st' ∧
      provider_within (provider_of st' prov) ∧
      client_within (client_of (provider_of st' prov) sender)) ∧
  (∀ sender prov cid size st' evs,
      storeFile sender prov cid size st = Ok (st', evs) →
      used_le_allocated st' ∧
      provider_within (provider_of st' prov) ∧
      client_within (client_of (provider_of st' prov) sender)).
Proof.
  intros Hinv. split.
  - intros this sender ts prov amt st' evs H.
    pose proof (purchaseStorage_preserves _ _ _ _ _ _ _ _ Hinv H) as Hinv'.
    destruct (within_provider_of st' prov Hinv') as [Hp Hc].
    split; [exact Hinv'|]. split; [exact Hp|].
    apply within_client_of, Hc.
  - intros sender prov cid size st' evs H.
    pose proof (storeFile_preserves _ _ _ _ _ _ _ Hinv H) as Hinv'.
    destruct (within_provider_of st' prov Hinv') as [Hp Hc].
    split; [exact Hinv'|]. split; [exact Hp|].
    apply within_client_of, Hc.
Qed.

(** Client 7 buys 2 units from provider 1, then stores a file of 1500
    milli-units: both calls succeed and the invariant holds afterwards. *)
Lemma C4_used_le_allocated_preserved_witness :
  ∃ st1 st2 evs1 evs2,
    purchaseStorage (T := open_token) 99 7 1700000000 1 2 one_provider = Ok (st1, evs1) ∧
    storeFile (T := open_token) 7 1 "QmFile" 1500 st1 = Ok (st2, evs2) ∧
    used_le_allocated st1 ∧ used_le_allocated st2 ∧
    getClientStorageDetails 1 7 st2 = (2, 1, 10, 1700000000) ∧
    getProviderDetails 1 st2 = (10, 2, 5, true).
Proof.
  do 4 eexists.
  split; [vm_compute; reflexivity|].
  split; [vm_compute; reflexivity|].
  assert (H1 : used_le_allocated (T := open_token)
                 (mkState (T := open_token) tt
                    (<[1 := mkProvider 1 10 2 5 true [7]
                             (<[7 := mkClientStorage 2 0 10 1700000000 [] ∅]> ∅)]>
                       {[ 1 := mkProvider 1 10 0 5 true [] ∅ ]}) ∅)).
  { apply (proj1 (C4_used_le_allocated_preserved one_provider one_provider_within)
             99 7 1700000000 1 2 _ [StoragePurchased 7 1 10]).
    reflexivity. }
  split; [exact H1|].
  split.
  - apply (proj2 (C4_used_le_allocated_preserved _ H1) 7 1 "QmFile" 1500 _
             [FileStored 7 1 "QmFile"]).
    reflexivity.
  - split; reflexivity.
Defined.

(** *** [getFileDetails] on unknown content addresses *)

Lemma getFileDetails_unknown {T : IERC20} (st : State) cid :
  provider_of_cid st cid = address0 →
  getFileDetails cid st = Revert "File not found".
Proof. intros H. unfold getFileDetails. rewrite H. reflexivity. Qed.

Lemma getFileDetails_returns {T : IERC20} (st : State) cid p o s :
  getFileDetails cid st = Ok (p, o, s) → p ≠ address0 ∧ o ≠ address0.
Proof.
  unfold getFileDetails. intros H.
  step H. step H.
  apply require_ok, negb_true_iff, N.eqb_neq in Hx.
  apply require_ok, negb_true_iff, N.eqb_neq in Hx0.
  injection H as <- <- <-. done.
Qed.

(** C5 (as the code has it): for every content address unknown to the
    ledger, [getFileDetails] reverts with "File not found": it does not
    return a zero-address owner.  Whenever it returns at all, the provider
    and the owner it returns are both different from [address(0)], so a
    caller never observes the zero-owner sentinel. *)
Theorem C5_getFileDetails_unknown_reverts {T : IERC20} (st : State) (cid : string) :
  (cidToProvider st !! cid = None →
     getFileDetails cid st = Revert "File not found") ∧
  (∀ p o s, getFileDetails cid st = Ok (p, o, s) → p ≠ address0 ∧ o ≠ address0).
Proof.
  split.
  - intros H. apply getFileDetails_unknown. unfold provider_of_cid. by rewrite H.
  - apply getFileDetails_returns.
Qed.

Lemma C5_getFileDetails_unknown_reverts_witness :
  getFileDetails "QmOther" one_file = Revert "File not found" ∧
  getFileDetails "QmFile" one_file = Ok (1, 7, 1500) ∧
  (1 ≠ address0 ∧ 7 ≠ address0).
Proof.
  split; [|split].
  - apply (proj1 (C5_getFileDetails_unknown_reverts one_file "QmOther")). reflexivity.
  - reflexivity.
  - apply (proj2 (C5_getFileDetails_unknown_reverts one_file "QmFile") 1 7 1500).
    reflexivity.
Defined.

(** On a ledger that has never stored anything, the query for a content
    address is a revert, not a record with a zero owner. *)
Lemma C5_unknown_cid_is_a_revert :
  getFileDetails "QmUnknown" (mkState (T := open_token) tt ∅ ∅) = Revert "File not found" ∧
  succeeded (getFileDetails "QmOther" one_file) = false.
Proof. split; reflexivity. Qed.

(** *** [distributeMiningRewards] *)

Lemma reward_scaling r : r * ether / 100 = r * 10 ^ 16.
Proof.
  unfold ether. replace (r * 10 ^ 18) with (r * 10 ^ 16 * 100) by lia.
  apply N.div_mul. lia.
Qed.

Lemma distributeMiningRewards_ok {T : IERC20} this sender (st st' : State) evs :
  distributeMiningRewards this sender st = Ok (st', evs) →
  let p := provider_of st sender in
  let reward := utilizationRate p * 10 ^ 16 in
  isActive p = true ∧ allocatedStorage p ≠ 0 ∧
  evs = [MiningReward sender reward] ∧
  erc20_transfer (aaiToken st) this sender reward = Ok (aaiToken st', true) ∧
  providers st' = providers st ∧ cidToProvider st' = cidToProvider st.
Proof.
  unfold distributeMiningRewards. intros H. simpl.
  step H. step H. step H. step H. step H. step H. step H.
  apply require_ok in Hx.
  apply mul_ok in Hx0 as [-> _]. apply div_ok in Hx1 as [Hne ->].
  apply mul_ok in Hx2 as [-> _]. apply div_ok in Hx3 as [_ ->].
  apply require_ok in Hx5.
  rewrite reward_scaling in *. fold (utilizationRate (provider_of st sender)) in *.
  injection H as <- <-. simpl.
  destruct x4 as [tok' flag]; simpl in *; subst flag. done.
Qed.

Lemma mul_in_range a b : a * b <= uint256_max → mul a b = Ok (a * b).
Proof. intros H. unfold mul. by apply N.leb_le in H as ->. Qed.

Lemma div_by_nonzero a b : b ≠ 0 → div a b = Ok (a / b).
Proof. intros H. unfold div. by apply N.eqb_neq in H as ->. Qed.




End LedgerFacts.

(** ** [downloadFile] *)

Module DownloadFacts.
Import JS Crypto Effects Download.
Local Open Scope list_scope.

Lemma bind_outcome_inr {A B} (m : Run A) (f : A → Run B) b :
  outcome (mbind f m) = inr b → ∃ a, outcome m = inr a ∧ outcome (f a) = inr b.
Proof.
  unfold mbind, Run_bind. destruct (outcome m) as [x|a]; simpl; [discriminate|eauto].
Qed.

Lemma bind_trace_in {A B} (m : Run A) (f : A → Run B) r :
  In r (trace (mbind f m)) →
  In r (trace m) ∨ ∃ a, outcome m = inr a ∧ In r (trace (f a)).
Proof.
  unfold mbind, Run_bind. destruct (outcome m) as [x|a]; simpl; [auto|].
  rewrite in_app_iff. intros [H|H]; eauto.
Qed.

Lemma expect_inr {A} (o : option A) a : outcome (expect o) = inr a → o = Some a.
Proof. destruct o; simpl; [congruence|discriminate]. Qed.

Lemma unless_inr stop f u : outcome (unless stop f) = inr u → stop = false.
Proof. destruct stop; simpl; [discriminate|done]. Qed.

Lemma expect_trace {A} (o : option A) : trace (expect o) = [].
Proof. by destruct o. Qed.

Lemma unless_trace stop f : trace (unless stop f) = [].
Proof. by destruct stop. Qed.

Section Facts.
Context {L : CryptoJS}.

Lemma resolve_privateKey_trace e : trace (resolve_privateKey e) = [].
Proof.
  unfold resolve_privateKey.
  repeat case_match; reflexivity.
Qed.

Lemma resolve_privateKey_inr e k :
  outcome (resolve_privateKey e) = inr k →
  (Keystore.loadPrivateKey (keystore e) = Some k ∧ truthy k = true)
  ∨ (prompted_key e = Some k ∧ truthy k = true ∧
     ∀ k', Keystore.loadPrivateKey (keystore e) = Some k' → truthy k' = false).
Proof.
  unfold resolve_privateKey.
  repeat case_match; simpl; intros [= <-] || discriminate; eauto.
  - right. split; [done|]. split; [done|]. congruence.
  - right. split; [done|]. split; [done|]. congruence.
Qed.

Lemma debugIPFSConnection_true e :
  outcome (debugIPFSConnection e) = inr true →
  is_Some (ipfs_isOnline e) ∧ is_Some (ipfs_version e) ∧ is_Some (ipfs_id e).
Proof.
  unfold debugIPFSConnection. repeat case_match; simpl; try discriminate; eauto.
Qed.

Lemma debugIPFSConnection_no_content e r :
  In r (trace (debugIPFSConnection e)) → touches_content r = false.
Proof.
  unfold debugIPFSConnection. repeat case_match; simpl; intuition (subst; reflexivity).
Qed.

Lemma resolve_privateKey_ok e k :
  (Keystore.loadPrivateKey (keystore e) = Some k ∧ truthy k = true)
  ∨ (prompted_key e = Some k ∧ truthy k = true ∧
     ∀ k', Keystore.loadPrivateKey (keystore e) = Some k' → truthy k' = false) →
  resolve_privateKey e = mret k.
Proof.
  unfold resolve_privateKey. intros [[-> ->]|(-> & Hk & Hno)]; [reflexivity|].
  destruct (Keystore.loadPrivateKey (keystore e)) as [k'|] eqn:E.
  - rewrite (Hno k' eq_refl), Hk. reflexivity.
  - rewrite Hk. reflexivity.
Qed.

(** A step whose trace cannot hold a request that touches content. *)
Ltac no_content H :=
  exfalso;
  first
    [ rewrite resolve_privateKey_trace in H; exact H
    | rewrite expect_trace in H; exact H
    | rewrite unless_trace in H; exact H
    | apply debugIPFSConnection_no_content in H; congruence
    | simpl in H; destruct H as [H|H]; [subst; discriminate | exact H] ].

Ltac peel H :=
  let a := fresh "a" in
  let Ha := fresh "H" a in
  apply bind_trace_in in H as [H | (a & Ha & H)]; [ no_content H | cbv beta in H ].

(** A request that touches content is only sent once the three ownership
    checks have passed. *)
Lemma content_only_after_checks e r :
  In r (trace (downloadFile e)) → touches_content r = true →
  passes_ownership_checks e.
Proof.
  intros H Hr. unfold downloadFile in H.
  peel H. peel H. peel H. peel H. peel H. peel H. peel H. peel H. peel H.
  peel H. peel H.
  apply bind_trace_in in H as [H | (a10 & Ha10 & H)].
  { exfalso. repeat case_match; simpl in H; exact H. }
  cbv beta in H.
  peel H. peel H. peel H. peel H. peel H.
  apply resolve_privateKey_inr in Ha.
  apply expect_inr in Ha1. apply expect_inr in Ha3.
  apply unless_inr in Ha5. apply unless_inr, negb_false_iff in Ha7.
  subst a6. apply debugIPFSConnection_true in Ha6.
  apply expect_inr in Ha9.
  apply unless_inr in Ha11. apply unless_inr in Ha12.
  apply expect_inr in Ha13. apply expect_inr in Ha14.
  apply unless_inr, negb_false_iff, String.eqb_eq in Ha15.
  destruct a9 as [|[|p [|o [|s [|]]]]]; simpl in Ha10; try discriminate.
  injection Ha10 as <-. simpl in *.
  destruct o as [|owner|]; simpl in Ha13; try discriminate.
  injection Ha13 as <-.
  destruct a1 as [caller|]; simpl in Ha14; [|discriminate].
  injection Ha14 as <-.
  exists caller, p, owner, s.
  destruct Ha6 as (? & ? & ?).
  unfold reaches_ownership_checks.
  repeat split; eauto.
  by destruct (dbCheck e).
Qed.

Ltac run_to_checks Hreach :=
  let k := fresh "k" in
  let Hk := fresh "Hk" in
  destruct Hreach as ((k & Hk) & Hacc & [? Hn] & Hdb & [? H1] & [? H2] & [? H3] & Hfd);
  apply resolve_privateKey_ok in Hk;
  unfold downloadFile, debugIPFSConnection, checked_trace;
  rewrite Hk, Hacc, Hn, Hfd, H1, H2, H3;
  destruct (dbCheck _); [| |contradiction].

Lemma owner_missing_NotFound e caller p o s :
  reaches_ownership_checks e caller p o s →
  missing_address o = true →
  downloadFile e = mkRun (checked_trace e caller) (inl NotFound).
Proof.
  intros Hreach Ho. run_to_checks Hreach; cbn -[missing_address toLowerCase String.eqb]; rewrite Ho; reflexivity.
Qed.

Lemma provider_missing_ProviderMismatch e caller p o s :
  reaches_ownership_checks e caller p o s →
  missing_address o = false → missing_address p = true →
  downloadFile e = mkRun (checked_trace e caller) (inl ProviderMismatch).
Proof.
  intros Hreach Ho Hp. run_to_checks Hreach; cbn -[missing_address toLowerCase String.eqb]; rewrite Ho, Hp; reflexivity.
Qed.

Lemma not_owner_PermissionDenied e caller p owner s :
  reaches_ownership_checks e caller p (Text owner) s →
  missing_address (Text owner) = false → missing_address p = false →
  toLowerCase owner ≠ toLowerCase caller →
  downloadFile e = mkRun (checked_trace e caller) (inl PermissionDenied).
Proof.
  intros Hreach Ho Hp Hne. apply String.eqb_neq in Hne.
  run_to_checks Hreach; cbn -[missing_address toLowerCase String.eqb];
    rewrite Ho, Hp; cbn -[missing_address toLowerCase String.eqb]; rewrite Hne; reflexivity.
Qed.

(** A ledger call that throws (a reverted [getFileDetails]) ends the run
    with an exception, before any content is requested. *)
Lemma reverted_call_is_thrown e caller k :
  resolve_privateKey e = mret k →
  accounts e = Some (Some caller) → is_Some (netId e) → dbCheck e ≠ Error →
  is_Some (ipfs_isOnline e) → is_Some (ipfs_version e) → is_Some (ipfs_id e) →
  fileDetails e = None →
  downloadFile e = mkRun (checked_trace e caller) (inl Thrown).
Proof.
  intros Hk Hacc [? Hn] Hdb [? H1] [? H2] [? H3] Hdet.
  unfold downloadFile, debugIPFSConnection, checked_trace.
  rewrite Hk, Hacc, Hn, H1, H2, H3, Hdet.
  destruct (dbCheck e); [| |contradiction]; reflexivity.
Qed.

Ltac ostep H :=
  let a := fresh "a" in
  let Ha := fresh "H" a in
  apply bind_outcome_inr in H as (a & Ha & H); cbv beta in H.

(** What a successful download has gone through: the three ownership
    checks, and a decryption, under the key derived from the caller's
    credential and the salt read from the index, of what the content store
    returned; the content saved is what that decryption returned. *)
Lemma downloadFile_saved e path content :
  outcome (downloadFile e) = inr (path, content) →
  passes_ownership_checks e ∧ path = outputPath e ∧ write_ok e = true ∧
  ∃ k caller encryptedContent salt size,
    resolve_privateKey e = mret k ∧ accounts e = Some (Some caller) ∧
    ipfs_cat e = Some encryptedContent ∧ fileData e = Data (salt, size) ∧
    truthy salt = true ∧
    decryptFile encryptedContent (download_key caller k salt) = Some content.
Proof.
  intros H. unfold downloadFile in H.
  do 27 ostep H.
  simpl in H. injection H as <- <-.
  apply resolve_privateKey_inr in Ha.
  pose proof (resolve_privateKey_ok _ _ Ha) as Hk.
  apply expect_inr in Ha1. apply expect_inr in Ha3.
  apply unless_inr in Ha5. apply unless_inr, negb_false_iff in Ha7.
  subst a6. apply debugIPFSConnection_true in Ha6 as (? & ? & ?).
  apply expect_inr in Ha9.
  apply unless_inr in Ha11. apply unless_inr in Ha12.
  apply expect_inr in Ha13. apply expect_inr in Ha14.
  apply unless_inr, negb_false_iff, String.eqb_eq in Ha15.
  apply expect_inr in Ha20. apply expect_inr in Ha23.
  apply unless_inr, negb_false_iff in Ha25.
  destruct a9 as [|[|p [|o [|s [|]]]]]; simpl in Ha10; try discriminate.
  injection Ha10 as <-. simpl in Ha11, Ha12, Ha13.
  destruct o as [|owner|]; simpl in Ha13; try discriminate.
  injection Ha13 as <-.
  destruct a1 as [caller|]; simpl in Ha14; [|discriminate].
  injection Ha14 as <-.
  destruct (fileData e) as [[salt size]| |] eqn:Hfd; simpl in Ha22; try discriminate.
  destruct (truthy salt) eqn:Hsalt; simpl in Ha22; [|discriminate].
  injection Ha22 as <-.
  split.
  { exists caller, p, owner, s. unfold reaches_ownership_checks.
    repeat split; eauto. by destruct (dbCheck e). }
  split; [done|]. split; [done|].
  exists a, caller, a20, salt, size. done.
Qed.

(** Conversely, once the checks pass and the index and the content store
    answer, the run is decided by what the cipher returns for the fetched
    bytes under the re-derived key: whatever it returns is written. *)
Lemma downloadFile_decrypts e k caller p owner s size0 encryptedContent salt size :
  resolve_privateKey e = mret k →
  reaches_ownership_checks e caller p (Text owner) s →
  missing_address (Text owner) = false → missing_address p = false →
  toLowerCase owner = toLowerCase caller →
  fileMetadata e = Data size0 →
  ipfs_cat e = Some encryptedContent →
  fileData e = Data (salt, size) → truthy salt = true →
  downloadFile e =
    match decryptFile encryptedContent (download_key caller k salt) with
    | Some content =>
        mkRun (checked_trace e caller ++ fetch_trace e ++
               [DiskWriteFile (outputPath e) content])
              (if write_ok e then inr (outputPath e, content) else inl Thrown)
    | None => mkRun (checked_trace e caller ++ fetch_trace e) (inl Thrown)
    end.
Proof.
  intros Hkey Hreach Ho Hp Heq Hmeta Hcat Hfd Hsalt.
  apply String.eqb_eq in Heq.
  destruct Hreach as (_ & Hacc & [? Hn] & Hdb & [? H1] & [? H2] & [? H3] & Hdet).
  unfold downloadFile, debugIPFSConnection, checked_trace, fetch_trace.
  rewrite Hkey, Hacc, Hn, Hdet, H1, H2, H3, Hmeta, Hcat, Hfd.
  destruct (dbCheck e); [| |contradiction];
    cbn -[missing_address toLowerCase String.eqb decryptFile download_key];
    rewrite Ho, Hp; cbn -[missing_address toLowerCase String.eqb decryptFile download_key];
    rewrite Heq, Hsalt; cbn -[missing_address toLowerCase String.eqb decryptFile download_key];
    destruct (decryptFile _ _); cbn; destruct (write_ok e); reflexivity.
Qed.

End Facts.

(** A run in which the reply to the ledger query does not name the caller
    as owner stops at the ownership checks at the latest: it has sent an
    initial part of the wallet and index queries, the probe of the content
    store and the ledger query, all of them when it got that far, and it
    does not end as saved. *)
Lemma not_named_stops {L : CryptoJS} (e : Env) :
  ¬ names_caller_as_owner e →
  trace (downloadFile e)
  `prefix_of` [RpcGetAccounts; RpcNetId; IndexSelectFile (cid_entered e) "*";
               IpfsIsOnline; IpfsVersion; IpfsId;
               LedgerGetFileDetails (cid_entered e) (default None (accounts e))] ∧
  (∀ saved, outcome (downloadFile e) ≠ inr saved) ∧
  (∀ caller, reaches_ledger_query e caller →
             trace (downloadFile e) = checked_trace e caller).
Proof.
  intros Hno.
  assert (Hkey : ∀ caller, reaches_ledger_query e caller →
                           ∃ k, resolve_privateKey e = mret k).
  { intros caller ((k & Hk) & _). exists k. by apply resolve_privateKey_ok. }
  unfold downloadFile, checked_trace.
  pose proof (resolve_privateKey_trace e) as Htr.
  destruct (resolve_privateKey e) as [tr [f|k]] eqn:Hres; simpl in Htr; subst tr.
  { split; [simpl; by eexists|]. split; [intros saved; simpl; discriminate|].
    intros caller Hreach. destruct (Hkey caller Hreach) as [k' Hk']. discriminate. }
  clear Hkey.
  unfold mbind at 1, Run_bind at 1. cbn [outcome trace app].
  destruct (accounts e) as [walletAddress|] eqn:Hacc.
  2:{ split; [simpl; by eexists|]. split; [intros saved; simpl; discriminate|].
      intros caller (_ & Hacc' & _). congruence. }
  destruct (netId e) as [net|] eqn:Hnet.
  2:{ split; [simpl; by eexists|]. split; [intros saved; simpl; discriminate|].
      intros caller (_ & _ & [? Hn] & _). congruence. }
  destruct (dbCheck e) as [row| |] eqn:Hdb.
  3:{ split; [simpl; by eexists|]. split; [intros saved; simpl; discriminate|].
      intros caller (_ & _ & _ & Hdb' & _). done. }
  all: unfold debugIPFSConnection.
  all: destruct (ipfs_isOnline e) as [online|] eqn:Honline.
  2,4:(split; [simpl; by eexists|]; split; [intros saved; simpl; discriminate|];
       intros caller (_ & _ & _ & _ & [? Ho] & _); congruence).
  all: destruct (ipfs_version e) as [version|] eqn:Hversion.
  2,4:(split; [simpl; by eexists|]; split; [intros saved; simpl; discriminate|];
       intros caller (_ & _ & _ & _ & _ & [? Hv] & _); congruence).
  all: destruct (ipfs_id e) as [peer|] eqn:Hpeer.
  2,4:(split; [simpl; by eexists|]; split; [intros saved; simpl; discriminate|];
       intros caller (_ & _ & _ & _ & _ & _ & [? Hi]); congruence).
  all: assert (Hwallet : ∀ caller, reaches_ledger_query e caller →
                                   walletAddress = Some caller)
         by (intros caller (_ & Hacc' & _); congruence).
  all: destruct (fileDetails e) as [[|[|p [|o [|fileSize [|? ?]]]]]|] eqn:Hdet.
  all: try (split; [simpl; by eexists|]; split; [intros saved; simpl; discriminate|];
            intros caller Hreach; rewrite (Hwallet caller Hreach); reflexivity).
  all: cbn -[missing_address value_toLowerCase toLowerCase String.eqb decryptFile
             download_key].
  all: destruct (missing_address o).
  all: try (split; [simpl; by eexists|]; split; [intros saved; simpl; discriminate|];
            intros caller Hreach; rewrite (Hwallet caller Hreach); reflexivity).
  all: cbn -[missing_address value_toLowerCase toLowerCase String.eqb decryptFile
             download_key].
  all: destruct (missing_address p).
  all: try (split; [simpl; by eexists|]; split; [intros saved; simpl; discriminate|];
            intros caller Hreach; rewrite (Hwallet caller Hreach); reflexivity).
  all: cbn -[missing_address value_toLowerCase toLowerCase String.eqb decryptFile
             download_key].
  all: destruct o as [|owner|]; cbn [value_toLowerCase expect].
  all: try (split; [simpl; by eexists|]; split; [intros saved; simpl; discriminate|];
            intros caller Hreach; rewrite (Hwallet caller Hreach); reflexivity).
  all: destruct walletAddress as [caller0|]; cbn [fmap option_fmap option_map expect].
  all: try (split; [simpl; by eexists|]; split; [intros saved; simpl; discriminate|];
            intros caller Hreach; rewrite (Hwallet caller Hreach); reflexivity).
  all: cbn -[missing_address value_toLowerCase toLowerCase String.eqb decryptFile
             download_key].
  all: destruct (String.eqb_spec (toLowerCase owner) (toLowerCase caller0)) as [Heq|Hne].
  all: try (exfalso; apply Hno; exists caller0, p, owner, fileSize; done).
  all: split; [simpl; by eexists|]; split; [intros saved; simpl; discriminate|];
       intros caller Hreach; rewrite (Hwallet caller Hreach); reflexivity.
Qed.

Lemma answered_env_reaches {L : CryptoJS} caller :
  reaches_ledger_query (answered_env caller) caller.
Proof.
  unfold reaches_ledger_query, answered_env, sample_env; simpl.
  split.
  - eexists. right. split; [reflexivity|]. split; [reflexivity|]. discriminate.
  - repeat split; eauto.
Qed.

Lemma answered_env_not_named caller : ¬ names_caller_as_owner (answered_env caller).
Proof. intros (c & p & o & s & _ & Hdet & _). discriminate. Qed.

(** C3, where the code departs from it: whatever triple the ledger returns
    (a missing owner, a missing provider, another owner, or the caller as
    owner), the call resolves under web3 1.9.0 to an object, which the
    guard [!Array.isArray(fileDetails)] takes for no answer: a run that
    gets as far as the ledger query ends with 'File not found or invalid
    file details', having sent the wallet and index queries, the probe of
    the content store and the ledger query, and none of the three
    ownership checks is reached. *)
Theorem C3_answered_query_ends_as_invalid_details {L : CryptoJS} (e : Env)
    (caller providerAddress ownerAddress : string) (fileSize : N) :
  reaches_ledger_query e caller →
  fileDetails e = Some (web3_decoded providerAddress ownerAddress fileSize) →
  downloadFile e = mkRun (checked_trace e caller) (inl InvalidFileDetails).
Proof.
  intros ((k & Hk) & Hacc & [? Hn] & Hdb & [? H1] & [? H2] & [? H3]) Hdet.
  apply resolve_privateKey_ok in Hk.
  unfold downloadFile, debugIPFSConnection, checked_trace, web3_decoded in *.
  rewrite Hk, Hacc, Hn, Hdet, H1, H2, H3.
  destruct (dbCheck e); [| |contradiction]; reflexivity.
Qed.

(** A stranger and the owner ask for the owner's file: both runs end the
    same way. *)
Lemma C3_answered_query_ends_as_invalid_details_witness :
  downloadFile (L := cleartext) (answered_env sample_stranger)
  = mkRun [RpcGetAccounts; RpcNetId; IndexSelectFile "QmFile" "*";
           IpfsIsOnline; IpfsVersion; IpfsId;
           LedgerGetFileDetails "QmFile" (Some sample_stranger)]
          (inl InvalidFileDetails) ∧
  outcome (downloadFile (L := cleartext) (answered_env sample_owner))
  = inl InvalidFileDetails.
Proof.
  split.
  - apply (C3_answered_query_ends_as_invalid_details (L := cleartext)
             (answered_env sample_stranger) sample_stranger
             sample_provider sample_owner 1500 (answered_env_reaches _) eq_refl).
  - rewrite (C3_answered_query_ends_as_invalid_details (L := cleartext)
               (answered_env sample_owner) sample_owner
               sample_provider sample_owner 1500 (answered_env_reaches _) eq_refl).
    reflexivity.
Defined.

(** A stranger asks for the owner's file: before the run is turned down,
    the content store has been asked whether it is online, for its version
    and for its identity. *)
Lemma C6_store_is_probed_before_the_rejection :
  trace (downloadFile (L := cleartext) (answered_env sample_stranger))
  = [RpcGetAccounts; RpcNetId; IndexSelectFile "QmFile" "*";
     IpfsIsOnline; IpfsVersion; IpfsId;
     LedgerGetFileDetails "QmFile" (Some sample_stranger)] ∧
  filter (fun r => is_content_store_request r = true)
    (trace (downloadFile (L := cleartext) (answered_env sample_stranger)))
  = [IpfsIsOnline; IpfsVersion; IpfsId] ∧
  (∃ f, outcome (downloadFile (L := cleartext) (answered_env sample_stranger)) = inl f).
Proof. split; [|split]; [vm_compute; reflexivity..|]. eexists. vm_compute. reflexivity. Qed.

(** C6 (as the code has it): when the reply to the ledger query, as the
    CLI receives it, does not name the caller as owner up to letter case
    (so in every run of a caller that is not the owner on the ledger), no
    request that fetches content from the content store or writes the
    output file is sent at any point of the run and the run does not end
    as saved.  The content store is queried all the same: a run that gets
    as far as the ledger query has sent exactly the wallet and index
    queries, the probe of the content store (online, version, identity)
    and the ledger query, in this order, and the probe is all the content
    store is asked. *)
Theorem C6_no_content_fetch_for_a_stranger {L : CryptoJS} (e : Env) :
  ¬ names_caller_as_owner e →
  (∀ r, In r (trace (downloadFile e)) → touches_content r = false) ∧
  (∀ saved, outcome (downloadFile e) ≠ inr saved) ∧
  trace (downloadFile e)
  `prefix_of` [RpcGetAccounts; RpcNetId; IndexSelectFile (cid_entered e) "*";
               IpfsIsOnline; IpfsVersion; IpfsId;
               LedgerGetFileDetails (cid_entered e) (default None (accounts e))] ∧
  (∀ caller, reaches_ledger_query e caller →
     trace (downloadFile e) = checked_trace e caller ∧
     filter (fun r => is_content_store_request r = true) (trace (downloadFile e))
     = [IpfsIsOnline; IpfsVersion; IpfsId]).
Proof.
  intros Hno. destruct (not_named_stops e Hno) as (Hprefix & Hnot & Hall).
  split; [|split; [exact Hnot|split; [exact Hprefix|]]].
  - intros r Hin. destruct (touches_content r) eqn:Hr; [|done].
    exfalso. apply Hno.
    destruct (content_only_after_checks _ _ Hin Hr)
      as (caller & p & owner & s & Hreach & _ & _ & Heq).
    destruct Hreach as (_ & Hacc & _ & _ & _ & _ & _ & Hdet).
    by exists caller, p, owner, s.
  - intros caller Hreach. rewrite (Hall caller Hreach). split; reflexivity.
Qed.

Lemma C6_no_content_fetch_for_a_stranger_witness :
  (∀ r, In r (trace (downloadFile (L := cleartext) (answered_env sample_stranger))) →
        touches_content r = false) ∧
  filter (fun r => is_content_store_request r = true)
    (trace (downloadFile (L := cleartext) (answered_env sample_stranger)))
  = [IpfsIsOnline; IpfsVersion; IpfsId].
Proof.
  destruct (C6_no_content_fetch_for_a_stranger (L := cleartext)
              (answered_env sample_stranger) (answered_env_not_named _))
    as (Hno & _ & _ & Hrun).
  split; [exact Hno|].
  exact (proj2 (Hrun sample_stranger (answered_env_reaches _))).
Defined.

End DownloadFacts.

(** ** What the upload stores *)

Module RoundtripFacts.
Import JS Crypto Effects Client Download Roundtrip.
Local Open Scope list_scope.

(** The upload depends on the file only through its text decoding and its
    length. *)
Lemma upload_depends_on_text {L : CryptoJS} u file file' :
  Buffer_toString file' = Buffer_toString file →
  length file' = length file →
  startClient_upload (with_file u file') = startClient_upload (with_file u file).
Proof.
  intros Htext Hlen. unfold startClient_upload, encryptFile, with_file; simpl.
  rewrite Htext, Hlen. reflexivity.
Qed.

(** C1, where the code departs from it: [startClient] encrypts
    [file.toString()], the UTF-8 decoding of the file, in which the byte
    FF, like the byte FE, becomes U+FFFD (the bytes EF BF BD).  So the
    one-byte files FF and FE are uploaded as the same text: under every
    cipher, every wallet and every answer of the other systems the two
    uploads send the same requests and end the same way, and nothing that
    is done with what was stored can give back both files.  With a cipher
    that leaves data in the clear, what the content store receives for the
    file FF is the text EF BF BD. *)
Theorem C1_upload_loses_bytes :
  Buffer_from (Buffer_toString [255%N]) = [239%N; 191%N; 189%N] ∧
  Buffer_toString [254%N] = Buffer_toString [255%N] ∧
  (∀ (L : CryptoJS) (u : Upload),
     startClient_upload (with_file u [255%N]) = startClient_upload (with_file u [254%N])) ∧
  startClient_upload (L := cleartext) (with_file sample_upload [255%N])
  = ([IpfsAdd (string_of_bytes [239%N; 191%N; 189%N]);
      IndexInsertFile
        (mkStoredFile ("Qm" ++ string_of_bytes [239%N; 191%N; 189%N])%string "a1b2c3d4"
           sample_owner (fileSizeGB 1) "report.pdf" "000102030405060708090a0b0c0d0e0f");
      LedgerStoreFile sample_provider
        ("Qm" ++ string_of_bytes [239%N; 191%N; 189%N])%string 1 sample_owner],
     Uploaded ("Qm" ++ string_of_bytes [239%N; 191%N; 189%N])%string).
Proof.
  split; [vm_compute; reflexivity|]. split; [vm_compute; reflexivity|]. split.
  - intros L u. apply upload_depends_on_text; reflexivity.
  - vm_compute. reflexivity.
Qed.

End RoundtripFacts.

(** ** Size accounting between the client and the ledger *)

Module SizeFacts.
Import JS Client Solidity Ledger LedgerFacts.
Local Open Scope N_scope.

Lemma ceil_div_Z (n d : Z) :
  (0 < d)%Z → Qceiling (inject_Z n / inject_Z d) = ((n + d - 1) / d)%Z.
Proof.
  intros Hd. unfold Qceiling.
  assert (Hopp : (- (inject_Z n / inject_Z d) == inject_Z (- n) / inject_Z d)%Q).
  { rewrite inject_Z_opp. unfold Qdiv. ring. }
  rewrite (Qfloor_comp _ _ Hopp), <- Zdiv_Qdiv.
  apply Z.div_unique with (r := (d - 1 - (- n) mod d)%Z).
  - left. pose proof (Z.mod_pos_bound (- n) d Hd). lia.
  - pose proof (Z.div_mod (- n) d ltac:(lia)). lia.
Qed.

Lemma Math_ceil_div_1000 n : Math_ceil_div n 1000 = (n + 999) / 1000.
Proof.
  unfold Math_ceil_div. change (Z.of_N 1000) with 1000%Z.
  rewrite ceil_div_Z by lia.
  replace (Z.of_N n + 1000 - 1)%Z with (Z.of_N (n + 999)) by lia.
  change 1000%Z with (Z.of_N 1000). rewrite <- N2Z.inj_div. apply N2Z.id.
Qed.

(** The value the client submits: thousandths of the byte count, rounded
    up, and at least 1. *)
Lemma fileSizeWei_spec n :
  fileSizeWei n = N.max ((n + 999) / 1000) 1 ∧ 1 <= fileSizeWei n.
Proof. unfold fileSizeWei. rewrite Math_ceil_div_1000. lia. Qed.

(** The ledger's conversion: the thousands of the submitted value, and 1
    instead of 0 when the value is not 0. *)
Lemma storeFile_fileSizeGB_spec m :
  m * 10 ^ 9 <= uint256_max →
  storeFile_fileSizeGB m
  = Ok (if (m / 1000 =? 0) && (0 <? m) then 1 else m / 1000).
Proof.
  intros Hm. unfold storeFile_fileSizeGB.
  rewrite (mul_in_range _ _ Hm). cbn [mbind result_bind].
  rewrite div_by_nonzero by (vm_compute; discriminate). cbn [mbind result_bind].
  replace (m * 10 ^ 9 / (1000 * 10 ^ 9)) with (m / 1000); [reflexivity|].
  symmetry. apply N.Div0.div_mul_cancel_r. vm_compute; discriminate.
Qed.

(** Together: what the ledger charges for a file of [n] bytes is the number
    of millions of bytes in it (thousands of thousandths), and at least 1. *)
Lemma units_charged n :
  n < 2 ^ 53 →
  storeFile_fileSizeGB (fileSizeWei n) = Ok (N.max (fileSizeWei n / 1000) 1).
Proof.
  intros Hn. destruct (fileSizeWei_spec n) as [Hw H1].
  change (2 ^ 53) with 9007199254740992 in Hn.
  assert (Hle : fileSizeWei n <= 2 ^ 53).
  { rewrite Hw. change (2 ^ 53) with 9007199254740992.
    apply N.max_lub; [|lia]. apply N.Div0.div_le_upper_bound. lia. }
  rewrite storeFile_fileSizeGB_spec.
  - f_equal. clear Hle Hw.
    set (q := fileSizeWei n / 1000). set (w := fileSizeWei n) in *. clearbody q w.
    destruct (N.eqb_spec q 0); destruct (N.ltb_spec 0 w); cbn [andb]; lia.
  - unfold uint256_max.
    assert (2 ^ 53 * 10 ^ 9 <= 2 ^ 256 - 1) by (vm_compute; discriminate).
    assert (fileSizeWei n * 10 ^ 9 <= 2 ^ 53 * 10 ^ 9)
      by (apply N.mul_le_mono_r; exact Hle).
    lia.
Qed.

(** C2, at a file of 5,000,000 bytes uploaded by a client that bought 2
    units: the prompt accepts the file (its size in GB is below 2), the
    client submits 5000, the ledger converts 5000 to 5 units and rejects
    the registration; a submitted value of 5 (the size in thousandths of
    a GB) is converted to 1 unit and accepted. *)
Lemma C2_megabytes_are_charged_as_units :
  purchaseStorage 99 7 1700000000 1 2 one_provider
  = Ok (two_units_bought, [StoragePurchased 7 1 10]) ∧
  filePath_accepted 5000000 (2 # 1) = true ∧
  fileSizeWei 5000000 = 5000 ∧
  storeFile_fileSizeGB 5000 = Ok 5 ∧
  storeFile 7 1 "QmFile" (fileSizeWei 5000000) two_units_bought
  = Revert "Insufficient storage purchased" ∧
  storeFile_fileSizeGB 5 = Ok 1 ∧
  succeeded (storeFile 7 1 "QmFile" 5 two_units_bought) = true.
Proof. repeat split; vm_compute; reflexivity. Qed.

End SizeFacts.

(** ** The credential store *)

Module KeystoreFacts.
Import JS Crypto Keystore.

Lemma string_of_bytes_of_string s : string_of_bytes (bytes_of_string s) = s.
Proof.
  unfold string_of_bytes, bytes_of_string.
  rewrite map_map.
  rewrite (map_ext _ (fun a => a)) by apply ascii_N_embedding.
  rewrite map_id. apply string_of_list_ascii_of_string.
Qed.

(** The stand-in honours the contract of the passphrase mode. *)
Lemma cleartext_roundtrip : passphrase_roundtrip cleartext.
Proof.
  intros message passphrase entropy cp [= <-]. simpl.
  eexists. split; [reflexivity|]. by rewrite string_of_bytes_of_string.
Qed.

(** A save that goes through: the encryption call returns and the file is
    written; the key is then read back. *)
Lemma saved_key_is_loaded {L : CryptoJS} key entropy fs :
  passphrase_roundtrip L →
  is_Some (AES_encrypt (Str key) (Str ENCRYPTION_KEY) no_cfg entropy) →
  write_outcome fs = WriteCompletes →
  readable fs = true →
  ∃ fs', savePrivateKey key entropy fs = (fs', true) ∧ loadPrivateKey fs' = Some key.
Proof.
  intros Hlaw [cp Hcp] Hwrite Hread. unfold savePrivateKey. rewrite Hcp, Hwrite.
  eexists. split; [reflexivity|].
  unfold loadPrivateKey, with_content; simpl. rewrite Hread.
  destruct (Hlaw _ _ _ _ Hcp) as (decrypted & -> & ->). reflexivity.
Qed.

(** C9: with a cipher that honours the contract of the passphrase mode
    (what [AES.encrypt(message, passphrase).toString()] produced decrypts
    with the same passphrase to the message), for every string [key] that
    the encryption call accepts, [savePrivateKey(key)] on a keystore file
    that can be written and read returns [true], and [loadPrivateKey]
    after it returns exactly [key]; more generally [loadPrivateKey] after
    any [savePrivateKey(key)] that returned [true] returns [key]: both use
    the fixed passphrase and the file holds what was written; and
    [loadPrivateKey] returns [null] when there is no keystore file. *)
Theorem C9_load_returns_the_saved_key {L : CryptoJS} :
  passphrase_roundtrip L →
  (∀ key entropy fs,
     is_Some (AES_encrypt (Str key) (Str ENCRYPTION_KEY) no_cfg entropy) →
     write_outcome fs = WriteCompletes →
     readable fs = true →
     ∃ fs', savePrivateKey key entropy fs = (fs', true) ∧
            loadPrivateKey fs' = Some key) ∧
  (∀ key entropy fs fs',
     savePrivateKey key entropy fs = (fs', true) →
     readable fs = true →
     loadPrivateKey fs' = Some key) ∧
  (∀ fs, keystore_file fs = None → loadPrivateKey fs = None).
Proof.
  intros Hlaw. split; [|split].
  - intros key entropy fs. by apply saved_key_is_loaded.
  - intros key entropy fs fs' Hsave Hread. unfold savePrivateKey in Hsave.
    destruct (AES_encrypt (Str key) (Str ENCRYPTION_KEY) no_cfg entropy)
      as [cp|] eqn:Hcp; [|discriminate].
    destruct (write_outcome fs); [|discriminate..].
    injection Hsave as <-. unfold loadPrivateKey, with_content; simpl. rewrite Hread.
    destruct (Hlaw _ _ _ _ Hcp) as (decrypted & -> & ->). reflexivity.
  - intros fs Hnone. unfold loadPrivateKey. by rewrite Hnone.
Qed.

Lemma C9_load_returns_the_saved_key_witness :
  (∃ fs',
     savePrivateKey (L := cleartext)
       "4c0883a69102937d6231471b5dbb6204fe5129617082792ae468d01a3f362318"
       [] (mkFiles None true WriteCompletes true) = (fs', true) ∧
     loadPrivateKey (L := cleartext) fs'
     = Some "4c0883a69102937d6231471b5dbb6204fe5129617082792ae468d01a3f362318") ∧
  loadPrivateKey (L := cleartext) (mkFiles None true WriteCompletes true) = None.
Proof.
  split.
  - apply (proj1 (C9_load_returns_the_saved_key (L := cleartext) cleartext_roundtrip)
             _ [] (mkFiles None true WriteCompletes true)).
    + by eexists.
    + reflexivity.
    + reflexivity.
  - apply (proj2 (proj2 (C9_load_returns_the_saved_key (L := cleartext)
                           cleartext_roundtrip))).
    reflexivity.
Defined.

End KeystoreFacts.

(** ** The metadata index *)

Module IndexFacts.
Import JS Index.
Local Open Scope list_scope.
Local Open Scope Z_scope.

#[local] Instance newer_first_total : Total newer_first.
Proof. intros r1 r2. unfold newer_first. lia. Qed.

#[local] Instance newer_first_trans : Transitive newer_first.
Proof. intros r1 r2 r3. unfold newer_first. lia. Qed.

Lemma StronglySorted_filter {A} (R : relation A) (P : A → Prop)
    `{∀ x, Decision (P x)} (l : list A) :
  StronglySorted R l → StronglySorted R (filter P l).
Proof.
  induction 1 as [|x l Hl IH Hx]; [constructor|].
  rewrite filter_cons. case_decide; [|exact IH].
  constructor; [exact IH|].
  rewrite Forall_forall in Hx |- *. intros y Hy.
  apply list_elem_of_filter in Hy as [_ Hy]. by apply Hx.
Qed.

(** What the server filters: activity and freshness only. *)
Lemma select_active_spec now rows :
  select_active now rows
  ≡ₚ filter (fun r => (eq_is_active r && gte_last_updated (now - 5 * 60 * 1000) r) = true)
            rows
  ∧ StronglySorted newer_first (select_active now rows).
Proof.
  unfold select_active. split.
  - apply merge_sort_Permutation.
  - apply StronglySorted_merge_sort; apply _.
Qed.

Lemma returned_iff now r :
  returned now r ↔
  valid_provider r = true ∧
  (eq_is_active r && gte_last_updated (now - 5 * 60 * 1000) r) = true.
Proof.
  unfold returned, listed_conditions, valid_provider.
  destruct (eq_is_active r), (gte_last_updated _ r), (positive (allocated_storage r)),
    (positive (available_storage r)), (positive (price_per_gb r)),
    (truthy (wallet_address r)); simpl; intuition congruence.
Qed.

(** A row with an empty wallet address meets the five listed conditions
    and is not returned; a row with no storage left fails them and is
    still part of what the server sends back: that condition is applied
    by the CLI on the rows received. *)
Lemma C8_filtering_is_split_and_stricter :
  listed_conditions sample_now row_without_wallet = true ∧
  getActiveProviders sample_now (Some [row_without_wallet]) = Some [] ∧
  listed_conditions sample_now row_without_space = false ∧
  select_active sample_now [row_without_space; row_complete]
  = [row_complete; row_without_space] ∧
  getActiveProviders sample_now (Some [row_without_space; row_complete])
  = Some [row_complete].
Proof. repeat split; vm_compute; reflexivity. Qed.

(** C8 (as the code has it): [getActiveProviders] returns the rows that
    are active, refreshed within the last five minutes, with allocated,
    available storage and price above zero and with a wallet address that
    is not empty, each as often as the table holds it, newest first.  The
    server applies the activity and freshness conditions and the order;
    the other conditions are applied by the CLI to the rows the server
    returned.  A failed query makes the function throw. *)
Theorem C8_getActiveProviders_returns (now : Z) (rows : list ProviderRow) :
  ∃ result,
    getActiveProviders now (Some rows) = Some result ∧
    result ≡ₚ filter (returned now) rows ∧
    StronglySorted newer_first result ∧
    (∀ r, r ∈ result ↔
          r ∈ rows ∧ listed_conditions now r = true ∧ wallet_address r ≠ EmptyString) ∧
    result = filter (fun r => valid_provider r = true) (select_active now rows) ∧
    select_active now rows
    ≡ₚ filter (fun r => (eq_is_active r && gte_last_updated (now - 5 * 60 * 1000) r) = true)
              rows ∧
    getActiveProviders now None = None.
Proof.
  eexists. split; [reflexivity|].
  destruct (select_active_spec now rows) as [Hperm Hsorted].
  assert (Hres : filter (fun r => valid_provider r = true) (select_active now rows)
                 ≡ₚ filter (returned now) rows).
  { rewrite Hperm, list_filter_filter. apply reflexive_eq, list_filter_iff.
    intros r. symmetry. apply returned_iff. }
  split; [exact Hres|]. split; [by apply StronglySorted_filter|].
  split; [|done].
  intros r. rewrite Hres, list_elem_of_filter. unfold returned.
  rewrite andb_true_iff. destruct (wallet_address r); simpl; intuition congruence.
Qed.

(** The rows [getActiveProviders] returns, as a set. *)
Lemma getActiveProviders_elem now rows r :
  r ∈ default [] (getActiveProviders now (Some rows)) ↔ r ∈ rows ∧ returned now r.
Proof.
  simpl. destruct (select_active_spec now rows) as [Hperm _].
  rewrite Hperm, list_filter_filter, list_elem_of_filter.
  rewrite returned_iff. tauto.
Qed.

End IndexFacts.

(** ** Provider registration *)

Module ProviderFacts.
Import JS Index Provider Solidity.
Local Open Scope list_scope.
Local Open Scope Z_scope.

Lemma createProvider_created now id address storage price total available table table' :
  createProvider now id address storage price total available table = inl table' →
  (∀ r, r ∈ table → provider_id r ≠ id) ∧
  table' = table ++ [mkProviderRow id address storage price (Some true)
                                   total available (Some now)].
Proof.
  unfold createProvider.
  destruct (existsb (fun r => String.eqb (provider_id r) id) table) eqn:Hid;
    [discriminate|].
  destruct (existsb (fun r => String.eqb (wallet_address r) address) table);
    [discriminate|].
  intros [= <-]. split; [|reflexivity].
  intros r Hr Heq. apply list_elem_of_In in Hr.
  assert (existsb (fun r => String.eqb (provider_id r) id) table = true).
  { apply existsb_exists. exists r. split; [done|]. by apply String.eqb_eq. }
  congruence.
Qed.

Lemma createProvider_conflict now id address storage price total available table :
  createProvider now id address storage price total available table = inr "providers_pkey" →
  ∃ r, r ∈ table ∧ provider_id r = id.
Proof.
  unfold createProvider.
  destruct (existsb (fun r => String.eqb (provider_id r) id) table) eqn:Hid.
  - intros _. apply existsb_exists in Hid as (r & Hr & Heq).
    exists r. split; [by apply list_elem_of_In|]. by apply String.eqb_eq.
  - destruct (existsb (fun r => String.eqb (wallet_address r) address) table);
      discriminate.
Qed.

Lemma updateProviderStorage_allocated now id allocated available table r :
  r ∈ updateProviderStorage now id (Some allocated) (Some available) None None table →
  provider_id r = id → allocated_storage r = allocated.
Proof.
  unfold updateProviderStorage. intros Hr Hid.
  apply list_elem_of_fmap in Hr as (r0 & -> & _).
  destruct (String.eqb (provider_id r0) id) eqn:E; simpl in *; [reflexivity|].
  apply String.eqb_neq in E. congruence.
Qed.

Lemma updateProviderStorage_keeps_id now id allocated available price active table r :
  r ∈ table → provider_id r = id →
  ∃ r', r' ∈ updateProviderStorage now id allocated available price active table ∧
        provider_id r' = id.
Proof.
  intros Hr Hid. unfold updateProviderStorage.
  eexists. split; [apply list_elem_of_fmap; exists r; split; [reflexivity|exact Hr]|].
  apply String.eqb_eq in Hid. rewrite Hid. simpl. by apply String.eqb_eq.
Qed.

Section Facts.
Context {T : Ledger.IERC20}.

Lemma registerProvider_registers sender storage price (st st' : Ledger.State) evs :
  Ledger.registerProvider sender storage price st = Ok (st', evs) →
  (0 < storage)%N ∧
  Ledger.allocatedStorage (Ledger.provider_of st' sender) = storage.
Proof.
  unfold Ledger.registerProvider.
  destruct (N.ltb_spec 0 storage); [|discriminate].
  destruct (N.ltb_spec 0 price); [|discriminate].
  cbn [require mbind result_bind]. intros [= <- <-].
  split; [done|].
  unfold Ledger.provider_of, Ledger.set_provider; simpl.
  by rewrite lookup_insert_eq.
Qed.

Lemma registerProvider_zero sender price (st : Ledger.State) :
  Ledger.registerProvider sender 0 price st = Revert "Storage must be greater than 0".
Proof. reflexivity. Qed.

(** A failed disk query ends the registration before anything is written. *)
Lemma startProvider_register_without_disk now requested wallet walletAddress providerId (w : World) :
  startProvider_register now requested None wallet walletAddress providerId w
  = (w, RegistrationFailed).
Proof.
  unfold startProvider_register. simpl.
  destruct requested as [r|]; simpl; [|reflexivity].
  destruct (Z.min_spec r 0) as [[Hlt ->]|[Hle ->]].
  - destruct (Z.leb_spec 0 r); [lia|]. reflexivity.
  - reflexivity.
Qed.

Lemma startProvider_register_registered now requested stdout wallet walletAddress providerId
    (w w' : World) :
  startProvider_register now requested stdout wallet walletAddress providerId w = (w', Registered) →
  ∃ r available,
    requested = Some r ∧ checkAvailableStorage stdout = Some available ∧
    0 < Z.min r available ∧
    Ledger.allocatedStorage (Ledger.provider_of (ledger w') wallet)
    = (Z.to_N (Z.min r available) * 10 ^ 18)%N ∧
    (∃ row, row ∈ index w' ∧ provider_id row = providerId) ∧
    (∀ row, row ∈ index w' → provider_id row = providerId →
            allocated_storage row = inject_Z (Z.min r available)).
Proof.
  unfold startProvider_register.
  destruct requested as [r|]; [|discriminate].
  destruct (checkAvailableStorage stdout) as [available|]; [|discriminate].
  cbn [Math_min toWei].
  destruct (Z.leb_spec 0 (Z.min r available)) as [Hmin|]; [|discriminate].
  change (0 <=? fixed_price) with true. cbv iota.
  destruct (Ledger.registerProvider _ _ _ _) as [[ledger' evs]| |] eqn:Hreg;
    [|discriminate..].
  apply registerProvider_registers in Hreg as [Hpos Halloc].
  assert (Hv : 0 < Z.min r available).
  { unfold ether in Hpos. lia. }
  cbn [default].
  destruct (createProvider _ _ _ _ _ _ _ _) as [index'|violated] eqn:Hcreate.
  - intros [= <-]. exists r, available.
    apply createProvider_created in Hcreate as [Hfresh ->].
    repeat split; try done.
    + eexists. split; [apply elem_of_app; right; apply list_elem_of_singleton;
                       reflexivity|reflexivity].
    + cbn [index]. intros row Hrow Hid.
      apply elem_of_app in Hrow as [Hrow|Hrow].
      * by destruct (Hfresh row Hrow).
      * apply list_elem_of_singleton in Hrow as ->. reflexivity.
  - destruct (String.eqb_spec violated "providers_pkey") as [->|]; [|discriminate].
    intros [= <-]. exists r, available.
    apply createProvider_conflict in Hcreate as (row0 & Hrow0 & Hid0).
    repeat split; try done.
    + cbn [index]. by apply (updateProviderStorage_keeps_id _ _ _ _ _ _ _ row0).
    + cbn [index]. intros row Hrow Hid.
      by apply (updateProviderStorage_allocated _ _ _ _ _ _ Hrow Hid).
Qed.

End Facts.

(** The operator is registered with 10 units and starts again while the
    disk query fails: the registration fails, and the ledger and the index
    keep the 10 units; on a fresh ledger and index nothing is registered. *)
Lemma C10_failed_detection_registers_nothing :
  checkAvailableStorage None = Some 0 ∧
  startProvider_register 1700000000000 (Some 5) None 1%N
    "0x52908400098527886E0F7030069857D2E4169EE7" "c9d0e1f2" registered_world
  = (registered_world, RegistrationFailed) ∧
  Ledger.allocatedStorage (Ledger.provider_of (ledger registered_world) 1%N)
  = (10 * 10 ^ 18)%N ∧
  allocated_storage <$> index registered_world = [(10 # 1)%Q] ∧
  startProvider_register 1700000000000 (Some 5) None 1%N
    "0x52908400098527886E0F7030069857D2E4169EE7" "c9d0e1f2" empty_world
  = (empty_world, RegistrationFailed).
Proof. repeat split; vm_compute; reflexivity. Qed.

(** What [getOnlineProviders] offers for a provider comes from a row of
    the index. *)
Lemma getOnlineProviders_from_row now table p :
  p ∈ Discovery.getOnlineProviders now (Some table) →
  ∃ row, row ∈ table ∧ Discovery.id p = provider_id row ∧
         Discovery.storage p = allocated_storage row.
Proof.
  unfold Discovery.getOnlineProviders.
  change (getActiveProviders now (Some table))
    with (Some (default [] (getActiveProviders now (Some table)))).
  intros Hp. apply list_elem_of_fmap in Hp as (row & -> & Hrow).
  apply IndexFacts.getActiveProviders_elem in Hrow as [Hrow _].
  by exists row.
Qed.

(** C10 (as the code has it): when the registration block succeeds, the
    amount recorded in the index as the provider's allocated storage is
    the minimum of the requested allocation and the free space reported by
    [checkAvailableStorage], and is above zero: every index row of the
    provider holds it, so no row of the provider and no offer that
    [getOnlineProviders] makes for it holds more than the disk check
    reported.  When the disk query fails, [checkAvailableStorage] returns
    0, [registerProvider] rejects an amount of 0 and the registration
    fails: nothing is written to the ledger or to the index. *)
Theorem C10_registered_amount_is_the_minimum {T : Ledger.IERC20}
    (now : Z) (requested : jsint) (stdout : option string)
    (wallet : Ledger.address) (walletAddress providerId : string) (w : World) :
  (∀ w',
     startProvider_register now requested stdout wallet walletAddress providerId w = (w', Registered) →
     ∃ r available,
       requested = Some r ∧ checkAvailableStorage stdout = Some available ∧
       0 < Z.min r available ∧
       (∃ row, row ∈ index w' ∧ provider_id row = providerId) ∧
       (∀ row, row ∈ index w' → provider_id row = providerId →
               allocated_storage row = inject_Z (Z.min r available) ∧
               (allocated_storage row <= inject_Z available)%Q) ∧
       (∀ now' p, p ∈ Discovery.getOnlineProviders now' (Some (index w')) →
                  Discovery.id p = providerId →
                  (Discovery.storage p <= inject_Z available)%Q)) ∧
  checkAvailableStorage None = Some 0 ∧
  (∀ price st, Ledger.registerProvider wallet 0 price st
               = Revert "Storage must be greater than 0") ∧
  startProvider_register now requested None wallet walletAddress providerId w
  = (w, RegistrationFailed).
Proof.
  split; [|split; [reflexivity|split;
                   [reflexivity|apply startProvider_register_without_disk]]].
  intros w' Hreg.
  apply startProvider_register_registered in Hreg
    as (r & available & Hr & Ha & Hpos & _ & Hrow & Hrows).
  assert (Hle : ∀ row, row ∈ index w' → provider_id row = providerId →
                       (allocated_storage row <= inject_Z available)%Q).
  { intros row Hin Hid. rewrite (Hrows row Hin Hid), <- Zle_Qle. lia. }
  exists r, available. repeat split; try done.
  - by apply Hrows.
  - by apply Hle.
  - intros now' p Hp Hid.
    apply getOnlineProviders_from_row in Hp as (row & Hin & Hid' & ->).
    apply Hle; [done|congruence].
Qed.

Lemma C10_registered_amount_is_the_minimum_witness :
  ∃ row,
    row ∈ index (startProvider_register 1700000000000 (Some 500) (Some sample_stdout) 1%N
                   "0x52908400098527886E0F7030069857D2E4169EE7" "c9d0e1f2"
                   empty_world).1 ∧
    provider_id row = "c9d0e1f2" ∧ allocated_storage row = inject_Z 160.
Proof.
  destruct (proj1 (C10_registered_amount_is_the_minimum (T := Ledger.open_token)
                     1700000000000 (Some 500) (Some sample_stdout) 1%N
                     "0x52908400098527886E0F7030069857D2E4169EE7" "c9d0e1f2" empty_world)
                  _ eq_refl)
    as (r & available & Hr & Ha & _ & (row & Hin & Hid) & Hrows & _).
  injection Hr as <-. vm_compute in Ha. injection Ha as <-.
  exists row. split; [exact Hin|]. split; [exact Hid|].
  exact (proj1 (Hrows row Hin Hid)).
Defined.

End ProviderFacts.

(** * Further properties *)

(** ** The ledger over sequences of transactions *)

Module LedgerRunFacts.
Import Solidity Ledger LedgerFacts LedgerRuns.
Local Open Scope list_scope.
Local Open Scope N_scope.

Lemma total_allocated_insert (m : gmap address ClientStorage) c cs :
  map_fold (fun _ cs total => allocatedSpace cs + total) 0 (<[c := cs]> m)
  + allocatedSpace (default empty_client (m !! c))
  = map_fold (fun _ cs total => allocatedSpace cs + total) 0 m + allocatedSpace cs.
Proof.
  assert (Hcomm : ∀ (m' : gmap address ClientStorage) (j1 j2 : address)
            (z1 z2 : ClientStorage) (y : N),
            j1 ≠ j2 → m' !! j1 = Some z1 → m' !! j2 = Some z2 →
            allocatedSpace z1 + (allocatedSpace z2 + y)
            = allocatedSpace z2 + (allocatedSpace z1 + y)) by (intros; lia).
  destruct (m !! c) as [old|] eqn:E; simpl.
  - rewrite <- (insert_delete_eq m c cs).
    rewrite map_fold_insert_L; [|by eauto|by rewrite lookup_delete_eq].
    rewrite <- (insert_delete_id m c old E) at 2.
    rewrite map_fold_insert_L; [|by eauto|by rewrite lookup_delete_eq].
    lia.
  - rewrite map_fold_insert_L; [lia|by eauto|done].
Qed.

Lemma empty_provider_consistent : provider_consistent empty_provider.
Proof.
  split; [reflexivity|]. split; [discriminate|].
  intros c cs. simpl. rewrite lookup_empty. discriminate.
Qed.

Section Consistency.
Context {T : IERC20}.

Lemma consistent_provider_of (st : State) a :
  consistent st → provider_consistent (provider_of st a).
Proof.
  intros H. unfold provider_of.
  destruct (providers st !! a) as [p|] eqn:E; simpl; [eauto|].
  apply empty_provider_consistent.
Qed.

Lemma consistent_insert (st : State) tok a p cids :
  consistent st → provider_consistent p →
  consistent (mkState tok (<[a := p]> (providers st)) cids).
Proof.
  intros Hst Hp a' p'. simpl. rewrite lookup_insert. case_decide.
  - by intros [= <-].
  - apply Hst.
Qed.

Lemma registerProvider_consistent sender storage price (st st' : State) evs :
  consistent st →
  registerProvider sender storage price st = Ok (st', evs) →
  consistent st'.
Proof.
  intros Hst H. unfold registerProvider in H.
  step H. step H. injection H as <- <-.
  apply require_ok, N.ltb_lt in Hx. apply require_ok, N.ltb_lt in Hx0.
  destruct (consistent_provider_of st sender Hst) as (Hused & _ & Hclients).
  apply consistent_insert; [done|].
  split; [exact Hused|]. split; [done|]. exact Hclients.
Qed.

Lemma purchaseStorage_consistent this sender ts prov amt (st st' : State) evs :
  consistent st →
  purchaseStorage this sender ts prov amt st = Ok (st', evs) →
  consistent st'.
Proof.
  intros Hst H. unfold purchaseStorage in H.
  destruct (consistent_provider_of st prov Hst) as (Hused & Hactive & Hclients).
  set (provider := provider_of st prov) in *.
  step H. step H. step H. step H. step H. step H. step H. step H. step H.
  apply add_ok in Hx5 as ->. apply add_ok in Hx6 as ->. apply add_ok in Hx7 as ->.
  injection H as <- <-.
  apply consistent_insert; [done|].
  split; [|split; [exact Hactive|]].
  - unfold total_allocated in *; simpl.
    pose proof (total_allocated_insert (clientStorages provider) sender
      (mkClientStorage (allocatedSpace (client_of provider sender) + amt)
         (usedSpace (client_of provider sender))
         (paymentAmount (client_of provider sender) + x2) ts
         (storedFileCIDs (client_of provider sender))
         (fileSizes (client_of provider sender)))) as Hsum.
    simpl in Hsum. unfold client_of in *. lia.
  - intros c cs. simpl. rewrite lookup_insert. case_decide as Hc.
    + intros [= <-]. simpl. subst c.
      unfold client_of.
      destruct (clientStorages provider !! sender) as [old|] eqn:E; simpl.
      * destruct (Hclients sender old E) as (Hle & Hin & Hfiles).
        split; [lia|]. split; [|exact Hfiles].
        intros _. destruct (N.eqb_spec (allocatedSpace old) 0).
        -- apply elem_of_app. right. by apply list_elem_of_singleton.
        -- apply Hin. lia.
      * split; [lia|]. split.
        -- intros _. apply elem_of_app. right. by apply list_elem_of_singleton.
        -- intros cid Hcid. by apply elem_of_nil in Hcid.
    + intros Hcs. destruct (Hclients c cs Hcs) as (Hle & Hin & Hfiles).
      split; [exact Hle|]. split; [|exact Hfiles].
      intros Hpos. specialize (Hin Hpos).
      destruct (allocatedSpace (client_of provider sender) =? 0); [|exact Hin].
      apply elem_of_app. by left.
Qed.

Lemma storeFile_consistent sender prov cid size (st st' : State) evs :
  consistent st →
  storeFile sender prov cid size st = Ok (st', evs) →
  consistent st'.
Proof.
  intros Hst H. unfold storeFile in H.
  destruct (consistent_provider_of st prov Hst) as (Hused & Hactive & Hclients).
  set (provider := provider_of st prov) in *.
  step H. step H. step H. step H.
  apply add_ok in Hx0 as ->. apply add_ok in Hx2 as ->.
  apply require_ok, N.leb_le in Hx1.
  injection H as <- <-.
  apply consistent_insert; [done|].
  split; [|split; [exact Hactive|]].
  - unfold total_allocated in *; simpl.
    pose proof (total_allocated_insert (clientStorages provider) sender
      (mkClientStorage (allocatedSpace (client_of provider sender))
         (usedSpace (client_of provider sender) + x)
         (paymentAmount (client_of provider sender))
         (lastPaymentTime (client_of provider sender))
         (storedFileCIDs (client_of provider sender) ++ [cid])
         (<[cid := size]> (fileSizes (client_of provider sender))))) as Hsum.
    simpl in Hsum. unfold client_of in *. lia.
  - intros c cs. simpl. rewrite lookup_insert. case_decide as Hc.
    + intros [= <-]. simpl. subst c.
      split; [lia|].
      unfold client_of.
      destruct (clientStorages provider !! sender) as [old|] eqn:E; simpl.
      * destruct (Hclients sender old E) as (Hle & Hin & Hfiles).
        split; [exact Hin|].
        intros cid' Hcid'. rewrite lookup_insert. case_decide; [eauto|].
        apply elem_of_app in Hcid' as [Hcid'|Hcid']; [by apply Hfiles|].
        apply list_elem_of_singleton in Hcid'. congruence.
      * split; [lia|].
        intros cid' Hcid'. rewrite lookup_insert. case_decide; [eauto|].
        apply list_elem_of_singleton in Hcid'. congruence.
    + apply Hclients.
Qed.

Lemma distributeMiningRewards_consistent this sender (st st' : State) evs :
  consistent st →
  distributeMiningRewards this sender st = Ok (st', evs) →
  consistent st'.
Proof.
  intros Hst H. apply distributeMiningRewards_ok in H as (_ & _ & _ & _ & Hp & _).
  intros a p. rewrite Hp. apply Hst.
Qed.

Lemma transact_consistent this (st : State) c :
  consistent st → consistent (transact this st c).
Proof.
  intros Hst. unfold transact.
  destruct (call this c st) as [[st' evs]| |] eqn:E; [|done..].
  destruct c; simpl in E.
  - by eapply registerProvider_consistent.
  - by eapply purchaseStorage_consistent.
  - by eapply storeFile_consistent.
  - by eapply distributeMiningRewards_consistent.
Qed.

Lemma run_consistent this cs (st : State) :
  consistent st → consistent (run this cs st).
Proof.
  revert st. induction cs as [|c cs IH]; intros st Hst; [exact Hst|].
  simpl. apply IH, transact_consistent, Hst.
Qed.

Lemma reachable_consistent (st : State) : reachable st → consistent st.
Proof.
  intros (this & tok & cs & ->). apply run_consistent.
  intros a p. simpl. rewrite lookup_empty. discriminate.
Qed.

End Consistency.

(** The three transactions behind [one_file]. *)
Lemma one_file_reachable : reachable one_file.
Proof.
  exists 99, tt,
    [RegisterProvider 1 10 5; PurchaseStorage 7 1700000000 1 2;
     StoreFile 7 1 "QmFile" 1500].
  vm_compute. reflexivity.
Qed.

(** X1: in every state the contract can reach, the capacity a provider has
    sold ([usedStorage]) is the sum of the space allocated to its clients. *)
Theorem sold_capacity_is_the_sum_of_allocations {T : IERC20} (st : State) :
  reachable st →
  ∀ a p, providers st !! a = Some p → usedStorage p = total_allocated p.
Proof.
  intros Hreach a p Hp.
  by destruct (reachable_consistent st Hreach a p Hp) as (? & _).
Qed.

Lemma sold_capacity_is_the_sum_of_allocations_witness :
  usedStorage (provider_of one_file 1) = total_allocated (provider_of one_file 1).
Proof.
  apply (sold_capacity_is_the_sum_of_allocations one_file one_file_reachable 1).
  reflexivity.
Defined.

(** X2: in every state the contract can reach, no client has used more
    space than it was allocated, every client holding an allocation is
    listed among the provider's clients, and every stored file has a size
    on record. *)
Theorem clients_stay_within_their_allocation {T : IERC20} (st : State) :
  reachable st →
  ∀ a p c cs, providers st !! a = Some p → clientStorages p !! c = Some cs →
    usedSpace cs <= allocatedSpace cs ∧
    (0 < allocatedSpace cs → c ∈ clients p) ∧
    (∀ cid, cid ∈ storedFileCIDs cs → is_Some (fileSizes cs !! cid)).
Proof.
  intros Hreach a p c cs Hp Hcs.
  destruct (reachable_consistent st Hreach a p Hp) as (_ & _ & Hclients).
  by apply Hclients.
Qed.

Lemma clients_stay_within_their_allocation_witness :
  usedSpace (client_of (provider_of one_file 1) 7)
  <= allocatedSpace (client_of (provider_of one_file 1) 7).
Proof.
  apply (clients_stay_within_their_allocation one_file one_file_reachable 1
           (provider_of one_file 1) 7 (client_of (provider_of one_file 1) 7)).
  - reflexivity.
  - reflexivity.
Defined.

(** X3: in every state the contract can reach, an active provider has a
    positive allocated storage and a positive price, so the division by
    [allocatedStorage] in [distributeMiningRewards] is defined. *)
Theorem active_provider_has_capacity {T : IERC20} (st : State) (a : address) :
  reachable st →
  isActive (provider_of st a) = true →
  0 < allocatedStorage (provider_of st a) ∧ 0 < pricePerGB (provider_of st a) ∧
  div (usedStorage (provider_of st a) * 100) (allocatedStorage (provider_of st a))
  = Ok (utilizationRate (provider_of st a)).
Proof.
  intros Hreach Hact.
  destruct (consistent_provider_of st a (reachable_consistent st Hreach))
    as (_ & Hpos & _).
  destruct (Hpos Hact) as [Ha Hprice].
  split; [exact Ha|]. split; [exact Hprice|].
  rewrite div_by_nonzero by lia. reflexivity.
Qed.

Lemma active_provider_has_capacity_witness :
  0 < allocatedStorage (provider_of one_file 1) ∧
  0 < pricePerGB (provider_of one_file 1) ∧
  div (usedStorage (provider_of one_file 1) * 100)
      (allocatedStorage (provider_of one_file 1)) = Ok 20.
Proof.
  apply (active_provider_has_capacity one_file 1 one_file_reachable). reflexivity.
Defined.

(** *** [purchaseStorage] *)

(** X4: how [purchaseStorage] fails before any payment is attempted: on a
    provider that is not active (or was never registered) it reverts with
    "Provider is not active"; on an active provider whose sold capacity
    exceeds its allocated storage the subtraction underflows and the call
    panics (0x11) whatever the amount; otherwise an amount above the free
    capacity reverts with "Insufficient storage available". *)
Theorem purchaseStorage_refusals {T : IERC20} this sender ts prov amt (st : State) :
  let p := provider_of st prov in
  (isActive p = false →
     purchaseStorage this sender ts prov amt st = Revert "Provider is not active") ∧
  (isActive p = true → allocatedStorage p < usedStorage p →
     purchaseStorage this sender ts prov amt st = Panic 0x11) ∧
  (isActive p = true → usedStorage p <= allocatedStorage p →
     allocatedStorage p - usedStorage p < amt →
     purchaseStorage this sender ts prov amt st = Revert "Insufficient storage available").
Proof.
  cbv zeta. unfold purchaseStorage. split; [|split].
  - intros ->. reflexivity.
  - intros -> Hlt. cbn [require mbind result_bind]. unfold sub.
    destruct (N.leb_spec (usedStorage (provider_of st prov))
                (allocatedStorage (provider_of st prov))); [lia|reflexivity].
  - intros -> Hle Hlt. cbn [require mbind result_bind]. unfold sub.
    destruct (N.leb_spec (usedStorage (provider_of st prov))
                (allocatedStorage (provider_of st prov))); [|lia].
    cbn [mbind result_bind].
    destruct (N.leb_spec amt (allocatedStorage (provider_of st prov)
                              - usedStorage (provider_of st prov))); [lia|reflexivity].
Qed.

Lemma purchaseStorage_refusals_witness :
  purchaseStorage 99 7 1700000000 2 1 one_file = Revert "Provider is not active" ∧
  purchaseStorage 99 7 1700000000 1 1
    (transact 99 one_file (RegisterProvider 1 1 5)) = Panic 0x11 ∧
  purchaseStorage 99 7 1700000000 1 9 one_file = Revert "Insufficient storage available".
Proof.
  split; [|split].
  - apply (proj1 (purchaseStorage_refusals 99 7 1700000000 2 1 one_file)). reflexivity.
  - apply (proj1 (proj2 (purchaseStorage_refusals 99 7 1700000000 1 1
                           (transact 99 one_file (RegisterProvider 1 1 5))))).
    + reflexivity.
    + vm_compute. reflexivity.
  - apply (proj2 (proj2 (purchaseStorage_refusals 99 7 1700000000 1 9 one_file))).
    + reflexivity.
    + vm_compute. discriminate.
    + vm_compute. reflexivity.
Defined.

(** X5: what a successful [purchaseStorage] does, as the two view functions
    show it: the buyer's allocation grows by the amount, its payments by
    amount times price (the sum that [transferFrom] moved from the buyer to
    the contract), its used space is unchanged; the provider's sold
    capacity grows by the amount; other providers, other clients of this
    provider and the file registry are as before. *)
Theorem purchaseStorage_effect {T : IERC20} this sender ts prov amt (st st' : State) evs :
  purchaseStorage this sender ts prov amt st = Ok (st', evs) →
  let p := provider_of st prov in
  let cs := client_of p sender in
  let payment := amt * pricePerGB p in
  erc20_transferFrom (aaiToken st) this sender this payment = Ok (aaiToken st', true) ∧
  evs = [StoragePurchased sender prov payment] ∧
  getClientStorageDetails prov sender st'
  = (allocatedSpace cs + amt, usedSpace cs, paymentAmount cs + payment, ts) ∧
  getProviderDetails prov st'
  = (allocatedStorage p, usedStorage p + amt, pricePerGB p, true) ∧
  usedStorage p + amt <= allocatedStorage p ∧
  (∀ a, a ≠ prov → provider_of st' a = provider_of st a) ∧
  (∀ c, c ≠ sender → client_of (provider_of st' prov) c = client_of p c) ∧
  cidToProvider st' = cidToProvider st.
Proof.
  intros H. cbv zeta. unfold purchaseStorage in H.
  set (p := provider_of st prov) in *.
  set (cs := client_of p sender) in *.
  step H. step H. step H. step H. step H. step H. step H. step H. step H.
  apply require_ok in Hx.
  apply sub_ok in Hx0 as [Hle ->].
  apply require_ok, N.leb_le in Hx1.
  apply mul_ok in Hx2 as [-> _].
  apply require_ok in Hx4.
  apply add_ok in Hx5 as ->. apply add_ok in Hx6 as ->. apply add_ok in Hx7 as ->.
  injection H as <- <-. simpl.
  destruct x3 as [tok' flag]; simpl in *; subst flag.
  split; [exact Hx3|]. split; [reflexivity|].
  unfold getClientStorageDetails, getProviderDetails, provider_of; simpl.
  rewrite !lookup_insert_eq; simpl.
  unfold client_of; simpl. rewrite !lookup_insert_eq; simpl.
  split; [reflexivity|]. split; [by rewrite Hx|]. split; [lia|].
  split; [|split; [|reflexivity]].
  - intros a Ha. by rewrite lookup_insert_ne.
  - intros c Hc. unfold client_of; simpl. by rewrite lookup_insert_ne.
Qed.

Lemma purchaseStorage_effect_witness :
  getClientStorageDetails 1 7 two_units_bought = (2, 0, 10, 1700000000) ∧
  getProviderDetails 1 two_units_bought = (10, 2, 5, true).
Proof.
  destruct (purchaseStorage_effect 99 7 1700000000 1 2 one_provider two_units_bought
              [StoragePurchased 7 1 10] eq_refl)
    as (_ & _ & Hclient & Hprovider & _).
  split; [exact Hclient|exact Hprovider].
Defined.

(** *** [storeFile] and [getFileDetails] *)

Lemma existsb_eqb_elem_of (cid : string) (l : list string) :
  existsb (String.eqb cid) l = true ↔ cid ∈ l.
Proof.
  rewrite existsb_exists. split.
  - intros (x & Hin & Heq). apply String.eqb_eq in Heq as ->.
    by apply list_elem_of_In.
  - intros Hin. exists cid. split; [by apply list_elem_of_In|apply String.eqb_refl].
Qed.

(** The loops of [getFileDetails] return the first listed client, other
    than the zero address, whose CID list holds the CID. *)
Lemma find_owner_found (p : Provider) cid (cs : list address) acc c :
  acc.1 = address0 →
  c ∈ cs → c ≠ address0 →
  cid ∈ storedFileCIDs (client_of p c) →
  (∀ c', c' ∈ cs → c' ≠ c → cid ∉ storedFileCIDs (client_of p c')) →
  find_owner p cid cs acc = (c, file_size_of (client_of p c) cid).
Proof.
  intros Hacc Hin Hc Hcid Hothers. revert acc Hacc.
  induction cs as [|c0 cs IH]; intros acc Hacc; [by apply elem_of_nil in Hin|].
  simpl. destruct (decide (c0 = c)) as [->|Hne].
  - apply existsb_eqb_elem_of in Hcid. rewrite Hcid. simpl.
    destruct (N.eqb_spec c address0); [done|reflexivity].
  - assert (Hno : existsb (String.eqb cid) (storedFileCIDs (client_of p c0)) = false).
    { apply not_true_is_false. rewrite existsb_eqb_elem_of.
      apply Hothers; [by left|done]. }
    rewrite Hno, Hacc. simpl. apply IH.
    + apply elem_of_cons in Hin as [->|Hin]; [done|exact Hin].
    + intros c' Hc'. apply Hothers. by right.
    + exact Hacc.
Qed.

(** When no listed client holds the CID, the loops return the zero pair. *)
Lemma find_owner_none (p : Provider) cid (cs : list address) acc :
  acc.1 = address0 →
  (∀ c, c ∈ cs → cid ∉ storedFileCIDs (client_of p c)) →
  find_owner p cid cs acc = acc.
Proof.
  intros Hacc Hothers. induction cs as [|c0 cs IH]; [reflexivity|].
  simpl.
  assert (Hno : existsb (String.eqb cid) (storedFileCIDs (client_of p c0)) = false).
  { apply not_true_is_false. rewrite existsb_eqb_elem_of. apply Hothers. by left. }
  rewrite Hno, Hacc. simpl. apply IH. intros c Hc. apply Hothers. by right.
Qed.

Section StoreFile.
Context {T : IERC20}.

(** The state a successful [storeFile] leaves. *)
Lemma storeFile_ok sender prov cid size (st st' : State) evs :
  storeFile sender prov cid size st = Ok (st', evs) →
  let p := provider_of st prov in
  let cs := client_of p sender in
  ∃ units,
    storeFile_fileSizeGB size = Ok units ∧
    usedSpace cs + units <= allocatedSpace cs ∧
    evs = [FileStored sender prov cid] ∧
    st' = mkState (aaiToken st)
            (<[prov := set_client p sender
                 (mkClientStorage (allocatedSpace cs) (usedSpace cs + units)
                    (paymentAmount cs) (lastPaymentTime cs)
                    (storedFileCIDs cs ++ [cid]) (<[cid := size]> (fileSizes cs)))]>
               (providers st))
            (<[cid := prov]> (cidToProvider st)).
Proof.
  intros H. cbv zeta. unfold storeFile in H.
  step H. step H. step H. step H.
  apply add_ok in Hx0 as ->. apply add_ok in Hx2 as ->.
  apply require_ok, N.leb_le in Hx1.
  injection H as <- <-. exists x. done.
Qed.

Lemma storeFile_units size units :
  storeFile_fileSizeGB size = Ok units →
  units = (if (size / 1000 =? 0) && (0 <? size) then 1 else size / 1000).
Proof.
  unfold storeFile_fileSizeGB. intros H. step H. step H.
  apply mul_ok in Hx as [-> _]. apply div_ok in Hx0 as [_ ->].
  injection H as <-.
  replace (size * 10 ^ 9 / (1000 * 10 ^ 9)) with (size / 1000); [reflexivity|].
  symmetry. apply N.Div0.div_mul_cancel_r. vm_compute; discriminate.
Qed.

End StoreFile.

Lemma two_units_bought_reachable : reachable two_units_bought.
Proof.
  exists 99, tt, [RegisterProvider 1 10 5; PurchaseStorage 7 1700000000 1 2].
  vm_compute. reflexivity.
Qed.

(** X6: a stored file is found again.  From a state the contract can reach,
    after a successful [storeFile] of a non-empty file by [sender] at
    [prov] (neither the zero address), [getFileDetails] answers with
    provider [prov], owner [sender] and the submitted size, provided no
    other client of [prov] holds the same CID. *)
Theorem stored_file_is_found {T : IERC20} sender prov cid size (st st' : State) evs :
  reachable st →
  storeFile sender prov cid size st = Ok (st', evs) →
  0 < size → prov ≠ address0 → sender ≠ address0 →
  (∀ c, c ∈ clients (provider_of st prov) → c ≠ sender →
        cid ∉ storedFileCIDs (client_of (provider_of st prov) c)) →
  getFileDetails cid st' = Ok (prov, sender, size).
Proof.
  intros Hreach H Hsize Hprov Hsender Hothers.
  destruct (consistent_provider_of st prov (reachable_consistent st Hreach))
    as (_ & _ & Hclients).
  apply storeFile_ok in H as (units & Hunits & Hfits & _ & ->).
  apply storeFile_units in Hunits.
  assert (Hpos : 0 < units).
  { subst units. set (q := size / 1000). clearbody q.
    destruct (N.eqb_spec q 0); destruct (N.ltb_spec 0 size); cbn [andb]; lia. }
  set (p := provider_of st prov) in *. set (cs := client_of p sender) in *.
  assert (Hlisted : sender ∈ clients p).
  { unfold cs, client_of in Hfits.
    destruct (clientStorages p !! sender) as [old|] eqn:E; simpl in Hfits.
    - apply (Hclients sender old E). lia.
    - lia. }
  unfold getFileDetails, provider_of_cid, provider_of. cbn [cidToProvider providers].
  rewrite !lookup_insert_eq. cbn [default from_option id].
  destruct (N.eqb_spec prov address0) as [|_]; [done|].
  cbn [negb require mbind result_bind].
  rewrite (find_owner_found _ cid _ _ sender); cbn [fst snd].
  - destruct (N.eqb_spec sender address0) as [|_]; [done|].
    cbn [negb require mbind result_bind].
    unfold file_size_of, client_of, set_client. cbn [clientStorages].
    rewrite lookup_insert_eq. cbn [default from_option id fileSizes].
    rewrite lookup_insert_eq. reflexivity.
  - reflexivity.
  - exact Hlisted.
  - exact Hsender.
  - unfold client_of, set_client. cbn [clientStorages].
    rewrite lookup_insert_eq. cbn [default from_option id storedFileCIDs].
    apply elem_of_app. right. by apply list_elem_of_singleton.
  - intros c Hc Hne. unfold client_of, set_client. cbn [clientStorages].
    rewrite lookup_insert_ne by done. by apply Hothers.
Qed.

Lemma stored_file_is_found_witness :
  getFileDetails "QmFile" one_file = Ok (1, 7, 1500).
Proof.
  apply (stored_file_is_found 7 1 "QmFile" 1500 two_units_bought one_file
           [FileStored 7 1 "QmFile"] two_units_bought_reachable).
  - reflexivity.
  - reflexivity.
  - discriminate.
  - discriminate.
  - intros c Hc Hne. vm_compute in Hc.
    apply list_elem_of_singleton in Hc. contradiction.
Defined.


(** X7: a client without free allocation cannot register a non-empty
    file: when the space already used is not below the space allocated
    under the named provider (in particular when the client never bought
    from it), [storeFile] of a file of non-zero size does not succeed,
    whatever the size and the CID. *)
Theorem storeFile_needs_free_allocation {T : IERC20} sender prov cid size (st : State) :
  0 < size →
  allocatedSpace (client_of (provider_of st prov) sender)
  <= usedSpace (client_of (provider_of st prov) sender) →
  succeeded (storeFile sender prov cid size st) = false.
Proof.
  intros Hsize Hfull.
  destruct (storeFile sender prov cid size st) as [[st' evs]| |] eqn:E; [|done..].
  apply storeFile_ok in E as (units & Hunits & Hfits & _).
  apply storeFile_units in Hunits. exfalso.
  revert Hunits. set (q := size / 1000). clearbody q. intros ->.
  destruct (N.eqb_spec q 0); destruct (N.ltb_spec 0 size);
    cbn [andb] in Hfits; lia.
Qed.

Lemma storeFile_needs_free_allocation_witness :
  succeeded (storeFile 8 1 "QmOther" 1 one_file) = false ∧
  succeeded (storeFile 7 1 "QmMore" 1001 one_file) = true ∧
  succeeded (storeFile 7 1 "QmMore" 1 (transact 99 one_file (StoreFile 7 1 "QmMore" 1001)))
  = false.
Proof.
  split; [|split].
  - apply (storeFile_needs_free_allocation 8 1 "QmOther" 1 one_file).
    + reflexivity.
    + vm_compute. discriminate.
  - reflexivity.
  - apply (storeFile_needs_free_allocation 7 1 "QmMore" 1
             (transact 99 one_file (StoreFile 7 1 "QmMore" 1001))).
    + reflexivity.
    + vm_compute. discriminate.
Defined.

(** X8: what a successful [storeFile] does: the client is charged the
    thousands of the submitted size, and 1 when that is 0 for a non-zero
    size; nothing is paid and the provider's own figures do not move; the
    CID now points to the named provider, whether or not it was registered
    before; other CIDs, other providers and the other clients of this
    provider are as before. *)
Theorem storeFile_effect {T : IERC20} sender prov cid size (st st' : State) evs :
  storeFile sender prov cid size st = Ok (st', evs) →
  let cs := client_of (provider_of st prov) sender in
  let units := if (size / 1000 =? 0) && (0 <? size) then 1 else size / 1000 in
  getClientStorageDetails prov sender st'
  = (allocatedSpace cs, usedSpace cs + units, paymentAmount cs, lastPaymentTime cs) ∧
  usedSpace cs + units <= allocatedSpace cs ∧
  file_size_of (client_of (provider_of st' prov) sender) cid = size ∧
  getProviderDetails prov st' = getProviderDetails prov st ∧
  aaiToken st' = aaiToken st ∧
  provider_of_cid st' cid = prov ∧
  (∀ cid', cid' ≠ cid → provider_of_cid st' cid' = provider_of_cid st cid') ∧
  (∀ a, a ≠ prov → provider_of st' a = provider_of st a) ∧
  (∀ c, c ≠ sender →
        client_of (provider_of st' prov) c = client_of (provider_of st prov) c).
Proof.
  intros H. cbv zeta.
  apply storeFile_ok in H as (units & Hunits & Hfits & _ & ->).
  apply storeFile_units in Hunits. rewrite <- Hunits.
  set (p := provider_of st prov) in *. set (cs := client_of p sender) in *.
  set (cs' := mkClientStorage _ _ _ _ _ _).
  set (st' := mkState _ _ _).
  assert (Hp' : provider_of st' prov = set_client p sender cs').
  { unfold provider_of, st'. cbn [providers]. by rewrite lookup_insert_eq. }
  assert (Hc' : client_of (provider_of st' prov) sender = cs').
  { rewrite Hp'. unfold client_of, set_client. cbn [clientStorages].
    by rewrite lookup_insert_eq. }
  unfold getClientStorageDetails, getProviderDetails. rewrite Hc', Hp'.
  split; [reflexivity|]. split; [exact Hfits|].
  split; [unfold file_size_of, cs'; cbn [fileSizes]; by rewrite lookup_insert_eq|].
  split; [reflexivity|]. split; [reflexivity|].
  split; [unfold provider_of_cid, st'; cbn [cidToProvider]; by rewrite lookup_insert_eq|].
  split; [|split].
  - intros cid' Hne. unfold provider_of_cid, st'. cbn [cidToProvider].
    by rewrite lookup_insert_ne.
  - intros a Hne. unfold provider_of, st'. cbn [providers].
    by rewrite lookup_insert_ne.
  - intros c Hne. unfold client_of, set_client. cbn [clientStorages].
    by rewrite lookup_insert_ne.
Qed.

Lemma storeFile_effect_witness :
  getClientStorageDetails 1 7 one_file = (2, 1, 10, 1700000000) ∧
  getProviderDetails 1 one_file = (10, 2, 5, true).
Proof.
  destruct (storeFile_effect 7 1 "QmFile" 1500 two_units_bought one_file
              [FileStored 7 1 "QmFile"] eq_refl)
    as (Hclient & _ & _ & Hprovider & _).
  split; [exact Hclient|exact Hprovider].
Defined.

(** *** [registerProvider] *)

(** X9: registering again replaces the capacity and the price and keeps
    what was sold: the sold capacity, the client list and the client
    records stay.  The new state keeps used <= allocated exactly when the
    new capacity is at least the capacity already sold; when it is below,
    every later [purchaseStorage] from this provider panics on the
    subtraction, whatever the amount. *)
Theorem registerProvider_again {T : IERC20} sender storage price (st st' : State) evs :
  registerProvider sender storage price st = Ok (st', evs) →
  getProviderDetails sender st'
  = (storage, usedStorage (provider_of st sender), price, true) ∧
  clients (provider_of st' sender) = clients (provider_of st sender) ∧
  clientStorages (provider_of st' sender) = clientStorages (provider_of st sender) ∧
  (∀ a, a ≠ sender → provider_of st' a = provider_of st a) ∧
  (used_le_allocated st →
   (used_le_allocated st' ↔ usedStorage (provider_of st sender) <= storage)) ∧
  (storage < usedStorage (provider_of st sender) →
   ∀ this buyer ts amt, purchaseStorage this buyer ts sender amt st' = Panic 0x11).
Proof.
  intros H. unfold registerProvider in H. step H. step H. injection H as <- <-.
  unfold getProviderDetails, provider_of, set_provider. cbn [providers].
  rewrite !lookup_insert_eq. cbn [default from_option id allocatedStorage usedStorage
    pricePerGB isActive clients clientStorages].
  fold (provider_of st sender).
  split; [reflexivity|]. split; [reflexivity|]. split; [reflexivity|].
  split; [intros a Hne; by rewrite lookup_insert_ne|].
  split.
  - intros Hinv. split.
    + intros Hinv'.
      destruct (Hinv' sender
        (mkProvider sender storage (usedStorage (provider_of st sender)) price true
           (clients (provider_of st sender)) (clientStorages (provider_of st sender))))
        as [Hp _].
      * cbn [providers]. by rewrite lookup_insert_eq.
      * exact Hp.
    + intros Hle a p. cbn [providers]. rewrite lookup_insert. case_decide.
      * intros [= <-]. split; [exact Hle|].
        cbn [clientStorages]. intros c cs Hcs.
        destruct (within_provider_of st sender Hinv) as [_ Hc]. by eapply Hc.
      * apply Hinv.
  - intros Hlt this buyer ts amt. unfold purchaseStorage, provider_of.
    cbn [providers]. rewrite lookup_insert_eq.
    cbn [default from_option id allocatedStorage usedStorage isActive
         require mbind result_bind].
    fold (provider_of st sender). unfold sub.
    destruct (N.leb_spec (usedStorage (provider_of st sender)) storage);
      [lia|reflexivity].
Qed.

Lemma registerProvider_again_witness :
  getProviderDetails 1 (transact 99 one_file (RegisterProvider 1 1 6)) = (1, 2, 6, true) ∧
  purchaseStorage 99 7 1700000000 1 0 (transact 99 one_file (RegisterProvider 1 1 6))
  = Panic 0x11.
Proof.
  destruct (registerProvider_again 1 1 6 one_file
              (transact 99 one_file (RegisterProvider 1 1 6))
              [ProviderRegistered 1 1 6] eq_refl)
    as (Hdetails & _ & _ & _ & _ & Hpanic).
  split; [exact Hdetails|]. apply Hpanic. vm_compute. reflexivity.
Defined.

(** *** [distributeMiningRewards] *)

(** X10: the payout of a successful [distributeMiningRewards] is at most
    one token (10^18 base units) when the provider's sold capacity does
    not exceed its allocated storage, it is nothing when less than one
    percent is sold (the percentage is an integer division), and, the
    ledger recording nothing about it, a second call pays the same amount
    again. *)
Theorem mining_reward_bounds {T : IERC20} this sender (st st' : State) evs :
  distributeMiningRewards this sender st = Ok (st', evs) →
  let p := provider_of st sender in
  ∃ reward, evs = [MiningReward sender reward] ∧
    (usedStorage p <= allocatedStorage p → reward <= ether) ∧
    (usedStorage p * 100 < allocatedStorage p → reward = 0) ∧
    (∀ st'' evs', distributeMiningRewards this sender st' = Ok (st'', evs') → evs' = evs).
Proof.
  intros H. cbv zeta.
  pose proof (distributeMiningRewards_ok _ _ _ _ _ H) as (_ & Hne & -> & _ & Hp & _).
  eexists. split; [reflexivity|]. split; [|split].
  - intros Hle.
    assert (utilizationRate (provider_of st sender) <= 100).
    { unfold utilizationRate. apply N.Div0.div_le_upper_bound. lia. }
    unfold ether. change (10 ^ 18) with (100 * 10 ^ 16).
    by apply N.mul_le_mono_r.
  - intros Hlt. unfold utilizationRate. rewrite N.div_small by exact Hlt. reflexivity.
  - intros st'' evs' H'.
    apply distributeMiningRewards_ok in H' as (_ & _ & -> & _).
    unfold provider_of. by rewrite Hp.
Qed.

Lemma mining_reward_bounds_witness :
  ∃ reward, [MiningReward 1 200000000000000000] = [MiningReward 1 reward] ∧
    reward <= ether.
Proof.
  destruct (mining_reward_bounds 99 1 one_file one_file
              [MiningReward 1 200000000000000000] eq_refl)
    as (reward & Hevs & Hle & _).
  exists reward. split; [exact Hevs|]. apply Hle. vm_compute. discriminate.
Defined.


(** *** Nothing is released *)

Section Keeps.
Context {T : IERC20}.

Lemma keeps_refl (st : State) : keeps st st.
Proof. intros a. repeat split; done. Qed.

Lemma keeps_trans (st1 st2 st3 : State) : keeps st1 st2 → keeps st2 st3 → keeps st1 st3.
Proof.
  intros H12 H23 a. destruct (H12 a) as (A1 & U1 & L1 & K1), (H23 a) as (A2 & U2 & L2 & K2).
  split; [by eauto|]. split; [lia|]. split; [by etrans|].
  intros c. destruct (K1 c) as (a1 & u1 & p1 & f1), (K2 c) as (a2 & u2 & p2 & f2).
  split; [lia|]. split; [lia|]. split; [lia|]. by etrans.
Qed.

Lemma keeps_insert (st : State) tok a p' cids :
  (isActive (provider_of st a) = true → isActive p' = true) →
  usedStorage (provider_of st a) <= usedStorage p' →
  clients (provider_of st a) `prefix_of` clients p' →
  (∀ c, allocatedSpace (client_of (provider_of st a) c) <= allocatedSpace (client_of p' c) ∧
        usedSpace (client_of (provider_of st a) c) <= usedSpace (client_of p' c) ∧
        paymentAmount (client_of (provider_of st a) c) <= paymentAmount (client_of p' c) ∧
        storedFileCIDs (client_of (provider_of st a) c)
        `prefix_of` storedFileCIDs (client_of p' c)) →
  keeps st (mkState tok (<[a := p']> (providers st)) cids).
Proof.
  intros Hact Hused Hclients Hcs b. destruct (decide (b = a)) as [->|Hne].
  - unfold provider_of at 2 4 6 8 10 12 14. cbn [providers].
    rewrite lookup_insert_eq. cbn [default from_option id]. done.
  - assert (E : provider_of (mkState tok (<[a := p']> (providers st)) cids) b
                = provider_of st b).
    { unfold provider_of. cbn [providers]. by rewrite lookup_insert_ne. }
    rewrite E. repeat split; done.
Qed.

Lemma purchaseStorage_ok this sender ts prov amt (st st' : State) evs :
  purchaseStorage this sender ts prov amt st = Ok (st', evs) →
  let p := provider_of st prov in
  let cs := client_of p sender in
  ∃ tok',
    st' = mkState tok'
            (<[prov := mkProvider (providerAddress p) (allocatedStorage p)
                 (usedStorage p + amt) (pricePerGB p) (isActive p)
                 (if allocatedSpace cs =? 0 then clients p ++ [sender] else clients p)
                 (<[sender := mkClientStorage (allocatedSpace cs + amt) (usedSpace cs)
                      (paymentAmount cs + amt * pricePerGB p) ts
                      (storedFileCIDs cs) (fileSizes cs)]> (clientStorages p))]>
               (providers st))
            (cidToProvider st).
Proof.
  intros H. cbv zeta. unfold purchaseStorage in H.
  step H. step H. step H. step H. step H. step H. step H. step H. step H.
  apply mul_ok in Hx2 as [-> _].
  apply add_ok in Hx5 as ->. apply add_ok in Hx6 as ->. apply add_ok in Hx7 as ->.
  injection H as <- <-. by eexists.
Qed.

Lemma client_of_insert a s u pr act cl (m : gmap address ClientStorage) c cs c' :
  client_of (mkProvider a s u pr act cl (<[c := cs]> m)) c'
  = if decide (c' = c) then cs else default empty_client (m !! c').
Proof.
  unfold client_of. cbn [clientStorages]. rewrite lookup_insert.
  destruct (decide (c = c')), (decide (c' = c)); try done; congruence.
Qed.

Lemma transact_keeps this (st : State) c : keeps st (transact this st c).
Proof.
  unfold transact.
  destruct (call this c st) as [[st' evs]| |] eqn:E; [|apply keeps_refl..].
  destruct c; simpl in E.
  - unfold registerProvider in E. step E. step E. injection E as <- <-.
    apply keeps_insert; try done.
  - apply purchaseStorage_ok in E as (tok' & ->).
    apply keeps_insert; cbn [isActive usedStorage clients]; try done.
    + lia.
    + destruct (_ =? 0); [by apply prefix_app_r|done].
    + intros c.
      rewrite client_of_insert.
      case_decide as Hc; [subst c|].
      * cbn [allocatedSpace usedSpace paymentAmount storedFileCIDs].
        split; [lia|]. split; [lia|]. split; [lia|done].
      * fold (client_of (provider_of st _provider) c). done.
  - apply storeFile_ok in E as (units & _ & _ & _ & ->).
    apply keeps_insert; try done.
    + intros c. unfold set_client.
      rewrite client_of_insert.
      case_decide as Hc; [subst c|].
      * cbn [allocatedSpace usedSpace paymentAmount storedFileCIDs].
        split; [lia|]. split; [lia|]. split; [lia|by apply prefix_app_r].
      * fold (client_of (provider_of st _provider) c). done.
  - apply distributeMiningRewards_ok in E as (_ & _ & _ & _ & Hp & Hc).
    intros a. unfold provider_of. rewrite Hp. repeat split; done.
Qed.

End Keeps.

(** X11: the contract releases nothing.  Whatever transactions follow,
    by whomever: an active provider stays active, its sold capacity does
    not shrink, its client list is only extended; no client's allocation,
    usage or recorded payment decreases, and no file leaves a client's
    list (the list of CIDs is only extended at its end). *)
Theorem nothing_is_released {T : IERC20} this (cs : list Call) (st : State) :
  keeps st (run this cs st).
Proof.
  revert st. induction cs as [|c cs IH]; intros st; [apply keeps_refl|].
  simpl. eapply keeps_trans; [apply transact_keeps|apply IH].
Qed.

(** *** Calls that go through *)

Lemma allocatedSpace_le_total (p : Provider) c :
  allocatedSpace (client_of p c) <= total_allocated p.
Proof.
  unfold client_of, total_allocated.
  destruct (clientStorages p !! c) as [cs|] eqn:E; simpl; [|lia].
  rewrite <- (insert_delete_id (clientStorages p) c cs E).
  rewrite map_fold_insert_L; [lia| |by rewrite lookup_delete_eq].
  intros; lia.
Qed.

(** X12: a purchase within the free capacity goes through.  From a state
    the contract can reach, [purchaseStorage] from an active provider
    succeeds when the amount is within the provider's free capacity, the
    price of the amount and the buyer's total payments fit in 256 bits
    (as does the provider's capacity, a [uint256]), and the token moves
    the payment. *)
Theorem purchaseStorage_succeeds {T : IERC20} this sender ts prov amt (st : State) tok' :
  reachable st →
  let p := provider_of st prov in
  let payment := amt * pricePerGB p in
  isActive p = true →
  usedStorage p + amt <= allocatedStorage p →
  allocatedStorage p <= uint256_max →
  paymentAmount (client_of p sender) + payment <= uint256_max →
  erc20_transferFrom (aaiToken st) this sender this payment = Ok (tok', true) →
  ∃ st', purchaseStorage this sender ts prov amt st
         = Ok (st', [StoragePurchased sender prov payment]) ∧
         aaiToken st' = tok'.
Proof.
  intros Hreach. cbv zeta. intros Hact Hfree Hmax Hpay Htr.
  destruct (consistent_provider_of st prov (reachable_consistent st Hreach))
    as (Hused & _ & _).
  pose proof (allocatedSpace_le_total (provider_of st prov) sender) as Hle.
  unfold purchaseStorage. set (p := provider_of st prov) in *.
  rewrite Hact. cbn [require mbind result_bind].
  unfold sub. destruct (N.leb_spec (usedStorage p) (allocatedStorage p)); [|lia].
  cbn [mbind result_bind].
  destruct (N.leb_spec amt (allocatedStorage p - usedStorage p)); [|lia].
  cbn [require mbind result_bind].
  rewrite mul_in_range by lia. cbn [mbind result_bind].
  rewrite Htr. cbn [mbind result_bind snd require fst].
  unfold add.
  destruct (N.leb_spec (allocatedSpace (client_of p sender) + amt) uint256_max); [|lia].
  cbn [mbind result_bind].
  destruct (N.leb_spec (paymentAmount (client_of p sender) + amt * pricePerGB p)
              uint256_max); [|lia].
  cbn [mbind result_bind].
  destruct (N.leb_spec (usedStorage p + amt) uint256_max); [|lia].
  cbn [mbind result_bind]. by eexists.
Qed.

Lemma purchaseStorage_succeeds_witness :
  ∃ st', purchaseStorage 99 8 1700000100 1 3 one_file
         = Ok (st', [StoragePurchased 8 1 15]) ∧ aaiToken st' = tt.
Proof.
  apply (purchaseStorage_succeeds 99 8 1700000100 1 3 one_file tt one_file_reachable).
  - reflexivity.
  - vm_compute. discriminate.
  - vm_compute. discriminate.
  - vm_compute. discriminate.
  - reflexivity.
Defined.

(** X13: an empty file needs no purchase.  From a state the contract can
    reach, [storeFile] with size 0 succeeds for every caller, provider and
    CID (short of a full 256-bit usage counter), and points the CID to
    the named provider.  When the caller is not listed as a client of
    that provider and no client of it holds the CID, [getFileDetails] of
    the CID then reverts with "File not found or access denied", whatever
    the CID pointed to before. *)
Theorem empty_file_needs_no_purchase {T : IERC20} sender prov cid (st : State) :
  reachable st →
  allocatedSpace (client_of (provider_of st prov) sender) <= uint256_max →
  ∃ st', storeFile sender prov cid 0 st = Ok (st', [FileStored sender prov cid]) ∧
         provider_of_cid st' cid = prov ∧
         (prov ≠ address0 →
          sender ∉ clients (provider_of st prov) →
          (∀ c, c ∈ clients (provider_of st prov) →
                cid ∉ storedFileCIDs (client_of (provider_of st prov) c)) →
          getFileDetails cid st' = Revert "File not found or access denied").
Proof.
  intros Hreach Hmax.
  destruct (consistent_provider_of st prov (reachable_consistent st Hreach))
    as (_ & _ & Hclients).
  assert (Hle : usedSpace (client_of (provider_of st prov) sender)
                <= allocatedSpace (client_of (provider_of st prov) sender)).
  { unfold client_of.
    destruct (clientStorages (provider_of st prov) !! sender) as [cs|] eqn:E; simpl.
    - by apply (Hclients sender cs E).
    - lia. }
  unfold storeFile. set (p := provider_of st prov) in *.
  change (storeFile_fileSizeGB 0) with (Ok 0 : result N).
  cbn [mbind result_bind]. unfold add. rewrite N.add_0_r.
  destruct (N.leb_spec (usedSpace (client_of p sender)) uint256_max); [|lia].
  cbn [mbind result_bind].
  destruct (N.leb_spec (usedSpace (client_of p sender))
              (allocatedSpace (client_of p sender))); [|lia].
  cbn [require mbind result_bind].
  eexists. split; [reflexivity|].
  split; [unfold provider_of_cid; cbn [cidToProvider]; by rewrite lookup_insert_eq|].
  intros Hprov Hsender Hnone.
  unfold getFileDetails, provider_of_cid, provider_of. cbn [cidToProvider providers].
  rewrite !lookup_insert_eq. cbn [default from_option id].
  destruct (N.eqb_spec prov address0) as [|_]; [done|].
  cbn [negb require mbind result_bind].
  rewrite find_owner_none; [reflexivity|reflexivity|].
  intros c Hc. unfold set_client, client_of. cbn [clients clientStorages] in *.
  rewrite lookup_insert_ne by (intros ->; by apply Hsender).
  by apply Hnone.
Qed.

Lemma empty_file_needs_no_purchase_witness :
  ∃ st', storeFile 8 2 "QmFile" 0 one_file = Ok (st', [FileStored 8 2 "QmFile"]) ∧
         getFileDetails "QmFile" st' = Revert "File not found or access denied".
Proof.
  destruct (empty_file_needs_no_purchase 8 2 "QmFile" one_file one_file_reachable)
    as (st' & Hstore & _ & Hlookup).
  - vm_compute. discriminate.
  - exists st'. split; [exact Hstore|]. apply Hlookup.
    + discriminate.
    + intros H. by apply elem_of_nil in H.
    + intros c H. by apply elem_of_nil in H.
Defined.

End LedgerRunFacts.

(** ** The index tables and the provider's heartbeat *)

Module TablesFacts.
Import JS Effects Index Tables IndexFacts.
Local Open Scope list_scope.
Local Open Scope Z_scope.

Lemma positive_true q : positive q = true ↔ (0 < q)%Q.
Proof.
  unfold positive. destruct (Qlt_le_dec 0 q) as [H|H]; split; try done.
  intros H'. exfalso. by apply (Qlt_not_le _ _ H').
Qed.

Lemma positive_inject_Z z : positive (inject_Z z) = true ↔ 0 < z.
Proof. rewrite positive_true. change 0%Q with (inject_Z 0). by rewrite <- Zlt_Qlt. Qed.

Lemma positive_minus a b : positive (a - b)%Q = true ↔ (b < a)%Q.
Proof.
  rewrite positive_true. rewrite (Qlt_minus_iff b a). unfold Qminus. tauto.
Qed.

Lemma truthy_true s : truthy s = true ↔ s ≠ EmptyString.
Proof. destruct s; simpl; split; congruence. Qed.

Lemma updateProviderStorage_elem now id allocated available price active table r' :
  r' ∈ updateProviderStorage now id allocated available price active table ↔
  ∃ r, r ∈ table ∧
       r' = if String.eqb (provider_id r) id
            then mkProviderRow (provider_id r) (wallet_address r)
                   (default (allocated_storage r) allocated)
                   (default (price_per_gb r) price)
                   (Some (default true active)) (total_storage r)
                   (default (available_storage r) available) (Some now)
            else r.
Proof.
  unfold updateProviderStorage. rewrite list_elem_of_fmap.
  split; intros (r & H1 & H2); exists r; done.
Qed.

(** A row refreshed with an activity flag that is absent or [true]. *)
Lemma refreshed_row_listed now now' providerId allocated available price active table r :
  r ∈ table → provider_id r = providerId → default true active = true →
  let refreshed :=
    mkProviderRow providerId (wallet_address r) allocated
      (default (price_per_gb r) price) (Some true) (total_storage r) available
      (Some now) in
  refreshed ∈ updateProviderStorage now providerId (Some allocated) (Some available)
                price active table ∧
  (refreshed ∈ default []
     (getActiveProviders now'
        (Some (updateProviderStorage now providerId (Some allocated) (Some available)
                 price active table)))
   ↔ now' <= now + interval ∧ (0 < allocated)%Q ∧ (0 < available)%Q ∧
     (0 < default (price_per_gb r) price)%Q ∧ wallet_address r ≠ EmptyString).
Proof.
  intros Hr Hid Hactive. cbv zeta.
  set (refreshed := mkProviderRow _ _ _ _ _ _ _ _).
  assert (Hin : refreshed ∈ updateProviderStorage now providerId (Some allocated)
                  (Some available) price active table).
  { apply updateProviderStorage_elem.
    exists r. split; [exact Hr|].
    apply String.eqb_eq in Hid as Hid'. rewrite Hid', Hactive.
    cbn [default from_option id]. unfold refreshed. by rewrite Hid. }
  split; [exact Hin|].
  rewrite getActiveProviders_elem, returned_iff.
  unfold valid_provider, eq_is_active, gte_last_updated, refreshed, interval.
  cbn [allocated_storage available_storage price_per_gb wallet_address is_active
       last_updated].
  rewrite !andb_true_iff, !positive_true, truthy_true, Z.leb_le.
  split.
  - intros (_ & (((? & ?) & ?) & ?) & _ & ?). repeat split; try done. lia.
  - intros (? & ? & ? & ? & ?). repeat split; try done. lia.
Qed.



(** X15: the sign-off.  After [cleanupProviderStatus] the provider is not
    returned by [getActiveProviders] at any later (or earlier) time, and
    the other providers are returned exactly as before. *)
Theorem cleanup_hides_the_provider now now' providerId (db : Db) r :
  r ∈ default []
        (getActiveProviders now' (Some (providers (cleanupProviderStatus now providerId db))))
  ↔ r ∈ default [] (getActiveProviders now' (Some (providers db))) ∧ provider_id r ≠ providerId.
Proof.
  rewrite !getActiveProviders_elem. unfold cleanupProviderStatus. cbn [providers].
  rewrite updateProviderStorage_elem. split.
  - intros ((r0 & Hr0 & ->) & Hret).
    destruct (String.eqb (provider_id r0) providerId) eqn:E.
    + exfalso. apply returned_iff in Hret as [_ Hret].
      unfold eq_is_active in Hret. simpl in Hret. discriminate.
    + apply String.eqb_neq in E. done.
  - intros ((Hr & Hret) & Hid). split; [|exact Hret].
    exists r. split; [exact Hr|].
    apply String.eqb_neq in Hid. by rewrite Hid.
Qed.

Lemma existsb_cid_false (files : list StoredFile) c :
  existsb (fun f => String.eqb (cid f) c) files = false →
  filter (fun f => cid f = c) files = [].
Proof.
  intros H. induction files as [|f files IH]; [reflexivity|].
  simpl in H. apply orb_false_iff in H as [Hf H].
  apply String.eqb_neq in Hf.
  rewrite filter_cons. case_decide; [done|]. by apply IH.
Qed.

(** X16: a tracked file is found again.  When [trackFileStorage] accepts a
    row, the CID was not in the index and its provider is; afterwards the
    lookup by CID that [downloadFile] sends answers with exactly this row,
    the provider's files are those it had followed by this row, the files
    of other providers and lookups of other CIDs are as before, and a
    second row with the same CID is refused. *)
Theorem tracked_file_is_selected (row : StoredFile) (db db' : Db) :
  trackFileStorage row db = Some db' →
  select_file (cid row) db = Error ∧
  (∃ p, p ∈ providers db ∧ provider_id p = file_provider_id row) ∧
  select_file (cid row) db' = Data row ∧
  getProviderFiles (file_provider_id row) db'
  = getProviderFiles (file_provider_id row) db ++ [row] ∧
  (∀ p, p ≠ file_provider_id row → getProviderFiles p db' = getProviderFiles p db) ∧
  (∀ c, c ≠ cid row → select_file c db' = select_file c db) ∧
  providers db' = providers db ∧
  (∀ row', cid row' = cid row → trackFileStorage row' db' = None).
Proof.
  unfold trackFileStorage.
  destruct (existsb _ (stored_files db)) eqn:Hcid; [discriminate|].
  destruct (existsb _ (providers db)) eqn:Hprov; [|discriminate].
  intros [= <-]. apply existsb_cid_false in Hcid as Hnone.
  split; [unfold select_file; by rewrite Hnone|].
  split.
  { apply existsb_exists in Hprov as (p & Hp & Heq).
    exists p. split; [by apply list_elem_of_In|]. by apply String.eqb_eq. }
  split.
  { unfold select_file. cbn [stored_files]. rewrite filter_app, Hnone.
    rewrite filter_cons, decide_True by done. reflexivity. }
  split.
  { unfold getProviderFiles. cbn [stored_files].
    rewrite filter_app, filter_cons, decide_True by done. by rewrite filter_nil. }
  split.
  { intros p Hp. unfold getProviderFiles. cbn [stored_files].
    rewrite filter_app, filter_cons, decide_False by done.
    by rewrite filter_nil, app_nil_r. }
  split.
  { intros c Hc. unfold select_file. cbn [stored_files].
    rewrite filter_app, filter_cons, decide_False by done.
    by rewrite filter_nil, app_nil_r. }
  split; [reflexivity|].
  intros row' Heq. cbn [stored_files].
  rewrite existsb_app. cbn [existsb]. rewrite Heq, String.eqb_refl.
  by rewrite orb_true_r.
Qed.

Lemma tracked_file_is_selected_witness :
  select_file "QmFile" (mkDb [row_complete] [sample_file]) = Data sample_file.
Proof.
  apply (tracked_file_is_selected sample_file sample_db
           (mkDb [row_complete] [sample_file]) eq_refl).
Defined.

End TablesFacts.

(** ** Provider discovery and the prompts of [startClient] *)

Module DiscoveryFacts.
Import JS Effects Index Discovery IndexFacts TablesFacts.
Local Open Scope list_scope.
Local Open Scope Z_scope.

(** The providers one attempt finds valid. *)
Lemma valid_at_attempt (a : Attempt) p :
  p ∈ filter (fun p => isActive (checked a) p = true)
        (getOnlineProviders (asked a) (table a))
  ↔ ∃ rows r,
      table a = Some rows ∧ r ∈ rows ∧ returned (asked a) r ∧
      provider_id r ≠ EmptyString ∧
      (∃ t, last_updated r = Some t ∧ checked a - 300000 < t) ∧
      p = mkOnlineProvider (provider_id r) (wallet_address r) (allocated_storage r)
            (price_per_gb r) (default 0 (last_updated r)).
Proof.
  rewrite list_elem_of_filter. unfold getOnlineProviders.
  destruct (table a) as [rows|]; simpl.
  - rewrite list_elem_of_fmap. split.
    + intros (Hact & r & -> & Hr).
      apply (getActiveProviders_elem (asked a) rows r) in Hr as [Hr Hret].
      exists rows, r. split; [done|]. split; [done|]. split; [done|].
      unfold isActive in Hact. simpl in Hact.
      rewrite !andb_true_iff, Z.ltb_lt, truthy_true in Hact.
      destruct Hact as ((((Hid & _) & _) & _) & Hseen).
      split; [done|]. split; [|done].
      apply returned_iff in Hret as [_ Hret].
      apply andb_true_iff in Hret as [_ Hret]. unfold gte_last_updated in Hret.
      destruct (last_updated r) as [t|]; [|done]. by exists t.
    + intros (rows' & r & [= <-] & Hr & Hret & Hid & (t & Ht & Hseen) & ->).
      split.
      * unfold isActive. simpl.
        pose proof Hret as Hret'. apply returned_iff in Hret' as [Hvalid _].
        unfold valid_provider in Hvalid. rewrite !andb_true_iff in Hvalid.
        destruct Hvalid as (((Halloc & _) & Hprice) & Hwallet).
        rewrite !andb_true_iff, Z.ltb_lt. rewrite Ht. simpl.
        split; [split; [split; [split|]|]|].
        -- by apply truthy_true.
        -- exact Hwallet.
        -- exact Halloc.
        -- unfold number_truthy. apply negb_true_iff, not_true_is_false.
           intros Heq. apply Qeq_bool_eq in Heq.
           apply positive_true in Hprice. rewrite Heq in Hprice.
           by apply Qlt_irrefl in Hprice.
        -- exact Hseen.
      * exists r. split; [done|].
        by apply (getActiveProviders_elem (asked a) rows r).
  - split; [intros [_ H]; by apply elem_of_nil in H|].
    intros (rows & r & [=] & _).
Qed.

Lemma retry_spec world i n :
  match retry world i n with
  | Some l =>
      l ≠ [] ∧
      ∃ k, (k < n)%nat ∧
           l = filter (fun p => isActive (checked (world (i + k)%nat)) p = true)
                 (getOnlineProviders (asked (world (i + k)%nat))
                    (table (world (i + k)%nat))) ∧
           ∀ j, (j < k)%nat →
                filter (fun p => isActive (checked (world (i + j)%nat)) p = true)
                  (getOnlineProviders (asked (world (i + j)%nat))
                     (table (world (i + j)%nat))) = []
  | None =>
      ∀ j, (j < n)%nat →
           filter (fun p => isActive (checked (world (i + j)%nat)) p = true)
             (getOnlineProviders (asked (world (i + j)%nat))
                (table (world (i + j)%nat))) = []
  end.
Proof.
  revert i. induction n as [|n IH]; intros i; simpl; [intros j Hj; lia|].
  destruct (filter _ (getOnlineProviders (asked (world i)) (table (world i))))
    as [|p l] eqn:E.
  - specialize (IH (S i)). destruct (retry world (S i) n) as [l'|].
    + destruct IH as (Hne & k & Hk & Hl & Hbefore). split; [exact Hne|].
      exists (S k). split; [lia|].
      replace (i + S k)%nat with (S i + k)%nat by lia. split; [exact Hl|].
      intros [|j] Hj; [by rewrite Nat.add_0_r|].
      replace (i + S j)%nat with (S i + j)%nat by lia. apply Hbefore. lia.
    + intros [|j] Hj; [by rewrite Nat.add_0_r|].
      replace (i + S j)%nat with (S i + j)%nat by lia. apply IH. lia.
  - split; [done|]. exists 0%nat. split; [lia|].
    rewrite Nat.add_0_r. split; [by rewrite E|]. intros j Hj. lia.
Qed.

(** In the sample world the first attempt fails and the second offers the
    complete row. *)
Lemma sample_world_offers :
  getProvidersWithRetry sample_world
  = Some [mkOnlineProvider "c9d0e1f2" "0x52908400098527886E0F7030069857D2E4169EE7"
            (20 # 1) (10 # 1) 1699999999000].
Proof. vm_compute. reflexivity. Qed.

(** X17: [getProvidersWithRetry] asks the index at most three times and
    resolves to what the first attempt with a valid provider found, a list
    that is never empty; it throws exactly when none of the three attempts
    finds a valid provider (a failed query counts as an empty answer).
    Every provider it offers comes from a row that [getActiveProviders]
    returned at that attempt, has an identifier that is not empty, and was
    refreshed less than five minutes before the client validated it; every
    such row of that attempt is offered. *)
Theorem getProvidersWithRetry_offers (world : nat → Attempt) :
  let valid i := filter (fun p => isActive (checked (world i)) p = true)
                   (getOnlineProviders (asked (world i)) (table (world i))) in
  match getProvidersWithRetry world with
  | Some offered =>
      offered ≠ [] ∧
      ∃ i, (i < 3)%nat ∧ offered = valid i ∧ (∀ j, (j < i)%nat → valid j = []) ∧
           ∀ p, p ∈ offered ↔
                ∃ rows r,
                  table (world i) = Some rows ∧ r ∈ rows ∧
                  returned (asked (world i)) r ∧ provider_id r ≠ EmptyString ∧
                  (∃ t, last_updated r = Some t ∧ checked (world i) - 300000 < t) ∧
                  p = mkOnlineProvider (provider_id r) (wallet_address r)
                        (allocated_storage r) (price_per_gb r)
                        (default 0 (last_updated r))
  | None => ∀ i, (i < 3)%nat → valid i = []
  end.
Proof.
  cbv zeta. unfold getProvidersWithRetry.
  pose proof (retry_spec world 0 3) as H.
  destruct (retry world 0 3) as [offered|]; [|exact H].
  destruct H as (Hne & k & Hk & Hl & Hbefore). split; [exact Hne|].
  exists k. simpl in Hl, Hbefore. split; [exact Hk|]. split; [exact Hl|].
  split; [exact Hbefore|].
  intros p. rewrite Hl. apply valid_at_attempt.
Qed.

(** X18: a file that passed the prompts fits the provider.  When the
    storage prompt accepted the amount and the file prompt accepted the
    file against that amount, the upload block does not stop at its own
    size check, as long as the file still has the size it had. *)
Theorem accepted_file_fits_the_provider {L : Crypto.CryptoJS} (u : Client.Upload)
    (file : bytes) (storage : Q) :
  storage_accepted (Some storage) (Client.up_providerStorage u) = true →
  Client.filePath_accepted (N.of_nat (length file)) storage = true →
  (Client.startClient_upload (Client.with_file u file)).2
  ≠ Client.ExceedsProviderStorage.
Proof.
  unfold storage_accepted, Client.filePath_accepted.
  destruct (Qlt_le_dec 0 storage) as [_|]; [|discriminate].
  destruct (Qlt_le_dec (Client.up_providerStorage u) storage) as [|Hle1]; [discriminate|].
  destruct (Qlt_le_dec storage _) as [|Hle2]; [discriminate|].
  intros _ _.
  unfold Client.startClient_upload, Client.with_file. cbn [Client.up_file].
  destruct (Client.encryptFile _ _ _ _ _ _); [|discriminate].
  cbn [Client.up_providerStorage].
  destruct (Qlt_le_dec _ _) as [Hlt|_].
  - exfalso. apply (Qlt_not_le _ _ Hlt). by eapply Qle_trans.
  - destruct (Client.up_add _ _); [|discriminate].
    destruct (Client.up_track _ _); [|discriminate].
    destruct (Client.up_storeFile _ _ _ _); discriminate.
Qed.

Lemma accepted_file_fits_the_provider_witness :
  (Client.startClient_upload (L := Crypto.cleartext)
     (Client.with_file Roundtrip.sample_upload [104%N; 105%N])).2
  ≠ Client.ExceedsProviderStorage.
Proof.
  apply (accepted_file_fits_the_provider (L := Crypto.cleartext)
           Roundtrip.sample_upload [104%N; 105%N] (2 # 1)).
  - reflexivity.
  - reflexivity.
Defined.

End DiscoveryFacts.

(** ** The requests of a download *)

Module DownloadOrderFacts.
Import JS Crypto Effects Download DownloadOrder DownloadFacts.
Local Open Scope list_scope.

Section Facts.
Context {L : CryptoJS}.

(** A run that fails on the key fails with an exception. *)
Lemma resolve_privateKey_inl_Thrown e f :
  outcome (resolve_privateKey e) = inl f → f = Thrown.
Proof.
  unfold resolve_privateKey. repeat case_match; simpl; congruence.
Qed.


(** X20: a CID the index does not hold stops the download at the first
    lookup: when no row of [stored_files] has the CID entered, the run
    asks the wallet and the index and nothing else (neither the content
    store nor the ledger), and ends with 'Failed to verify file in
    database' unless the key or the wallet already failed. *)
Theorem untracked_cid_stops_the_download (e : Env) (db : Tables.Db) :
  answered_from db e →
  (∀ f, f ∈ Tables.stored_files db → cid f ≠ cid_entered e) →
  trace (downloadFile e)
  `prefix_of` [RpcGetAccounts; RpcNetId; IndexSelectFile (cid_entered e) "*"] ∧
  (outcome (downloadFile e) = inl DatabaseCheckFailed ∨
   outcome (downloadFile e) = inl Thrown) ∧
  (∀ k walletAddress,
     resolve_privateKey e = mret k → accounts e = Some walletAddress →
     is_Some (netId e) →
     downloadFile e
     = mkRun [RpcGetAccounts; RpcNetId; IndexSelectFile (cid_entered e) "*"]
             (inl DatabaseCheckFailed)).
Proof.
  intros (Hdb & _ & _) Hnone.
  assert (Herr : dbCheck e = Error).
  { rewrite Hdb. unfold Tables.select_file.
    replace (filter _ (Tables.stored_files db)) with (@nil StoredFile); [done|].
    symmetry. induction (Tables.stored_files db) as [|f files IH]; [reflexivity|].
    rewrite filter_cons, decide_False.
    - apply IH. intros f' Hf'. apply Hnone. by right.
    - apply Hnone. by left. }
  unfold downloadFile. rewrite Herr.
  pose proof (resolve_privateKey_trace e) as Htr.
  destruct (resolve_privateKey e) as [tr [f|k]] eqn:Hres; simpl in Htr; subst tr.
  { assert (f = Thrown) as ->
      by (apply (resolve_privateKey_inl_Thrown e); by rewrite Hres).
    split; [simpl; by eexists|]. split; [by right|intros ? ? [=]]. }
  unfold mbind at 1, Run_bind at 1. cbn [outcome trace app].
  destruct (accounts e) as [walletAddress|]; [|simpl; split; [by eexists|split; [by right|intros ? ? _ [=]]]].
  destruct (netId e) as [net|]; [|simpl; split; [by eexists|split; [by right|intros ? ? _ _ [? [=]]]]].
  simpl. split; [by eexists|]. split; [by left|].
  intros k' w' _ _ _. reflexivity.
Qed.

End Facts.

Lemma untracked_cid_stops_the_download_witness :
  downloadFile (L := cleartext) untracked_env
  = mkRun [RpcGetAccounts; RpcNetId; IndexSelectFile "QmMissing" "*"]
          (inl DatabaseCheckFailed).
Proof.
  apply (proj2 (proj2 (untracked_cid_stops_the_download (L := cleartext) untracked_env
                         Tables.sample_db
                         ltac:(repeat split; reflexivity)
                         ltac:(intros f Hf; by apply elem_of_nil in Hf)))
           "4c0883a69102937d6231471b5dbb6204fe5129617082792ae468d01a3f362318"
           (Some sample_owner)).
  - reflexivity.
  - reflexivity.
  - by eexists.
Defined.

End DownloadOrderFacts.

(** ** The credential store and the prompts *)

Module KeystoreUseFacts.
Import JS Crypto Effects Keystore Download.
Local Open Scope list_scope.

(** X21: clearing the credential store.  When [clearPrivateKey] reports
    success, [loadPrivateKey] finds nothing afterwards, so the next
    [downloadFile] takes the key typed at the prompt (and throws when
    none is typed) and leaves in the store what [savePrivateKey] of the
    typed key leaves; when [clearPrivateKey] reports failure there was a
    file and it is as it was.  A [savePrivateKey] that reports failure
    has left the file as it was when the encryption threw or the file
    could not be opened; when the write failed after the file was opened,
    the file holds an initial part of the new text, and the old content
    is gone. *)
Theorem cleared_key_is_asked_again {L : CryptoJS} (fs : Files) :
  ((clearPrivateKey fs).2 = true →
     loadPrivateKey (clearPrivateKey fs).1 = None ∧
     ∀ e, keystore e = (clearPrivateKey fs).1 →
          resolve_privateKey e
          = match prompted_key e with
            | Some k => if truthy k then mret k else fail Thrown
            | None => fail Thrown
            end ∧
          ∀ k, prompted_key e = Some k → truthy k = true →
               keystore_after e = (savePrivateKey k (save_entropy e) (keystore e)).1) ∧
  ((clearPrivateKey fs).2 = false →
     (clearPrivateKey fs).1 = fs ∧ is_Some (keystore_file fs)) ∧
  (∀ k entropy, (savePrivateKey k entropy fs).2 = false →
     (savePrivateKey k entropy fs).1 = fs ∨
     ∃ encrypted written,
       AES_encrypt (Str k) (Str ENCRYPTION_KEY) no_cfg entropy = Some encrypted ∧
       write_outcome fs = WriteFails written ∧
       keystore_file (savePrivateKey k entropy fs).1
       = Some (substring 0 written (CipherParams_toString encrypted))).
Proof.
  split; [|split].
  - intros Hok.
    assert (Hnone : loadPrivateKey (clearPrivateKey fs).1 = None).
    { unfold clearPrivateKey in *.
      destruct (keystore_file fs) eqn:E.
      - destruct (removable fs); [reflexivity|discriminate].
      - unfold loadPrivateKey. simpl. by rewrite E. }
    split; [exact Hnone|].
    intros e He. split.
    + unfold resolve_privateKey. by rewrite He, Hnone.
    + intros k Hk Ht. unfold keystore_after. by rewrite He, Hnone, <- He, Hk, Ht.
  - unfold clearPrivateKey. destruct (keystore_file fs); [|done].
    destruct (removable fs); [discriminate|]. intros _. split; [done|by eexists].
  - intros k entropy. unfold savePrivateKey.
    destruct (AES_encrypt _ _ _ _) as [encrypted|]; [|by left].
    destruct (write_outcome fs) as [| |written] eqn:Hw; [discriminate|by left|].
    intros _. right. by exists encrypted, written.
Qed.

End KeystoreUseFacts.

(** ** Reading the disk report *)

Module DiskReportFacts.
Import JS Provider DiskReport.
Local Open Scope list_scope.
Local Open Scope Z_scope.

Lemma trimStart_blank ws s : blank ws → trimStart (ws ++ s) = trimStart s.
Proof.
  induction 1 as [|c ws Hc _ IH]; [reflexivity|]. simpl. by rewrite Hc.
Qed.

Lemma trimStart_word c s : is_space c = false → trimStart (c :: s) = c :: s.
Proof. intros H. simpl. by rewrite H. Qed.

Lemma trimStart_all_blank ws : blank ws → trimStart ws = [].
Proof. intros H. rewrite <- (app_nil_r ws). by rewrite trimStart_blank. Qed.

Lemma blank_rev ws : blank ws → blank (rev ws).
Proof. apply Forall_rev. Qed.

(** [trim] removes the white space around a text that starts and ends
    with other characters. *)
Lemma trim_core lead trail first middle last :
  blank lead → blank trail → is_space first = false → is_space last = false →
  trim (string_of_list_ascii (lead ++ (first :: middle ++ [last]) ++ trail))
  = string_of_list_ascii (first :: middle ++ [last]).
Proof.
  intros Hlead Htrail Hfirst Hlast. unfold trim.
  rewrite list_ascii_of_string_of_list_ascii.
  rewrite trimStart_blank by done.
  assert (H1 : trimStart ((first :: middle ++ [last]) ++ trail)
               = (first :: middle ++ [last]) ++ trail).
  { simpl. by rewrite Hfirst. }
  rewrite H1, rev_app_distr, trimStart_blank by (by apply blank_rev).
  assert (H2 : rev (first :: middle ++ [last]) = last :: rev (first :: middle)).
  { change (first :: middle ++ [last]) with ((first :: middle) ++ [last]).
    by rewrite rev_app_distr. }
  rewrite H2. rewrite trimStart_word by done.
  change (rev (last :: rev (first :: middle)))
    with (rev (rev (first :: middle)) ++ [last]).
  by rewrite rev_involutive.
Qed.

Lemma trim_single lead trail c :
  blank lead → blank trail → is_space c = false →
  trim (string_of_list_ascii (lead ++ [c] ++ trail)) = string_of_list_ascii [c].
Proof.
  intros Hlead Htrail Hc. unfold trim.
  rewrite list_ascii_of_string_of_list_ascii.
  rewrite trimStart_blank by done. simpl app. rewrite trimStart_word by done.
  simpl rev. rewrite trimStart_blank by (by apply blank_rev).
  simpl. by rewrite Hc.
Qed.

Lemma trim_blank ws : blank ws → trim (string_of_list_ascii ws) = EmptyString.
Proof.
  intros H. unfold trim. rewrite list_ascii_of_string_of_list_ascii.
  rewrite (trimStart_all_blank ws H). reflexivity.
Qed.

(** A text that starts and ends with characters that are not white space:
    its first, its inner and its last character. *)
Lemma ends_of (s : list ascii) :
  s ≠ [] → (∃ c, s = [c]) ∨ (∃ first middle last, s = first :: middle ++ [last]).
Proof.
  destruct s as [|first s]; [done|]. intros _.
  destruct (decide (s = [])) as [->|Hne]; [left; by eexists|].
  right. destruct (exists_last Hne) as (middle & last & ->). by eexists _, _, _.
Qed.

Lemma split_word b cur w rest :
  word w → w ≠ [] →
  split_spaces_from b cur (w ++ rest) = split_spaces_from false (rev w ++ cur) rest.
Proof.
  intros Hw. revert b cur. induction Hw as [|c w Hc Hw IH]; intros b cur Hne; [done|].
  simpl. rewrite Hc. destruct w as [|c' w'].
  - reflexivity.
  - rewrite IH by done. by rewrite <- app_assoc.
Qed.

Lemma split_gap cur gap rest :
  blank gap → gap ≠ [] →
  split_spaces_from false cur (gap ++ rest)
  = string_of_list_ascii (rev cur) :: split_spaces_from true [] rest.
Proof.
  intros Hgap Hne. destruct Hgap as [|c gap Hc Hgap]; [done|].
  simpl. rewrite Hc. f_equal. clear Hne Hc.
  induction Hgap as [|c' gap Hc' _ IH]; [reflexivity|]. simpl. by rewrite Hc'.
Qed.

Lemma digit_char_not_space d : (d < 10)%N → is_space (digit_char d) = false.
Proof.
  intros H. assert (d = 0 ∨ d = 1 ∨ d = 2 ∨ d = 3 ∨ d = 4 ∨ d = 5 ∨ d = 6 ∨ d = 7
                    ∨ d = 8 ∨ d = 9)%N as Hd by lia.
  repeat destruct Hd as [->|Hd]; try reflexivity. by subst.
Qed.

Lemma digit_value_digit_char d :
  (d < 10)%N → digit_value 10 (digit_char d) = Some (Z.of_N d).
Proof.
  intros H. assert (d = 0 ∨ d = 1 ∨ d = 2 ∨ d = 3 ∨ d = 4 ∨ d = 5 ∨ d = 6 ∨ d = 7
                    ∨ d = 8 ∨ d = 9)%N as Hd by lia.
  repeat destruct Hd as [->|Hd]; try reflexivity. by subst.
Qed.

Lemma parse_digits_decimal digits acc :
  Forall (fun d => (d < 10)%N) digits →
  parse_digits 10 (Some acc) (map digit_char digits)
  = Some (fold_left (fun acc d => acc * 10 + Z.of_N d) digits acc).
Proof.
  intros H. revert acc. induction H as [|d digits Hd _ IH]; intros acc; [reflexivity|].
  simpl. rewrite digit_value_digit_char by done. simpl. apply IH.
Qed.

(** The integers up to 2^53 are doubles. *)
Lemma to_double_small z : Z.abs z <= 2 ^ 53 → to_double z = z.
Proof.
  intros H. unfold to_double. cbv zeta.
  destruct (Z.leb_spec (Z.abs z) (2 ^ 53)); [reflexivity|lia].
Qed.

Lemma decimal_value_from digits acc :
  0 <= acc → 0 <= fold_left (fun acc d => acc * 10 + Z.of_N d) digits acc.
Proof.
  revert acc. induction digits as [|d digits IH]; intros acc Hacc; simpl; [done|].
  apply IH. lia.
Qed.

Lemma decimal_value_nonneg digits : 0 <= decimal_value digits.
Proof. by apply decimal_value_from. Qed.

Lemma freeGB_nonneg l : 0 <= freeGB l.
Proof.
  destruct l; simpl; [|done].
  apply Z.div_pos; [apply decimal_value_nonneg|done].
Qed.

Lemma total_freeGB_nonneg (lines : list Line) :
  0 <= foldr (fun l sum => freeGB l + sum) 0 lines.
Proof.
  induction lines as [|l lines IH]; simpl; [done|].
  pose proof (freeGB_nonneg l). lia.
Qed.

(** [parseInt] reads a field of decimal digits as the number it denotes,
    as long as that number is a double. *)
Lemma parseInt_decimal digits :
  Forall (fun d => (d < 10)%N) digits → digits ≠ [] →
  decimal_value digits <= 2 ^ 53 →
  parseInt (string_of_list_ascii (map digit_char digits)) = Some (decimal_value digits).
Proof.
  intros H Hne Hmax. pose proof (decimal_value_nonneg digits) as Hmin.
  unfold parseInt. rewrite list_ascii_of_string_of_list_ascii.
  destruct H as [|d digits Hd H]; [done|].
  assert (Hrest : parse_digits 10 None (map digit_char (d :: digits))
                  = Some (decimal_value (d :: digits))).
  { simpl. rewrite digit_value_digit_char by done. simpl.
    by rewrite parse_digits_decimal. }
  assert (d = 0 ∨ d = 1 ∨ d = 2 ∨ d = 3 ∨ d = 4 ∨ d = 5 ∨ d = 6 ∨ d = 7
          ∨ d = 8 ∨ d = 9)%N as Hd' by lia.
  destruct H as [|d2 digits Hd2 H].
  - clear Hmax Hmin. repeat destruct Hd' as [->|Hd']; try reflexivity. by subst.
  - assert (d2 = 0 ∨ d2 = 1 ∨ d2 = 2 ∨ d2 = 3 ∨ d2 = 4 ∨ d2 = 5 ∨ d2 = 6 ∨ d2 = 7
            ∨ d2 = 8 ∨ d2 = 9)%N as Hd2' by lia.
    assert (Hs : trimStart (map digit_char (d :: d2 :: digits))
                 = map digit_char (d :: d2 :: digits)).
    { apply trimStart_word. by apply digit_char_not_space. }
    rewrite Hs.
    assert (Hshape :
      (let '(sign, s2) :=
         match map digit_char (d :: d2 :: digits) with
         | "-"%char :: r => (-1, r)
         | "+"%char :: r => (1, r)
         | _ => (1, map digit_char (d :: d2 :: digits))
         end in
       let '(radix, s3) :=
         match s2 with
         | "0"%char :: "x"%char :: r => (16, r)
         | "0"%char :: "X"%char :: r => (16, r)
         | _ => (10, s2)
         end in
       match parse_digits radix None s3 with
       | Some v => Some (to_double (sign * v))
       | None => None
       end)
      = match parse_digits 10 None (map digit_char (d :: d2 :: digits)) with
        | Some v => Some (to_double (1 * v))
        | None => None
        end).
    { clear Hmax Hmin Hrest.
      repeat destruct Hd' as [->|Hd']; try subst d;
        repeat destruct Hd2' as [->|Hd2']; try subst d2; reflexivity. }
    refine (eq_trans Hshape _). rewrite Hrest, Z.mul_1_l, to_double_small; [done|lia].
Qed.

Lemma word_digits digits :
  Forall (fun d => (d < 10)%N) digits → word (map digit_char digits).
Proof.
  unfold word. intros H. apply Forall_fmap. eapply Forall_impl; [exact H|].
  intros d Hd. by apply digit_char_not_space.
Qed.

Lemma truthy_nonempty (s : list ascii) : s ≠ [] → truthy (string_of_list_ascii s) = true.
Proof. by destruct s. Qed.

(** What one line adds to the total. *)
Lemma line_freeGB_text (l : Line) :
  well_formed l →
  line_freeGB (text l)
  = match l with
    | Drive _ _ _ _ _ => Some (Some (freeGB l))
    | NoMedium _ _ _ => None
    end.
Proof.
  destruct l as [lead caption gap freeSpace trail|lead caption trail]; simpl.
  - intros (Hlead & Hcap & Hcne & Hgap & Hgne & Hdig & Hdne & Htrail & Hmax).
    pose proof (word_digits freeSpace Hdig) as Hword.
    assert (Hdne' : map digit_char freeSpace ≠ []) by (by destruct freeSpace).
    set (core := caption ++ gap ++ map digit_char freeSpace).
    assert (Htrim : trim (string_of_list_ascii
                            (lead ++ caption ++ gap ++ map digit_char freeSpace ++ trail))
                    = string_of_list_ascii core).
    { destruct caption as [|first cap]; [done|].
      destruct (exists_last Hdne') as (front & last & Hlast).
      replace (lead ++ (first :: cap) ++ gap ++ map digit_char freeSpace ++ trail)
        with (lead ++ (first :: (cap ++ gap ++ front) ++ [last]) ++ trail).
      2:{ rewrite Hlast. simpl. by rewrite <- !app_assoc. }
      rewrite trim_core; try done.
      - unfold core. rewrite Hlast. simpl. by rewrite <- !app_assoc.
      - by inversion Hcap.
      - unfold word in Hword. rewrite Hlast, Forall_app, Forall_singleton in Hword.
        tauto. }
    unfold line_freeGB. rewrite Htrim. unfold split_spaces.
    rewrite list_ascii_of_string_of_list_ascii. unfold core.
    rewrite split_word, split_gap by done.
    rewrite <- (app_nil_r (map digit_char freeSpace)).
    rewrite split_word by done. simpl split_spaces_from.
    rewrite !app_nil_r, !rev_involutive.
    rewrite !truthy_nonempty by done. simpl andb. cbv iota.
    by rewrite parseInt_decimal.
  - intros (Hlead & Hcap & Htrail). unfold line_freeGB.
    destruct (decide (caption = [])) as [->|Hcne].
    + simpl app. rewrite trim_blank; [reflexivity|].
      unfold blank. by apply Forall_app.
    + assert (Htrim : trim (string_of_list_ascii (lead ++ caption ++ trail))
                      = string_of_list_ascii caption).
      { destruct (ends_of caption Hcne) as [(c & ->)|(first & middle & last & ->)].
        - apply trim_single; try done. by inversion Hcap.
        - apply trim_core; try done.
          + by inversion Hcap.
          + unfold word in Hcap.
            change (first :: middle ++ [last]) with ((first :: middle) ++ [last]) in Hcap.
            rewrite Forall_app, Forall_singleton in Hcap. tauto. }
      rewrite Htrim. unfold split_spaces. rewrite list_ascii_of_string_of_list_ascii.
      rewrite <- (app_nil_r caption), split_word by done. reflexivity.
Qed.

Lemma sum_freeGB_lines total (lines : list Line) :
  Forall well_formed lines →
  0 <= total →
  total + foldr (fun l sum => freeGB l + sum) 0 lines <= 2 ^ 53 →
  sum_freeGB (Some total) (map text lines)
  = Some (total + foldr (fun l sum => freeGB l + sum) 0 lines).
Proof.
  intros H. revert total.
  induction H as [|l lines Hl _ IH]; intros total Hmin Hmax; simpl.
  - f_equal. lia.
  - simpl in Hmax.
    pose proof (freeGB_nonneg l) as Hl0.
    pose proof (total_freeGB_nonneg lines) as Hrest.
    rewrite line_freeGB_text by done. destruct l.
    + cbn [js_add]. rewrite to_double_small by lia.
      rewrite IH by lia. f_equal. lia.
    + rewrite IH by (simpl in *; lia). f_equal.
Qed.

(** X22: [checkAvailableStorage] reads the disk report.  On an ASCII
    output whose lines after the header each hold a caption and a decimal
    free-space field of at most 2^53 bytes, or no second field at all,
    and whose drives total at most 2^53 gibibytes, the result is the sum
    over the drives of the whole gibibytes free on each (every drive is
    rounded down on its own); lines without a second field add nothing.
    (Beyond 2^53 [parseInt] and the sum round to the nearest double.) *)
Theorem checkAvailableStorage_sums_the_drives (stdout header : string)
    (lines : list Line) :
  ascii_only stdout = true →
  split_lines (trim stdout) = header :: map text lines →
  Forall well_formed lines →
  foldr (fun l sum => freeGB l + sum) 0 lines <= 2 ^ 53 →
  checkAvailableStorage (Some stdout)
  = Some (foldr (fun l sum => freeGB l + sum) 0 lines).
Proof.
  intros _ Hlines Hwf Hmax. unfold checkAvailableStorage. rewrite Hlines. simpl tail.
  by rewrite sum_freeGB_lines.
Qed.

Lemma checkAvailableStorage_sums_the_drives_witness :
  checkAvailableStorage (Some sample_stdout) = Some 160.
Proof.
  apply (checkAvailableStorage_sums_the_drives sample_stdout "Caption  FreeSpace"
           sample_lines).
  - reflexivity.
  - reflexivity.
  - repeat constructor; try discriminate; reflexivity.
  - vm_compute. discriminate.
Defined.

End DiskReportFacts.

(** ** Registration, the disk report and the listing *)

Module RegistrationFacts.
Import JS Index Provider Solidity DiskReport IndexFacts TablesFacts ProviderFacts.
Local Open Scope list_scope.
Local Open Scope Z_scope.

Lemma sum_freeGB_NaN lines : sum_freeGB None lines = None.
Proof.
  induction lines as [|line lines IH]; [reflexivity|].
  simpl. by destruct (line_freeGB line).
Qed.

Lemma sum_freeGB_app total lines1 lines2 :
  sum_freeGB total (lines1 ++ lines2) = sum_freeGB (sum_freeGB total lines1) lines2.
Proof.
  revert total. induction lines1 as [|line lines1 IH]; intros total; [reflexivity|].
  simpl. destruct (line_freeGB line); apply IH.
Qed.

(** X23: one unreadable free-space field spoils the whole report.  When a
    line after the header has a second field that [parseInt] cannot read,
    [checkAvailableStorage] returns NaN whatever the other lines hold, and
    the registration block of [startProvider] then fails before anything
    is written to the ledger or to the index. *)
Theorem unreadable_field_blocks_registration {T : Ledger.IERC20}
    (stdout header line : string) (before after : list string) :
  split_lines (trim stdout) = header :: before ++ line :: after →
  line_freeGB line = Some None →
  checkAvailableStorage (Some stdout) = None ∧
  ∀ now requested wallet walletAddress providerId (w : World),
    startProvider_register now requested (Some stdout) wallet walletAddress providerId w
    = (w, RegistrationFailed).
Proof.
  intros Hlines Hline.
  assert (HNaN : checkAvailableStorage (Some stdout) = None).
  { unfold checkAvailableStorage. rewrite Hlines. simpl tail.
    rewrite sum_freeGB_app. simpl. rewrite Hline.
    destruct (sum_freeGB (Some 0) before); simpl; apply sum_freeGB_NaN. }
  split; [exact HNaN|].
  intros now requested wallet walletAddress providerId w.
  unfold startProvider_register. rewrite HNaN.
  destruct requested; reflexivity.
Qed.

Lemma unreadable_field_blocks_registration_witness :
  checkAvailableStorage (Some "Caption  FreeSpace
C:       128849018880
D:       unknown
") = None.
Proof.
  apply (unreadable_field_blocks_registration (T := Ledger.open_token)
           _ "Caption  FreeSpace" "D:       unknown" ["C:       128849018880"] []).
  - reflexivity.
  - reflexivity.
Defined.

(** The row of the provider that a successful registration leaves in the
    index. *)
Lemma registered_row {T : Ledger.IERC20}
    (now : Z) (requested : jsint) (stdout : option string)
    (wallet : Ledger.address) (walletAddress providerId : string) (w w' : World) :
  startProvider_register now requested stdout wallet walletAddress providerId w
  = (w', Registered) →
  walletAddress ≠ EmptyString →
  (∀ row, row ∈ index w → provider_id row = providerId →
          (0 < price_per_gb row)%Q ∧ wallet_address row ≠ EmptyString) →
  ∃ r available row,
    requested = Some r ∧ checkAvailableStorage stdout = Some available ∧
    0 < Z.min r available ∧ 0 < available ∧
    row ∈ index w' ∧
    provider_id row = providerId ∧
    allocated_storage row = inject_Z (Z.min r available) ∧
    available_storage row = inject_Z available ∧
    (0 < price_per_gb row)%Q ∧ wallet_address row ≠ EmptyString ∧
    is_active row = Some true ∧ last_updated row = Some now.
Proof.
  intros Hreg Hwallet Hrows. unfold startProvider_register in Hreg.
  destruct requested as [r|]; [|discriminate].
  destruct (checkAvailableStorage stdout) as [available|]; [|discriminate].
  cbn [Math_min toWei] in Hreg.
  destruct (Z.leb_spec 0 (Z.min r available)) as [Hmin|]; [|discriminate].
  change (0 <=? fixed_price) with true in Hreg. cbv iota in Hreg.
  destruct (Ledger.registerProvider _ _ _ _) as [[ledger' evs]| |] eqn:Hledger;
    [|discriminate..].
  apply registerProvider_registers in Hledger as [Hpos _].
  assert (Hv : 0 < Z.min r available) by (unfold ether in Hpos; lia).
  cbn [default from_option id] in Hreg.
  destruct (createProvider _ _ _ _ _ _ _ _) as [index'|violated] eqn:Hcreate.
  - injection Hreg as <-.
    apply createProvider_created in Hcreate as [_ ->].
    exists r, available,
      (mkProviderRow providerId walletAddress (inject_Z (Z.min r available))
         (inject_Z fixed_price) (Some true) (inject_Z available)
         (inject_Z available) (Some now)).
    cbn [index provider_id allocated_storage available_storage price_per_gb
         wallet_address is_active last_updated].
    repeat split; try done; try lia.
    apply elem_of_app. right. by apply list_elem_of_singleton.
  - destruct (String.eqb_spec violated "providers_pkey") as [->|]; [|discriminate].
    injection Hreg as <-.
    apply createProvider_conflict in Hcreate as (row0 & Hrow0 & Hid0).
    destruct (Hrows row0 Hrow0 Hid0) as [Hprice Hw0].
    destruct (refreshed_row_listed now now providerId
                (inject_Z (Z.min r available)) (inject_Z available) None None
                (index w) row0 Hrow0 Hid0 eq_refl) as [Hin _].
    exists r, available,
      (mkProviderRow providerId (wallet_address row0)
         (inject_Z (Z.min r available)) (price_per_gb row0) (Some true)
         (total_storage row0) (inject_Z available) (Some now)).
    cbn [index provider_id allocated_storage available_storage price_per_gb
         wallet_address is_active last_updated].
    repeat split; try done; lia.
Qed.

(** X24: a provider that has just registered is offered, until its first
    heartbeat says otherwise.  When the registration block of
    [startProvider] succeeds at time [now] with a wallet address that is
    not empty: a query of [getActiveProviders] that is answered from the
    index as the block leaves it, at a time up to five minutes after
    [now], returns a row of the provider, with the minimum of the request
    and the disk check as allocated storage.  [monitorStorage], which
    [startProvider] runs next, rewrites the available storage of the
    provider's rows with the number it computed: after its update at time
    [now1], a row of the provider is returned at the times up to five
    minutes after [now1] when that number is positive, and no row of the
    provider is returned at any time when it is not.  When the provider
    already had a row, all this needs the price and the wallet address of
    that row, which the updates leave as they are. *)
Theorem registered_provider_is_listed {T : Ledger.IERC20}
    (now now' : Z) (requested : jsint) (stdout : option string)
    (wallet : Ledger.address) (walletAddress providerId : string) (w w' : World) :
  startProvider_register now requested stdout wallet walletAddress providerId w
  = (w', Registered) →
  walletAddress ≠ EmptyString →
  (∀ row, row ∈ index w → provider_id row = providerId →
          (0 < price_per_gb row)%Q ∧ wallet_address row ≠ EmptyString) →
  ∃ r available,
    requested = Some r ∧ checkAvailableStorage stdout = Some available ∧
    (now' <= now + Tables.interval →
     ∃ row, row ∈ default [] (getActiveProviders now' (Some (index w'))) ∧
            provider_id row = providerId ∧
            allocated_storage row = inject_Z (Z.min r available)) ∧
    ∀ now1 availableAllocated files,
      let db1 :=
        Tables.monitorStorage_update now1 providerId (Z.min r available)
          availableAllocated (Tables.mkDb (index w') files) in
      (now' <= now1 + Tables.interval → (0 < availableAllocated)%Q →
       ∃ row, row ∈ default [] (getActiveProviders now' (Some (Tables.providers db1))) ∧
              provider_id row = providerId ∧
              available_storage row = availableAllocated) ∧
      (¬ (0 < availableAllocated)%Q →
       ∀ row, row ∈ default [] (getActiveProviders now' (Some (Tables.providers db1))) →
              provider_id row ≠ providerId).
Proof.
  intros Hreg Hwallet Hrows.
  destruct (registered_row now requested stdout wallet walletAddress providerId w w'
              Hreg Hwallet Hrows)
    as (r & available & row1 & Hr & Ha & Hv & Hav & Hin & Hid & Halloc & Havail
        & Hprice & Hw1 & Hact & Hupd).
  exists r, available. split; [exact Hr|]. split; [exact Ha|]. split.
  - intros Hnow. exists row1. split; [|by split].
    apply getActiveProviders_elem. split; [exact Hin|].
    apply returned_iff.
    unfold valid_provider, eq_is_active, gte_last_updated, Tables.interval in *.
    rewrite Halloc, Havail, Hact, Hupd.
    rewrite !andb_true_iff, !positive_inject_Z, positive_true, truthy_true, Z.leb_le.
    repeat split; try done; lia.
  - intros now1 availableAllocated files. cbv zeta.
    unfold Tables.monitorStorage_update. cbn [Tables.providers]. split.
    + intros Hnow Hpos.
      destruct (refreshed_row_listed now1 now' providerId
                  (inject_Z (Z.min r available)) availableAllocated None None
                  (index w') row1 Hin Hid eq_refl) as [_ Hlisted].
      eexists. split; [apply Hlisted|split; reflexivity].
      cbn [default from_option id].
      rewrite <- (positive_true (inject_Z _)), positive_inject_Z.
      repeat split; try done.
    + intros Hnot row Hrow Hrid.
      apply getActiveProviders_elem in Hrow as [Hrow Hret].
      apply updateProviderStorage_elem in Hrow as (r0 & _ & Heq).
      destruct (String.eqb_spec (provider_id r0) providerId) as [E|E].
      * apply returned_iff in Hret as [Hret _].
        unfold valid_provider in Hret. rewrite Heq in Hret.
        cbn [default from_option id available_storage] in Hret.
        rewrite !andb_true_iff in Hret.
        destruct Hret as [[[_ Hpos] _] _].
        apply positive_true in Hpos. done.
      * subst row. done.
Qed.

Lemma registered_provider_is_listed_witness :
  ∃ row,
    row ∈ default []
      (getActiveProviders 1700000300000
         (Some (index (startProvider_register 1700000000000 (Some 500)
                         (Some sample_stdout) 1%N
                         "0x52908400098527886E0F7030069857D2E4169EE7" "c9d0e1f2"
                         empty_world).1))) ∧
    provider_id row = "c9d0e1f2".
Proof.
  destruct (registered_provider_is_listed (T := Ledger.open_token)
              1700000000000 1700000300000 (Some 500) (Some sample_stdout) 1%N
              "0x52908400098527886E0F7030069857D2E4169EE7" "c9d0e1f2" empty_world _
              eq_refl)
    as (r & available & _ & _ & Hlisted & _).
  - discriminate.
  - intros row Hrow. by apply elem_of_nil in Hrow.
  - destruct Hlisted as (row & Hrow & Hid & _); [vm_compute; discriminate|].
    exists row. split; [exact Hrow|exact Hid].
Defined.

End RegistrationFacts.

(** ** The installer *)

Module InstallerFacts.
Import Installer.
Local Open Scope string_scope.

Lemma append_empty_r (s : string) : s ++ EmptyString = s.
Proof.
  induction s as [|c s IH]; [reflexivity|].
  change (String c (s ++ EmptyString) = String c s). by rewrite IH.
Qed.

Lemma prefix_app (sub rest : string) : String.prefix sub (sub ++ rest) = true.
Proof.
  induction sub as [|c sub IH]; [by destruct rest|].
  change (String.prefix (String c sub) (String c (sub ++ rest)) = true).
  simpl. destruct (ascii_dec c c); [exact IH|done].
Qed.

Lemma includes_app_r (s1 s2 sub : string) :
  includes s2 sub = true → includes (s1 ++ s2) sub = true.
Proof.
  intros H. induction s1 as [|c s1 IH]; [exact H|].
  change (includes (String c (s1 ++ s2)) sub = true).
  cbn [includes]. rewrite IH. apply orb_true_r.
Qed.

Lemma includes_middle (before sub after : string) :
  includes (before ++ sub ++ after) sub = true.
Proof.
  apply includes_app_r.
  assert (H : String.prefix sub (sub ++ after) = true) by apply prefix_app.
  destruct (sub ++ after); cbn [includes]; rewrite H; reflexivity.
Qed.

Lemma includes_pathLine binDir : includes (pathLine binDir) binDir = true.
Proof.
  unfold pathLine.
  replace (line_feed ++ "export PATH=" ++ double_quote ++ "$PATH:" ++ binDir
           ++ double_quote ++ line_feed)
    with ((line_feed ++ "export PATH=" ++ double_quote ++ "$PATH:")
          ++ binDir ++ (double_quote ++ line_feed)).
  - apply includes_middle.
  - reflexivity.
Qed.

(** X25: [updatePath] is idempotent on a Unix-like system.  It runs no
    command there; afterwards the shell configuration exists, holds the
    directory of the binary and begins with what it held before; and a
    second run leaves it as the first run left it (the export line is not
    appended twice). *)
Theorem updatePath_appends_once (platform binDir echo echo' : string)
    (shellConfig : option string) :
  platform ≠ "win32" →
  let once := updatePath platform binDir echo shellConfig in
  once.1 = [] ∧
  (∃ content, once.2 = Some content ∧ includes content binDir = true ∧
              ∀ before, shellConfig = Some before →
                        ∃ added, content = before ++ added) ∧
  updatePath platform binDir echo' once.2 = once.
Proof.
  intros Hp. apply String.eqb_neq in Hp. cbv zeta. unfold updatePath. rewrite Hp.
  split; [reflexivity|]. cbn [fst snd].
  destruct shellConfig as [content|].
  - destruct (includes content binDir) eqn:E.
    + split; [|by rewrite E].
      exists content. split; [done|]. split; [done|].
      intros before [= <-]. exists EmptyString. by rewrite append_empty_r.
    + assert (Hin : includes (content ++ pathLine binDir) binDir = true)
        by apply includes_app_r, includes_pathLine.
      split; [|by rewrite Hin].
      exists (content ++ pathLine binDir). split; [done|]. split; [done|].
      intros before [= <-]. by eexists.
  - split; [|by rewrite includes_pathLine].
    exists (pathLine binDir). split; [done|]. split; [apply includes_pathLine|].
    intros before [=].
Qed.

Lemma updatePath_appends_once_witness :
  updatePath "linux" "/usr/local/bin" EmptyString (Some "alias ll='ls -l'")
  = ([], Some ("alias ll='ls -l'" ++ pathLine "/usr/local/bin")) ∧
  updatePath "linux" "/usr/local/bin" EmptyString
    (Some ("alias ll='ls -l'" ++ pathLine "/usr/local/bin"))
  = ([], Some ("alias ll='ls -l'" ++ pathLine "/usr/local/bin")).
Proof.
  split; [reflexivity|].
  apply (proj2 (proj2 (updatePath_appends_once "linux" "/usr/local/bin" EmptyString EmptyString
                         (Some "alias ll='ls -l'") ltac:(discriminate)))).
Defined.

End InstallerFacts.
